(** * kafsar: the Kafka-on-Pulsar broker and its standalone group coordinator

    A shallow embedding of [pkg/kafsar/group_coordinator_standalone.go] and of
    the data-plane handlers of the broker ([Produce], [FetchPartition],
    [OffsetCommitPartition]).

    Conventions of the embedding.
    - A Go [map[string]*T] is a [gmap string T]; a handler that mutates a
      [*Group] through the pointer it looked up is a state transformer on the
      group whose result is written back under the same key.
    - A nil pointer is [None]; dereferencing it is the outcome [Panic].
    - Go [int] and [int64] counters are [Z]; the counters of this program
      are only incremented by one and compared.
    - Every polling loop ([awaitingJoin], [awaitingSync], [awaitingRebalance])
      reads the wall clock.  The clock is the environment's: a loop takes the
      number of further polls the clock grants before it reports the session
      timeout.  A handler runs to completion on the group it addresses; no
      other handler runs in between its steps.
    - [uuid.New()] is the environment's as well: the fresh identifier is an
      argument of the call. *)

From Stdlib Require Import ZArith List String Lia.
From stdpp Require Import base option gmap strings list fin_maps pretty.

Local Open Scope string_scope.
Local Open Scope Z_scope.

(** ** Outcomes of Go code: a normal return, a runtime fault, or a goroutine
       that blocks for ever on a channel nobody writes to *)

Inductive outcome (A : Type) : Type :=
  | Ret (a : A)
  | Panic
  | Hang.
Arguments Ret {A} a.
Arguments Panic {A}.
Arguments Hang {A}.

Definition bytes : Type := list Byte.byte.

(** A Go [error] value: [None] is [nil]. *)
Definition error : Type := option string.

Definition Errorf (msg : string) : error := Some msg.

(** ** The wire records of [codec] the handlers read and build *)

Module codec.

Inductive ErrorCode : Type :=
  | NONE
  | UNKNOWN_SERVER_ERROR
  | LEADER_NOT_AVAILABLE
  | COORDINATOR_LOAD_IN_PROGRESS
  | INVALID_GROUP_ID
  | UNKNOWN_MEMBER_ID
  | INVALID_SESSION_TIMEOUT
  | REBALANCE_IN_PROGRESS
  | INCONSISTENT_GROUP_PROTOCOL
  | TOPIC_AUTHORIZATION_FAILED
  | SASL_AUTHENTICATION_FAILED
  | MEMBER_ID_REQUIRED
  | GROUP_MAX_SIZE_REACHED.

Record GroupProtocol : Type := {
  ProtocolName : string;
  ProtocolMetadata : bytes
}.

Record GroupAssignment : Type := {
  ga_MemberId : string;
  MemberAssignment : bytes
}.

Record LeaveGroupMember : Type := {
  lgm_MemberId : string;
  lgm_GroupInstanceId : option string
}.

Record Member : Type := {
  m_MemberId : string;
  m_GroupInstanceId : option string;
  m_Metadata : bytes
}.

Record JoinGroupResp : Type := {
  jg_ErrorCode : ErrorCode;
  jg_GenerationId : Z;
  jg_ProtocolType : option string;
  jg_ProtocolName : string;
  jg_LeaderId : string;
  jg_MemberId : string;
  jg_Members : list Member
}.

Record SyncGroupResp : Type := {
  sg_ErrorCode : ErrorCode;
  sg_MemberAssignment : bytes
}.

Record LeaveGroupResp : Type := {
  lg_ErrorCode : ErrorCode;
  lg_Members : list LeaveGroupMember
}.

Record HeartbeatResp : Type := {
  hb_ErrorCode : ErrorCode
}.

End codec.

Import codec.

#[global] Instance ErrorCode_eq_dec : EqDecision ErrorCode.
Proof. solve_decision. Defined.

(** ** Configuration *)

Record KafsarConfig : Type := {
  GroupMinSessionTimeoutMs : Z;
  GroupMaxSessionTimeoutMs : Z;
  MaxConsumersPerGroup : Z;
  RebalanceTickMs : Z;
  InitialDelayedJoinMs : Z;
  MaxFetchRecord : Z;
  MinFetchWaitMs : Z;
  MaxFetchWaitMs : Z;
  ContinuousOffset : bool
}.

(** ** Groups and members *)

Inductive GroupStatus : Type :=
  | PreparingRebalance
  | CompletingRebalance
  | Stable
  | Dead
  | Empty.

#[global] Instance GroupStatus_eq_dec : EqDecision GroupStatus.
Proof. solve_decision. Defined.

Record memberMetadata : Type := {
  clientId : string;
  memberId : string;
  metadata : bytes;
  assignment : bytes;
  mm_protocolType : string;
  protocols : gmap string bytes;
  joinGenerationId : Z;
  syncGenerationId : Z
}.

Record Group : Type := {
  groupId : string;
  groupStatus : GroupStatus;
  supportedProtocol : string;
  groupProtocols : gmap string string;
  protocolType : string;
  leader : string;
  members : gmap string memberMetadata;
  canRebalance : bool;
  generationId : Z;
  sessionTimeoutMs : Z;
  partitionedTopic : list string
}.

(** Modelled from the spec: the constant [EmptyMemberId] is declared outside
    the files at hand; the spec gives the member id of a brand-new member as
    the empty string. *)
Definition EmptyMemberId : string := "".

(** *** Field updates through a [*Group] or a [*memberMetadata] *)

Definition with_groupStatus (s : GroupStatus) (g : Group) : Group :=
  {| groupId := groupId g; groupStatus := s;
     supportedProtocol := supportedProtocol g;
     groupProtocols := groupProtocols g; protocolType := protocolType g;
     leader := leader g; members := members g;
     canRebalance := canRebalance g; generationId := generationId g;
     sessionTimeoutMs := sessionTimeoutMs g;
     partitionedTopic := partitionedTopic g |}.

Definition with_supportedProtocol (p : string) (g : Group) : Group :=
  {| groupId := groupId g; groupStatus := groupStatus g;
     supportedProtocol := p;
     groupProtocols := groupProtocols g; protocolType := protocolType g;
     leader := leader g; members := members g;
     canRebalance := canRebalance g; generationId := generationId g;
     sessionTimeoutMs := sessionTimeoutMs g;
     partitionedTopic := partitionedTopic g |}.

Definition with_leader (l : string) (g : Group) : Group :=
  {| groupId := groupId g; groupStatus := groupStatus g;
     supportedProtocol := supportedProtocol g;
     groupProtocols := groupProtocols g; protocolType := protocolType g;
     leader := l; members := members g;
     canRebalance := canRebalance g; generationId := generationId g;
     sessionTimeoutMs := sessionTimeoutMs g;
     partitionedTopic := partitionedTopic g |}.

Definition with_members (ms : gmap string memberMetadata) (g : Group) : Group :=
  {| groupId := groupId g; groupStatus := groupStatus g;
     supportedProtocol := supportedProtocol g;
     groupProtocols := groupProtocols g; protocolType := protocolType g;
     leader := leader g; members := ms;
     canRebalance := canRebalance g; generationId := generationId g;
     sessionTimeoutMs := sessionTimeoutMs g;
     partitionedTopic := partitionedTopic g |}.

Definition with_canRebalance (b : bool) (g : Group) : Group :=
  {| groupId := groupId g; groupStatus := groupStatus g;
     supportedProtocol := supportedProtocol g;
     groupProtocols := groupProtocols g; protocolType := protocolType g;
     leader := leader g; members := members g;
     canRebalance := b; generationId := generationId g;
     sessionTimeoutMs := sessionTimeoutMs g;
     partitionedTopic := partitionedTopic g |}.

Definition with_generationId (n : Z) (g : Group) : Group :=
  {| groupId := groupId g; groupStatus := groupStatus g;
     supportedProtocol := supportedProtocol g;
     groupProtocols := groupProtocols g; protocolType := protocolType g;
     leader := leader g; members := members g;
     canRebalance := canRebalance g; generationId := n;
     sessionTimeoutMs := sessionTimeoutMs g;
     partitionedTopic := partitionedTopic g |}.

Definition with_partitionedTopic (ts : list string) (g : Group) : Group :=
  {| groupId := groupId g; groupStatus := groupStatus g;
     supportedProtocol := supportedProtocol g;
     groupProtocols := groupProtocols g; protocolType := protocolType g;
     leader := leader g; members := members g;
     canRebalance := canRebalance g; generationId := generationId g;
     sessionTimeoutMs := sessionTimeoutMs g;
     partitionedTopic := ts |}.

Definition with_assignment (a : bytes) (m : memberMetadata) : memberMetadata :=
  {| clientId := clientId m; memberId := memberId m; metadata := metadata m;
     assignment := a; mm_protocolType := mm_protocolType m;
     protocols := protocols m; joinGenerationId := joinGenerationId m;
     syncGenerationId := syncGenerationId m |}.

Definition with_joinGenerationId (n : Z) (m : memberMetadata) : memberMetadata :=
  {| clientId := clientId m; memberId := memberId m; metadata := metadata m;
     assignment := assignment m; mm_protocolType := mm_protocolType m;
     protocols := protocols m; joinGenerationId := n;
     syncGenerationId := syncGenerationId m |}.

Definition with_syncGenerationId (n : Z) (m : memberMetadata) : memberMetadata :=
  {| clientId := clientId m; memberId := memberId m; metadata := metadata m;
     assignment := assignment m; mm_protocolType := mm_protocolType m;
     protocols := protocols m; joinGenerationId := joinGenerationId m;
     syncGenerationId := n |}.

(** ** The group coordinator *)

Module GroupCoordinator.

(** The fields a handler's parameters share their names with. *)
Local Abbreviation fieldProtocolType := protocolType.
Local Abbreviation fieldMemberId := memberId.
Local Abbreviation fieldSessionTimeoutMs := sessionTimeoutMs.
Local Abbreviation fieldGroupId := groupId.

(** *** A state-and-fault monad over the group a handler holds *)

Definition M (A : Type) : Type := Group → outcome (A * Group).

Definition ret {A} (a : A) : M A := λ g, Ret (a, g).

Definition bind {A B} (m : M A) (f : A → M B) : M B :=
  λ g, match m g with
       | Ret (a, g') => f a g'
       | Panic => Panic
       | Hang => Hang
       end.

Definition gets {A} (f : Group → A) : M A := λ g, Ret (f g, g).

Definition modify (f : Group → Group) : M unit := λ g, Ret (tt, f g).

Definition panic {A} : M A := λ _, Panic.

Declare Scope go_scope.
Delimit Scope go_scope with go.
Notation "x <- c ;; k" := (bind c (λ x, k))
  (at level 20, c at level 99, k at level 200, only parsing) : go_scope.
Notation "c ;; k" := (bind c (λ _, k))
  (at level 100, k at level 200, right associativity, only parsing) : go_scope.
Local Open Scope go_scope.

(** The environment of one call: the identifier [uuid.New()] hands out and,
    for each polling loop the call may enter, the number of further polls
    before the clock reaches the loop's timeout. *)
Record Env : Type := {
  uuid : string;
  newMemberTicks : nat;
  rebalanceTicks : nat;
  joinTicks : nat;
  syncTicks : nat
}.

Record GroupCoordinatorStandalone : Type := {
  kafsarConfig : KafsarConfig;
  groupManager : gmap string Group
}.

Definition NewGroupCoordinatorStandalone (cfg : KafsarConfig)
  : GroupCoordinatorStandalone :=
  {| kafsarConfig := cfg; groupManager := ∅ |}.

Definition with_groupManager (gm : gmap string Group)
    (c : GroupCoordinatorStandalone) : GroupCoordinatorStandalone :=
  {| kafsarConfig := kafsarConfig c; groupManager := gm |}.

(** *** Accessors *)

Definition getGroupStatus : M GroupStatus := gets groupStatus.

Definition getGroupGenerationId : M Z := gets generationId.

Definition getGroupMembersLen : M Z :=
  gets (λ g, Z.of_nat (size (members g))).

Definition setGroupStatus (status : GroupStatus) : M unit :=
  modify (with_groupStatus status).

Definition getMemberLeader : M string := gets leader.

Definition setMemberLeader (l : string) : M unit := modify (with_leader l).

Definition isMemberLeader (memberId : string) : M bool :=
  l <- getMemberLeader ;; ret (bool_decide (l = memberId)).

Definition deleteMember (memberId : string) : M unit :=
  modify (λ g, with_members (delete memberId (members g)) g).

Definition checkMemberExist (memberId : string) : M bool :=
  gets (λ g, bool_decide (is_Some (members g !! memberId))).

(** *** Parameter and protocol checks *)

Definition syncGroupParamsCheck (groupId memberId : string)
  : ErrorCode * error :=
  if bool_decide (groupId = "") then
    (INVALID_GROUP_ID, Errorf "groupId is empty")
  else if bool_decide (memberId = "") then
    (MEMBER_ID_REQUIRED, Errorf "memberId is empty")
  else (NONE, None).

Definition joinGroupParamsCheck (clientId groupId memberId : string)
    (sessionTimeoutMs : Z) (config : KafsarConfig)
  : string * ErrorCode * error :=
  if bool_decide (groupId = "") then
    (memberId, INVALID_GROUP_ID, Errorf "empty groupId")
  else if (sessionTimeoutMs <? GroupMinSessionTimeoutMs config)
          || (sessionTimeoutMs >? GroupMaxSessionTimeoutMs config) then
    (memberId, INVALID_SESSION_TIMEOUT, Errorf "invalid sessionTimeoutMs")
  else (memberId, NONE, None).

Definition supportsProtocols (groupProtocols : gmap string string)
    (memberProtocols : list GroupProtocol) : bool := true.

Definition matchProtocols (groupProtocols : gmap string string)
    (memberProtocols : list GroupProtocol) : bool := true.

Definition joinGroupProtocolCheck (protocolType : string)
    (protocols : list GroupProtocol) : M (ErrorCode * error) :=
  status <- getGroupStatus ;;
  groupType <- gets fieldProtocolType ;;
  gps <- gets groupProtocols ;;
  if negb (bool_decide (status = Empty))
     && negb (bool_decide (groupType = protocolType)) then
    ret (INCONSISTENT_GROUP_PROTOCOL, Errorf "invalid protocolType")
  else if negb (bool_decide (status = Empty))
          && negb (supportsProtocols gps protocols) then
    ret (INCONSISTENT_GROUP_PROTOCOL, Errorf "protocols not match")
  else
    status <- getGroupStatus ;;
    if bool_decide (status = Empty) && bool_decide (protocolType = "") then
      ret (INCONSISTENT_GROUP_PROTOCOL, Errorf "empty protocolType")
    else if bool_decide (status = Empty)
            && bool_decide (length protocols = 0%nat) then
      ret (INCONSISTENT_GROUP_PROTOCOL, Errorf "empty protocol")
    else ret (NONE, None).

(** *** The rebalance driver *)

Definition prepareRebalance : M unit := setGroupStatus PreparingRebalance.

(** [awaitingRebalance]: poll until the status is the awaited one or the
    group has no member; the clock ends the wait after [ticks] more polls. *)
Fixpoint awaitingRebalance (ticks : nat) (waitForStatus : GroupStatus)
  : M error :=
  status <- getGroupStatus ;;
  n <- getGroupMembersLen ;;
  if bool_decide (status = waitForStatus) || (n =? 0) then ret None
  else match ticks with
       | O => ret (Errorf "relalance timeout")
       | S ticks' => awaitingRebalance ticks' waitForStatus
       end.

Definition doRebalance (env : Env) : M error :=
  prepareRebalance ;;
  can <- gets canRebalance ;;
  if can then
    modify (with_canRebalance false) ;;
    setGroupStatus CompletingRebalance ;;
    modify (λ g, with_generationId (generationId g + 1) g) ;;
    modify (with_canRebalance true) ;;
    ret None
  else awaitingRebalance (rebalanceTicks env) CompletingRebalance.

(** [protocols[0]] faults on an empty slice. *)
Definition vote (protocols : list GroupProtocol) : M unit :=
  match protocols with
  | [] => panic
  | p :: _ => modify (with_supportedProtocol (ProtocolName p))
  end.

Definition protocolMapOf (protocols : list GroupProtocol)
  : gmap string bytes :=
  fold_left (λ m p, <[ProtocolName p := ProtocolMetadata p]> m) protocols ∅.

Definition addMemberAndRebalance (env : Env)
    (clientId memberId protocolType : string)
    (protocols : list GroupProtocol) : M (string * error) :=
  let memberId :=
    if bool_decide (memberId = EmptyMemberId)
    then clientId +:+ "-" +:+ uuid env else memberId in
  let protocolMap := protocolMapOf protocols in
  status <- getGroupStatus ;;
  (if bool_decide (status = Empty) then vote protocols else ret tt) ;;
  modify (λ g, with_members
    (<[memberId :=
         {| clientId := clientId; memberId := memberId;
            metadata := default [] (protocolMap !! supportedProtocol g);
            assignment := []; mm_protocolType := protocolType;
            protocols := protocolMap;
            joinGenerationId := 0; syncGenerationId := 0 |}]> (members g))
    g) ;;
  err <- doRebalance env ;;
  ret (memberId, err).

Definition updateMemberAndRebalance (env : Env)
    (clientId memberId protocolType : string)
    (protocols : list GroupProtocol) : M error :=
  doRebalance env.

Definition addNewMemberAndReBalance (env : Env)
    (clientId memberId protocolType : string)
    (protocols : list GroupProtocol) : M (string * error) :=
  n <- getGroupMembersLen ;;
  status <- getGroupStatus ;;
  if (n >? 0) && negb (bool_decide (status = Stable)) then
    err <- awaitingRebalance (newMemberTicks env) Stable ;;
    match err with
    | Some _ => ret (memberId, err)
    | None =>
        addMemberAndRebalance env clientId memberId protocolType protocols
    end
  else addMemberAndRebalance env clientId memberId protocolType protocols.

(** *** The join barrier *)

Definition checkJoinMemberGenerationId : M bool :=
  gets (λ g, bool_decide
    (map_Forall (λ _ m, joinGenerationId m = generationId g) (members g))).

Fixpoint awaitingJoin (ticks : nat) (memberId : string) : M error :=
  groupGenerationId <- getGroupGenerationId ;;
  curMember <- gets (λ g, members g !! memberId) ;;
  match curMember with
  | None => ret (Errorf "cur member missing when awaitingJoin.")
  | Some cur =>
      (if negb (bool_decide (joinGenerationId cur = groupGenerationId)) then
         modify (λ g, with_members
           (<[memberId := with_joinGenerationId groupGenerationId cur]>
              (members g)) g)
       else ret tt) ;;
      joined <- checkJoinMemberGenerationId ;;
      if joined then setGroupStatus CompletingRebalance ;; ret None
      else match ticks with
           | O => ret (Errorf "join wait timeout")
           | S ticks' => awaitingJoin ticks' memberId
           end
  end.

(** The member list is built by ranging over the member map; Go leaves the
    order of that iteration open, the model takes the order of
    [map_to_list]. *)
Definition getLeaderMembers (memberId : string) : M (list Member) :=
  l <- getMemberLeader ;;
  (if bool_decide (l = "") then setMemberLeader memberId else ret tt) ;;
  isLeader <- isMemberLeader memberId ;;
  if isLeader then
    gets (λ g, (λ km, {| m_MemberId := fieldMemberId km.2;
                          m_GroupInstanceId := None;
                          m_Metadata := metadata km.2 |})
                 <$> map_to_list (members g))
  else ret [].

(** *** The sync barrier *)

Definition checkSyncMemberGenerationId : M bool :=
  gets (λ g, bool_decide
    (map_Forall (λ _ m, syncGenerationId m = joinGenerationId m) (members g))).

Fixpoint awaitingSync (ticks : nat) : M error :=
  synced <- checkSyncMemberGenerationId ;;
  if synced then ret None
  else match ticks with
       | O => ret (Errorf "sync wait timeout")
       | S ticks' => awaitingSync ticks'
       end.

(** *** JoinGroup *)

Definition joinErrorResp (memberId : string) (code : ErrorCode)
  : JoinGroupResp :=
  {| jg_ErrorCode := code; jg_GenerationId := 0; jg_ProtocolType := None;
     jg_ProtocolName := ""; jg_LeaderId := ""; jg_MemberId := memberId;
     jg_Members := [] |}.

Definition joinResp (memberId : string) (members : list Member)
  : M JoinGroupResp :=
  gen <- gets generationId ;;
  pt <- gets fieldProtocolType ;;
  pn <- gets supportedProtocol ;;
  l <- getMemberLeader ;;
  ret {| jg_ErrorCode := NONE; jg_GenerationId := gen;
         jg_ProtocolType := Some pt; jg_ProtocolName := pn;
         jg_LeaderId := l; jg_MemberId := memberId;
         jg_Members := members |}.

(** The three status branches of [HandleJoinGroup], in source order. *)

Definition joinPreparingRebalance (env : Env) (isNewMember : bool)
    (clientId memberId protocolType : string)
    (protocols : list GroupProtocol) : M JoinGroupResp :=
  exist <- checkMemberExist memberId ;;
  r <- (if isNewMember || negb exist then
          addNewMemberAndReBalance env clientId memberId protocolType protocols
        else ret (memberId, None)) ;;
  let memberId := r.1 in
  match r.2 with
  | Some _ => ret (joinErrorResp memberId COORDINATOR_LOAD_IN_PROGRESS)
  | None =>
      err <- awaitingJoin (joinTicks env) memberId ;;
      match err with
      | Some _ =>
          (if isNewMember then deleteMember memberId else ret tt) ;;
          ret (joinErrorResp memberId COORDINATOR_LOAD_IN_PROGRESS)
      | None =>
          members <- getLeaderMembers memberId ;;
          joinResp memberId members
      end
  end.

Definition joinCompletingRebalance (env : Env) (isNewMember : bool)
    (clientId memberId protocolType : string)
    (protocols : list GroupProtocol) : M JoinGroupResp :=
  exist <- checkMemberExist memberId ;;
  gps <- gets groupProtocols ;;
  r <- (if isNewMember || negb exist then
          addNewMemberAndReBalance env clientId memberId protocolType protocols
        else if negb (matchProtocols gps protocols) then
          err <- updateMemberAndRebalance env clientId memberId protocolType
                   protocols ;;
          ret (memberId, err)
        else ret (memberId, None)) ;;
  let memberId := r.1 in
  match r.2 with
  | Some _ => ret (joinErrorResp memberId COORDINATOR_LOAD_IN_PROGRESS)
  | None =>
      members <- getLeaderMembers memberId ;;
      err <- awaitingJoin (joinTicks env) memberId ;;
      match err with
      | Some _ =>
          (if isNewMember then deleteMember memberId else ret tt) ;;
          ret (joinErrorResp memberId COORDINATOR_LOAD_IN_PROGRESS)
      | None => joinResp memberId members
      end
  end.

Definition joinEmptyOrStable (env : Env) (isNewMember : bool)
    (clientId memberId protocolType : string)
    (protocols : list GroupProtocol) : M JoinGroupResp :=
  exist <- checkMemberExist memberId ;;
  gps <- gets groupProtocols ;;
  isLeader <- isMemberLeader memberId ;;
  r <- (if isNewMember || negb exist then
          addNewMemberAndReBalance env clientId memberId protocolType protocols
        else if isLeader || negb (matchProtocols gps protocols) then
          err <- updateMemberAndRebalance env clientId memberId protocolType
                   protocols ;;
          ret (memberId, err)
        else ret (memberId, None)) ;;
  let memberId := r.1 in
  match r.2 with
  | Some _ => ret (joinErrorResp memberId COORDINATOR_LOAD_IN_PROGRESS)
  | None =>
      err <- awaitingJoin (joinTicks env) memberId ;;
      match err with
      | Some _ =>
          (if isNewMember then deleteMember memberId else ret tt) ;;
          ret (joinErrorResp memberId COORDINATOR_LOAD_IN_PROGRESS)
      | None =>
          members <- getLeaderMembers memberId ;;
          joinResp memberId members
      end
  end.

(** [HandleJoinGroup] from the protocol check on: the part that runs on the
    group the call looked up or created. *)
Definition joinGroup (cfg : KafsarConfig) (env : Env)
    (memberId clientId protocolType : string)
    (protocols : list GroupProtocol) : M JoinGroupResp :=
  chk <- joinGroupProtocolCheck protocolType protocols ;;
  match chk.2 with
  | Some _ => ret (joinErrorResp memberId chk.1)
  | None =>
      numMember <- getGroupMembersLen ;;
      if (MaxConsumersPerGroup cfg >? 0)
         && (numMember >=? MaxConsumersPerGroup cfg) then
        ret (joinErrorResp memberId GROUP_MAX_SIZE_REACHED)
      else
        status <- getGroupStatus ;;
        if bool_decide (status = Dead) then
          ret (joinErrorResp memberId UNKNOWN_MEMBER_ID)
        else
          let isNewMember := bool_decide (memberId = EmptyMemberId) in
          status <- getGroupStatus ;;
          if bool_decide (status = PreparingRebalance) then
            joinPreparingRebalance env isNewMember clientId memberId
              protocolType protocols
          else if bool_decide (status = CompletingRebalance) then
            joinCompletingRebalance env isNewMember clientId memberId
              protocolType protocols
          else if bool_decide (status = Empty)
                  || bool_decide (status = Stable) then
            joinEmptyOrStable env isNewMember clientId memberId
              protocolType protocols
          else ret (joinErrorResp memberId UNKNOWN_SERVER_ERROR)
  end.

Definition newGroup (groupId protocolType : string) (sessionTimeoutMs : Z)
  : Group :=
  {| groupId := groupId; groupStatus := Empty; supportedProtocol := "";
     groupProtocols := ∅; protocolType := protocolType; leader := "";
     members := ∅; canRebalance := true; generationId := 0;
     sessionTimeoutMs := sessionTimeoutMs; partitionedTopic := [] |}.

(** Run a handler body on the group stored under [key]; the body's writes
    go through the stored pointer, so the group under [key] is the body's
    final group. *)
Definition onGroup {A} (key : string) (group : Group) (body : M A)
    (c : GroupCoordinatorStandalone)
  : outcome (A * GroupCoordinatorStandalone) :=
  match body group with
  | Ret (a, group') =>
      Ret (a, with_groupManager (<[key := group']> (groupManager c)) c)
  | Panic => Panic
  | Hang => Hang
  end.

Definition HandleJoinGroup (env : Env) (c : GroupCoordinatorStandalone)
    (username groupId memberId clientId protocolType : string)
    (sessionTimeoutMs : Z) (protocols : list GroupProtocol)
  : outcome (JoinGroupResp * GroupCoordinatorStandalone) :=
  let chk := joinGroupParamsCheck clientId groupId memberId sessionTimeoutMs
               (kafsarConfig c) in
  let memberId := chk.1.1 in
  match chk.2 with
  | Some _ => Ret (joinErrorResp memberId chk.1.2, c)
  | None =>
      let key := username +:+ groupId in
      let group :=
        match groupManager c !! key with
        | Some group => group
        | None => newGroup groupId protocolType sessionTimeoutMs
        end in
      onGroup key group
        (joinGroup (kafsarConfig c) env memberId clientId protocolType
           protocols) c
  end.

(** *** SyncGroup *)

(** [group.members[id].assignment = a]: the map yields a nil pointer for an
    absent id, and the store through it faults. *)
Definition storeAssignment (a : GroupAssignment) : M unit :=
  m <- gets (λ g, members g !! ga_MemberId a) ;;
  match m with
  | None => panic
  | Some m =>
      modify (λ g, with_members
        (<[ga_MemberId a := with_assignment (MemberAssignment a) m]>
           (members g)) g)
  end.

Fixpoint storeAssignments (groupAssignments : list GroupAssignment)
  : M unit :=
  match groupAssignments with
  | [] => ret tt
  | a :: rest => storeAssignment a ;; storeAssignments rest
  end.

(** A read through the pointer [curMember], which the caller obtained from
    the member map before; no path of [HandleSyncGroup] removes the entry in
    between. *)
Definition curMemberField {A} (memberId : string) (f : memberMetadata → A)
  : M A :=
  m <- gets (λ g, members g !! memberId) ;;
  match m with
  | None => panic
  | Some m => ret (f m)
  end.

Definition syncResp (code : ErrorCode) (a : bytes) : SyncGroupResp :=
  {| sg_ErrorCode := code; sg_MemberAssignment := a |}.

Definition syncCompletingRebalance (env : Env) (memberId : string)
    (groupAssignments : list GroupAssignment) : M SyncGroupResp :=
  isLeader <- isMemberLeader memberId ;;
  (if isLeader then storeAssignments groupAssignments else ret tt) ;;
  modify (λ g, with_members
    (alter (λ cur, with_syncGenerationId (joinGenerationId cur) cur)
       memberId (members g)) g) ;;
  err <- awaitingSync (syncTicks env) ;;
  isLeader <- isMemberLeader memberId ;;
  (if isLeader then setGroupStatus Stable else ret tt) ;;
  curMemberAssignment <- curMemberField memberId assignment ;;
  match err with
  | Some _ => ret (syncResp REBALANCE_IN_PROGRESS curMemberAssignment)
  | None =>
      isLeader <- isMemberLeader memberId ;;
      (if isLeader then setGroupStatus Stable else ret tt) ;;
      ret (syncResp NONE curMemberAssignment)
  end.

Definition syncGroup (env : Env) (memberId : string)
    (groupAssignments : list GroupAssignment) : M SyncGroupResp :=
  curMember <- gets (λ g, members g !! memberId) ;;
  match curMember with
  | None => ret (syncResp UNKNOWN_MEMBER_ID [])
  | Some _ =>
      status <- getGroupStatus ;;
      if bool_decide (status = Empty) || bool_decide (status = Dead) then
        ret (syncResp UNKNOWN_MEMBER_ID [])
      else if bool_decide (status = PreparingRebalance) then
        ret (syncResp REBALANCE_IN_PROGRESS [])
      else if bool_decide (status = CompletingRebalance) then
        syncCompletingRebalance env memberId groupAssignments
      else if bool_decide (status = Stable) then
        a <- curMemberField memberId assignment ;;
        ret (syncResp NONE a)
      else ret (syncResp UNKNOWN_SERVER_ERROR [])
  end.

Definition HandleSyncGroup (env : Env) (c : GroupCoordinatorStandalone)
    (username groupId memberId : string) (generation : Z)
    (groupAssignments : list GroupAssignment)
  : outcome (SyncGroupResp * GroupCoordinatorStandalone) :=
  let chk := syncGroupParamsCheck groupId memberId in
  match chk.2 with
  | Some _ => Ret (syncResp chk.1 [], c)
  | None =>
      let key := username +:+ groupId in
      match groupManager c !! key with
      | None => Ret (syncResp INVALID_GROUP_ID [], c)
      | Some group =>
          onGroup key group (syncGroup env memberId groupAssignments) c
      end
  end.

(** *** LeaveGroup *)

Definition leaveMember (m : LeaveGroupMember) : M unit :=
  l <- getMemberLeader ;;
  (if bool_decide (lgm_MemberId m = l) then setMemberLeader "" else ret tt) ;;
  deleteMember (lgm_MemberId m).

Fixpoint leaveMembers (ms : list LeaveGroupMember) : M unit :=
  match ms with
  | [] => ret tt
  | m :: rest => leaveMember m ;; leaveMembers rest
  end.

Definition leaveGroup (ms : list LeaveGroupMember) : M LeaveGroupResp :=
  leaveMembers ms ;;
  modify (λ g, with_generationId (generationId g + 1) g) ;;
  n <- gets (λ g, size (members g)) ;;
  (if bool_decide (n = 0%nat) then setGroupStatus Empty
   else setGroupStatus PreparingRebalance) ;;
  ret {| lg_ErrorCode := NONE; lg_Members := ms |}.

Definition HandleLeaveGroup (c : GroupCoordinatorStandalone)
    (username groupId : string) (ms : list LeaveGroupMember)
  : outcome (LeaveGroupResp * GroupCoordinatorStandalone) :=
  if bool_decide (groupId = "") then
    Ret ({| lg_ErrorCode := INVALID_GROUP_ID; lg_Members := [] |}, c)
  else
    let key := username +:+ groupId in
    match groupManager c !! key with
    | None => Ret ({| lg_ErrorCode := INVALID_GROUP_ID; lg_Members := [] |}, c)
    | Some group => onGroup key group (leaveGroup ms) c
    end.

(** *** GetGroup and Heartbeat *)

Definition GetGroup (c : GroupCoordinatorStandalone)
    (username groupId : string) : Group + error :=
  match groupManager c !! (username +:+ groupId) with
  | Some group => inl group
  | None => inr (Errorf "invalid groupId")
  end.

Definition HandleHeartBeat (c : GroupCoordinatorStandalone)
    (username groupId memberId : string) : HeartbeatResp :=
  if bool_decide (groupId = "") then {| hb_ErrorCode := INVALID_GROUP_ID |}
  else
    match groupManager c !! (username +:+ groupId) with
    | None => {| hb_ErrorCode := REBALANCE_IN_PROGRESS |}
    | Some group =>
        match members group !! memberId with
        | None => {| hb_ErrorCode := REBALANCE_IN_PROGRESS |}
        | Some _ =>
            if bool_decide (groupStatus group = PreparingRebalance)
               || bool_decide (groupStatus group = CompletingRebalance)
               || bool_decide (groupStatus group = Dead)
            then {| hb_ErrorCode := REBALANCE_IN_PROGRESS |}
            else {| hb_ErrorCode := NONE |}
        end
    end.

End GroupCoordinator.

(** ** The broker's data plane *)

(** The backend messaging client and the helpers of [utils] and [constant]
    the handlers call; none of them is among the files at hand, so they are
    parameters of the model. *)
Class Backend : Type := {
  MessageID : Type;
  Message : Type;
  ID : Message → MessageID;
  Payload : Message → bytes;
  (** [utils.CalculateMsgLength] *)
  CalculateMsgLength : Message → Z;
  (** [convOffset(message, continuousOffset)] *)
  convOffset : Message → bool → Z;
  (** [ConvertMsgId] *)
  ConvertMsgId : MessageID → Z;
  (** [fmt.Sprintf(constant.PartitionSuffixFormat, partitionId)] *)
  PartitionSuffix : Z → string
}.

(** The application hooks ([b.server]) the three handlers consult.
    [HasFlowQuota] is asked once per iteration of the fetch loop and may
    answer differently each time; its answers are part of the loop's
    observations below. *)
Class Server : Type := {
  PulsarTopic : string → string → string + error
}.

(** The hooks of the integration test. *)
Definition ItKafsaImpl : Server :=
  {| PulsarTopic := λ username topic,
       inl ("persistent://public/default/" +:+ topic) |}.

Module Broker.

Import GroupCoordinator.

Record userInfo : Type := {
  username : string;
  ui_clientId : string
}.

Record MessageIdPair `{Backend} : Type := {
  MessageId : MessageID;
  Offset : Z
}.

(** The offset manager ([b.offsetManager]): an interface of the program
    whose implementation is not among the files at hand.  [CommitOffset]
    updates the manager's store and may fail. *)
Class OffsetManager `{Backend} : Type := {
  offsetStore : Type;
  CommitOffset :
    offsetStore → string → string → string → Z → MessageIdPair →
    error * offsetStore
}.

(** [ReaderMetadata]: the FIFO [messageIds] is a [container/list]; the
    backend reader itself is the environment's. *)
Record ReaderMetadata `{Backend} : Type := {
  rm_groupId : string;
  messageIds : list MessageIdPair
}.

Definition with_messageIds `{Backend} (ids : list MessageIdPair)
    (r : ReaderMetadata) : ReaderMetadata :=
  {| rm_groupId := rm_groupId r; messageIds := ids |}.

Record Broker `{Backend} `{!OffsetManager} : Type := {
  kafsarConfig : KafsarConfig;
  groupCoordinator : GroupCoordinatorStandalone;
  readerManager : gmap string ReaderMetadata;
  userInfoManager : gmap string userInfo;
  offsetManager : offsetStore;
  topicGroupManager : gmap string string;
  (** connection address to the topic its producer was created for *)
  producerManager : gmap string string
}.

(** The records of [codec] on the data plane. *)

Record OffsetCommitPartitionReq : Type := {
  ocr_PartitionId : Z;
  ocr_Offset : Z
}.

Record OffsetCommitPartitionResp : Type := {
  oc_PartitionId : Z;
  oc_ErrorCode : ErrorCode
}.

Record FetchPartitionReq : Type := {
  fpr_PartitionId : Z
}.

Record Record : Type := {
  Value : bytes;
  RelativeOffset : Z
}.

Record RecordBatch : Type := {
  rb_Offset : Z;
  Records : list Record
}.

Record FetchPartitionResp : Type := {
  fp_PartitionIndex : Z;
  fp_ErrorCode : ErrorCode;
  fp_LastStableOffset : Z;
  fp_LogStartOffset : Z;
  fp_RecordBatch : RecordBatch
}.

Record ProduceRecord : Type := {
  pr_Key : option bytes;
  pr_Value : bytes
}.

Record ProducePartitionReq : Type := {
  pr_Records : list ProduceRecord
}.

Record ProducePartitionResp : Type := {
  pp_ErrorCode : ErrorCode;
  pp_PartitionId : Z;
  pp_Offset : Z;
  pp_Time : Z;
  pp_LogStartOffset : Z
}.

(** The result of [reader.Next(ctx)]: a message, an error once the context's
    deadline has passed ([ctx.Err() != nil]), or an error before it. *)
Inductive ReadResult `{Backend} : Type :=
  | ReadMessage (message : Message)
  | ReadDeadline
  | ReadFailed.

(** The [break] a run of the read loop of [FetchPartition] leaves through. *)
Inductive FetchExit : Type :=
  | DeadlineElapsed
  | RecordCountReached
  | FlowQuotaDenied
  | MinBytesAfterWait
  | MaxBytesExceeded.

Section handlers.
Context `{backend : Backend} `{!OffsetManager} `{server : Server}.

Definition with_readerManager (rm : gmap string ReaderMetadata)
    (b : Broker) : Broker :=
  {| kafsarConfig := kafsarConfig b;
     groupCoordinator := groupCoordinator b;
     readerManager := rm; userInfoManager := userInfoManager b;
     offsetManager := offsetManager b;
     topicGroupManager := topicGroupManager b;
     producerManager := producerManager b |}.

Definition with_offsetManager (om : offsetStore) (b : Broker) : Broker :=
  {| kafsarConfig := kafsarConfig b;
     groupCoordinator := groupCoordinator b;
     readerManager := readerManager b;
     userInfoManager := userInfoManager b;
     offsetManager := om;
     topicGroupManager := topicGroupManager b;
     producerManager := producerManager b |}.

Definition with_producerManager (pm : gmap string string) (b : Broker)
  : Broker :=
  {| kafsarConfig := kafsarConfig b;
     groupCoordinator := groupCoordinator b;
     readerManager := readerManager b;
     userInfoManager := userInfoManager b;
     offsetManager := offsetManager b;
     topicGroupManager := topicGroupManager b;
     producerManager := pm |}.

(** [p.f] for a pointer [p]: a fault when [p] is nil. *)
Definition deref {A B} (p : option A) (f : A → B) : outcome B :=
  match p with
  | Some a => Ret (f a)
  | None => Panic
  end.

Definition partitionedTopic (user : userInfo) (kafkaTopic : string)
    (partitionId : Z) : string + error :=
  match PulsarTopic (username user) kafkaTopic with
  | inr err => inr err
  | inl pulsarTopic => inl (pulsarTopic +:+ PartitionSuffix partitionId)
  end.

(** *** OffsetCommit *)

Definition offsetCommitResp (partitionId : Z) (code : ErrorCode)
  : OffsetCommitPartitionResp :=
  {| oc_PartitionId := partitionId; oc_ErrorCode := code |}.

(** The walk over the FIFO of [OffsetCommitPartition], [for i := 0;
    i < length; i++], from iteration [i] on; [fuel] is [length - i].
    The result is the error code the handler goes on to return, the
    offset manager's store and what is left of the FIFO. *)
Fixpoint commitWalk (fuel : nat) (i length : Z)
    (user : userInfo) (kafkaTopic groupId : string) (partitionId : Z)
    (reqOffset : Z) (om : offsetStore) (ids : list MessageIdPair)
  : ErrorCode * offsetStore * list MessageIdPair :=
  match fuel with
  | O => (NONE, om, ids)
  | S fuel' =>
      match ids with
      | [] => (NONE, om, ids)
      | messageIdPair :: rest =>
          if (Offset messageIdPair =? reqOffset)
             || ((Offset messageIdPair <? reqOffset) && (i =? length - 1))
          then
            let r := CommitOffset om (username user) kafkaTopic groupId
                       partitionId messageIdPair in
            match r.1 with
            | Some _ => (UNKNOWN_SERVER_ERROR, r.2, ids)
            | None => (NONE, r.2, rest)
            end
          else if Offset messageIdPair >? reqOffset then (NONE, om, ids)
          else
            commitWalk fuel' (i + 1) length user kafkaTopic groupId
              partitionId reqOffset om rest
      end
  end.

Definition OffsetCommitPartition (b : Broker) (addr : string)
    (kafkaTopic clientID : string) (req : OffsetCommitPartitionReq)
  : OffsetCommitPartitionResp * Broker :=
  match userInfoManager b !! addr with
  | None => (offsetCommitResp (ocr_PartitionId req) UNKNOWN_SERVER_ERROR, b)
  | Some user =>
      match partitionedTopic user kafkaTopic (ocr_PartitionId req) with
      | inr _ =>
          (offsetCommitResp (ocr_PartitionId req) UNKNOWN_SERVER_ERROR, b)
      | inl partitionedTopic =>
          match readerManager b !! (partitionedTopic +:+ clientID) with
          | None =>
              match topicGroupManager b !! partitionedTopic with
              | Some groupId =>
                  match GetGroup (groupCoordinator b) (username user)
                          groupId with
                  | inl group =>
                      if negb (bool_decide (groupStatus group = Stable))
                      then (offsetCommitResp 0 REBALANCE_IN_PROGRESS, b)
                      else (offsetCommitResp 0 REBALANCE_IN_PROGRESS, b)
                  | inr _ => (offsetCommitResp 0 REBALANCE_IN_PROGRESS, b)
                  end
              | None => (offsetCommitResp 0 REBALANCE_IN_PROGRESS, b)
              end
          | Some readerMessages =>
              let length := List.length (messageIds readerMessages) in
              let r := commitWalk length 0 (Z.of_nat length) user
                         kafkaTopic (rm_groupId readerMessages)
                         (ocr_PartitionId req) (ocr_Offset req)
                         (offsetManager b) (messageIds readerMessages) in
              (offsetCommitResp (ocr_PartitionId req) r.1.1,
               with_offsetManager r.1.2
                 (with_readerManager
                    (<[partitionedTopic +:+ clientID :=
                         with_messageIds r.2 readerMessages]>
                       (readerManager b)) b))
          end
      end
  end.

(** *** Fetch *)

(** What one iteration of the read loop observes of its environment, in
    the order the iteration asks for it. *)
Record FetchTick : Type := {
  (** [time.Since(start).Milliseconds()] in the loop guard *)
  elapsedAtGuard : Z;
  (** [b.server.HasFlowQuota(user.username, partitionedTopic)] *)
  flowControl : bool;
  (** [readerMetadata.reader.Next(ctx)] *)
  next : ReadResult;
  (** [time.Since(start).Milliseconds()] in the [MinFetchWaitMs] check *)
  elapsedAfterRead : Z
}.

Record FetchState : Type := {
  byteLength : Z;
  baseOffset : Z;
  fistMessage : bool;
  records : list Record;
  pending : list MessageIdPair
}.

(** The body of the loop below the read: the message is added to the
    batch and pushed on the FIFO. *)
Definition accept (cfg : KafsarConfig) (message : Message)
    (st : FetchState) : FetchState :=
  let byteLength := byteLength st + CalculateMsgLength message in
  let offset := convOffset message (ContinuousOffset cfg) in
  let baseOffset := if fistMessage st then offset else baseOffset st in
  let relativeOffset := offset - baseOffset in
  {| byteLength := byteLength;
     baseOffset := baseOffset;
     fistMessage := false;
     records := records st ++
       [{| Value := Payload message; RelativeOffset := relativeOffset |}];
     pending := pending st ++
       [{| MessageId := ID message; Offset := offset |}] |}.

(** The read loop of [FetchPartition].  It returns the state it leaves
    the loop with and, for the proofs, the [break] it left through;
    [None] when the observations end before the loop does. *)
Fixpoint fetchLoop (cfg : KafsarConfig) (maxBytes minBytes maxWaitMs : Z)
    (ticks : list FetchTick) (st : FetchState)
  : option (FetchExit * FetchState) :=
  match ticks with
  | [] => None
  | t :: ticks' =>
      if elapsedAtGuard t >=? maxWaitMs then Some (DeadlineElapsed, st)
      else if Z.of_nat (length (records st)) >=? MaxFetchRecord cfg then
        Some (RecordCountReached, st)
      else if negb (flowControl t) then Some (FlowQuotaDenied, st)
      else
        match next t with
        | ReadDeadline => Some (DeadlineElapsed, st)
        | ReadFailed =>
            fetchLoop cfg maxBytes minBytes maxWaitMs ticks' st
        | ReadMessage message =>
            let st' := accept cfg message st in
            if (byteLength st' >? minBytes)
               && (elapsedAfterRead t >=? MinFetchWaitMs cfg) then
              Some (MinBytesAfterWait, st')
            else if byteLength st' >? maxBytes then
              Some (MaxBytesExceeded, st')
            else fetchLoop cfg maxBytes minBytes maxWaitMs ticks' st'
        end
  end.

Definition fetchResp (partitionId : Z) (code : ErrorCode)
    (batchOffset : Z) (rs : list Record) : FetchPartitionResp :=
  {| fp_PartitionIndex := partitionId; fp_ErrorCode := code;
     fp_LastStableOffset := 0; fp_LogStartOffset := 0;
     fp_RecordBatch := {| rb_Offset := batchOffset; Records := rs |} |}.

Definition FetchPartition (ticks : list FetchTick) (b : Broker)
    (addr : string) (kafkaTopic clientID : string)
    (req : FetchPartitionReq) (maxBytes minBytes maxWaitMs : Z)
  : option (FetchPartitionResp * Broker) :=
  match userInfoManager b !! addr with
  | None =>
      Some (fetchResp (fpr_PartitionId req) UNKNOWN_SERVER_ERROR 0 [], b)
  | Some user =>
      match partitionedTopic user kafkaTopic (fpr_PartitionId req) with
      | inr _ =>
          Some (fetchResp (fpr_PartitionId req) UNKNOWN_SERVER_ERROR 0 [],
                b)
      | inl partitionedTopic =>
          match readerManager b !! (partitionedTopic +:+ clientID) with
          | None =>
              match topicGroupManager b !! partitionedTopic with
              | Some groupId =>
                  match GetGroup (groupCoordinator b) (username user)
                          groupId with
                  | inl group =>
                      if negb (bool_decide (groupStatus group = Stable))
                      then
                        Some (fetchResp (fpr_PartitionId req) NONE 0 [], b)
                      else
                        Some (fetchResp (fpr_PartitionId req) NONE 0 [], b)
                  | inr _ =>
                      Some (fetchResp (fpr_PartitionId req) NONE 0 [], b)
                  end
              | None => Some (fetchResp (fpr_PartitionId req) NONE 0 [], b)
              end
          | Some readerMetadata =>
              match fetchLoop (kafsarConfig b) maxBytes minBytes maxWaitMs
                      ticks
                      {| byteLength := 0; baseOffset := 0;
                         fistMessage := true; records := [];
                         pending := messageIds readerMetadata |} with
              | None => None
              | Some (_, st) =>
                  Some (fetchResp (fpr_PartitionId req) NONE
                          (baseOffset st) (records st),
                        with_readerManager
                          (<[partitionedTopic +:+ clientID :=
                               with_messageIds (pending st)
                                 readerMetadata]> (readerManager b)) b)
              end
          end
      end
  end.

(** *** Produce *)

(** What [Produce] observes of the backend: whether creating a producer
    fails, and the message ids the send callbacks are run with, in the
    order the callbacks run (one callback per record sent). *)
Record ProduceEnv : Type := {
  createProducer : error;
  acks : list MessageID
}.

Definition getProducer (env : ProduceEnv) (b : Broker) (addr : string)
    (username topic : string) : (string + error) * Broker :=
  match PulsarTopic username topic with
  | inr err => (inr err, b)
  | inl pulsarTopic =>
      match producerManager b !! addr with
      | Some producer => (inl producer, b)
      | None =>
          match createProducer env with
          | Some err => (inr (Some err), b)
          | None =>
              (inl pulsarTopic,
               with_producerManager
                 (<[addr := pulsarTopic]> (producerManager b)) b)
          end
      end
  end.

Definition produceErrorResp (code : ErrorCode) : ProducePartitionResp :=
  {| pp_ErrorCode := code; pp_PartitionId := 0; pp_Offset := 0;
     pp_Time := 0; pp_LogStartOffset := 0 |}.

(** The callbacks count the sends; the one that brings the count to
    [len(batch)] stores the offset of its message id and releases the
    handler, which otherwise waits on [producerChan]. *)
Definition awaitSends (batch : list ProduceRecord) (acks : list MessageID)
  : outcome Z :=
  match batch, last (take (length batch) acks) with
  | _ :: _, Some id =>
      if bool_decide (length batch ≤ length acks)%nat
      then Ret (ConvertMsgId id) else Hang
  | _, _ => Hang
  end.

Definition Produce (env : ProduceEnv) (b : Broker) (addr : string)
    (kafkaTopic : string) (partition : Z) (req : ProducePartitionReq)
  : outcome (ProducePartitionResp * Broker) :=
  let user := userInfoManager b !! addr in
  let exist := bool_decide (is_Some user) in
  if negb exist then
    (* logrus.Errorf("user not exist. username: %s, ...", user.username, ...) *)
    match deref user username with
    | Ret _ => Ret (produceErrorResp TOPIC_AUTHORIZATION_FAILED, b)
    | Panic => Panic
    | Hang => Hang
    end
  else
    match deref user username with
    | Ret name =>
        match getProducer env b addr name kafkaTopic with
        | (inr _, b') =>
            Ret (produceErrorResp TOPIC_AUTHORIZATION_FAILED, b')
        | (inl producer, b') =>
            match awaitSends (pr_Records req) (acks env) with
            | Ret offset =>
                Ret ({| pp_ErrorCode := NONE; pp_PartitionId := partition;
                        pp_Offset := offset; pp_Time := -1;
                        pp_LogStartOffset := 0 |}, b')
            | Panic => Panic
            | Hang => Hang
            end
        end
    | Panic => Panic
    | Hang => Hang
    end.

End handlers.

End Broker.

(** ** Calls that overlap: HandleLeaveGroup, one access to the group at a
       time *)

(** Handlers of different connections run in parallel on the same [*Group].
    [HandleLeaveGroup] takes each lock for one access only, so between any
    two of its accesses to the group another call may run.  This module
    gives the handler from the lookup of the group on as a machine that
    does one access per step, and lets the environment choose which of the
    calls in flight does the next step. *)

Module Overlap.

Import codec GroupCoordinator.

(** The point a call has reached: each is the access to the group the call
    does next. *)
Inductive LeavePoint : Type :=
  (** [members[i].MemberId == g.getMemberLeader(group)] *)
  | AtLeader (m : LeaveGroupMember) (rest : list LeaveGroupMember)
  (** [g.setMemberLeader(group, "")] *)
  | AtClearLeader (m : LeaveGroupMember) (rest : list LeaveGroupMember)
  (** [g.deleteMember(group, members[i].MemberId)] *)
  | AtDelete (m : LeaveGroupMember) (rest : list LeaveGroupMember)
  (** [group.generationId++] under [groupLock] *)
  | AtGeneration
  (** [len(group.members) == 0] *)
  | AtCount
  (** [g.setGroupStatus(group, Empty)] or
      [g.setGroupStatus(group, PreparingRebalance)], by the count read *)
  | AtStatus (count : nat)
  (** the call has returned *)
  | Returned.

(** The head of the loop [for i := range members]. *)
Definition enter (ms : list LeaveGroupMember) : LeavePoint :=
  match ms with
  | [] => AtGeneration
  | m :: rest => AtLeader m rest
  end.

(** One access. *)
Definition leaveStep (p : LeavePoint) (g : Group) : LeavePoint * Group :=
  match p with
  | AtLeader m rest =>
      if bool_decide (lgm_MemberId m = leader g)
      then (AtClearLeader m rest, g) else (AtDelete m rest, g)
  | AtClearLeader m rest => (AtDelete m rest, with_leader "" g)
  | AtDelete m rest =>
      (enter rest, with_members (delete (lgm_MemberId m) (members g)) g)
  | AtGeneration => (AtCount, with_generationId (generationId g + 1) g)
  | AtCount => (AtStatus (size (members g)), g)
  | AtStatus count =>
      (Returned,
       with_groupStatus
         (if bool_decide (count = 0%nat) then Empty else PreparingRebalance)
         g)
  | Returned => (Returned, g)
  end.

(** A call on its own: [n] steps of the same call. *)
Fixpoint leaveSteps (n : nat) (p : LeavePoint) (g : Group)
  : LeavePoint * Group :=
  match n with
  | O => (p, g)
  | S n' => let r := leaveStep p g in leaveSteps n' r.1 r.2
  end.

(** Calls in flight on one group: at each step the schedule names the call
    that moves. *)
Fixpoint overlap (schedule : list nat) (calls : list LeavePoint) (g : Group)
  : list LeavePoint * Group :=
  match schedule with
  | [] => (calls, g)
  | i :: schedule' =>
      match calls !! i with
      | None => overlap schedule' calls g
      | Some p =>
          let r := leaveStep p g in
          overlap schedule' (<[i := r.1]> calls) r.2
      end
  end.

End Overlap.

(** ** The broker's connections: authentication, group sessions, readers *)

(** The hooks of [b.server] the session handlers consult beside
    [PulsarTopic]. *)
Class ServerAuth : Type := {
  Auth : string → string → string → bool * error;
  SubscriptionName : string → string + error
}.

(** The hooks of the integration test. *)
Definition ItKafsaAuth : ServerAuth :=
  {| Auth := λ username password clientId, (true, None);
     SubscriptionName := λ groupId, inl groupId |}.

(** [constant.UnknownOffset] and [strings.EqualFold], which are not among
    the files at hand. *)
Class Library : Type := {
  UnknownOffset : Z;
  EqualFold : string → string → bool
}.

Module Session.

(** The field of [Group] that shares its name with a method of the broker. *)
Local Abbreviation fieldPartitionedTopic := partitionedTopic.

Import codec GroupCoordinator Broker.

Record MemberInfo : Type := {
  mi_memberId : string;
  mi_groupId : string;
  groupInstanceId : option string;
  mi_clientId : string
}.

(** The requests and responses of [codec] the session handlers read and
    build. *)

Record SaslAuthenticateReq : Type := {
  sa_Username : string;
  sa_Password : string;
  sa_ClientId : string
}.

Record JoinGroupReq : Type := {
  jr_ClientId : string;
  jr_GroupId : string;
  jr_MemberId : string;
  jr_GroupInstanceId : option string;
  jr_ProtocolType : string;
  jr_SessionTimeout : Z;
  jr_GroupProtocols : list GroupProtocol
}.

Record LeaveGroupReq : Type := {
  lr_ClientId : string;
  lr_GroupId : string;
  lr_Members : list LeaveGroupMember
}.

Record HeartbeatReq : Type := {
  hr_ClientId : string;
  hr_GroupId : string;
  hr_MemberId : string
}.

Record OffsetFetchPartitionReq : Type := {
  ofr_PartitionId : Z
}.

Record OffsetFetchPartitionResp : Type := {
  of_ErrorCode : ErrorCode;
  of_PartitionId : Z;
  of_Offset : Z;
  of_LeaderEpoch : Z;
  of_Metadata : option string
}.

(** [b.offsetManager.AcquireOffset]: the committed pair, if there is one. *)
Class OffsetLookup `{Backend} `{!OffsetManager} : Type := {
  AcquireOffset :
    offsetStore → string → string → string → Z → MessageIdPair * bool
}.

(** What [createReader] observes of the backend: whether [pulsar.NewClient]
    and [client.CreateReader] fail. *)
Record ReaderEnv : Type := {
  newClient : error;
  newReader : error
}.

(** The [Broker] with its two remaining maps: the member a connection has
    joined as, and the backend clients of the readers (their keys). *)
Record Kafsar `{Backend} `{!OffsetManager} : Type := {
  broker : Broker;
  memberManager : gmap string MemberInfo;
  pulsarClientManage : gset string
}.

Section handlers.
Context `{backend : Backend} `{!OffsetManager} `{!OffsetLookup}
  `{server : Server} `{auth : ServerAuth} `{library : Library}.

Definition with_broker (b : Broker) (k : Kafsar) : Kafsar :=
  {| broker := b; memberManager := memberManager k;
     pulsarClientManage := pulsarClientManage k |}.

Definition with_memberManager (mm : gmap string MemberInfo) (k : Kafsar)
  : Kafsar :=
  {| broker := broker k; memberManager := mm;
     pulsarClientManage := pulsarClientManage k |}.

Definition with_pulsarClientManage (cm : gset string) (k : Kafsar)
  : Kafsar :=
  {| broker := broker k; memberManager := memberManager k;
     pulsarClientManage := cm |}.

Definition with_userInfoManager (um : gmap string userInfo) (b : Broker)
  : Broker :=
  {| kafsarConfig := kafsarConfig b;
     groupCoordinator := groupCoordinator b;
     readerManager := readerManager b;
     userInfoManager := um;
     offsetManager := offsetManager b;
     topicGroupManager := topicGroupManager b;
     producerManager := producerManager b |}.

Definition with_topicGroupManager (tg : gmap string string) (b : Broker)
  : Broker :=
  {| kafsarConfig := kafsarConfig b;
     groupCoordinator := groupCoordinator b;
     readerManager := readerManager b;
     userInfoManager := userInfoManager b;
     offsetManager := offsetManager b;
     topicGroupManager := tg;
     producerManager := producerManager b |}.

Definition with_groupCoordinator (c : GroupCoordinatorStandalone)
    (b : Broker) : Broker :=
  {| kafsarConfig := kafsarConfig b;
     groupCoordinator := c;
     readerManager := readerManager b;
     userInfoManager := userInfoManager b;
     offsetManager := offsetManager b;
     topicGroupManager := topicGroupManager b;
     producerManager := producerManager b |}.

(** *** SaslAuth *)

Definition SaslAuth (k : Kafsar) (addr : string) (req : SaslAuthenticateReq)
  : bool * ErrorCode * Kafsar :=
  let r := Auth (sa_Username req) (sa_Password req) (sa_ClientId req) in
  if bool_decide (r.2 ≠ None) || negb r.1 then
    (false, SASL_AUTHENTICATION_FAILED, k)
  else
    match userInfoManager (broker k) !! addr with
    | Some _ => (true, NONE, k)
    | None =>
        (true, NONE,
         with_broker
           (with_userInfoManager
              (<[addr := {| username := sa_Username req;
                            ui_clientId := sa_ClientId req |}]>
                 (userInfoManager (broker k))) (broker k)) k)
    end.

(** *** GroupJoin *)

(** [HandleJoinGroup] returns a nil error on every path, so the branch of
    [GroupJoin] for a failed call is never taken. *)
Definition GroupJoin (env : Env) (k : Kafsar) (addr : string)
    (req : JoinGroupReq) : outcome (JoinGroupResp * Kafsar) :=
  match userInfoManager (broker k) !! addr with
  | None =>
      Ret ({| jg_ErrorCode := UNKNOWN_SERVER_ERROR; jg_GenerationId := -1;
              jg_ProtocolType := None; jg_ProtocolName := "";
              jg_LeaderId := ""; jg_MemberId := jr_MemberId req;
              jg_Members := [] |}, k)
  | Some user =>
      match HandleJoinGroup env (groupCoordinator (broker k))
              (username user) (jr_GroupId req) (jr_MemberId req)
              (jr_ClientId req) (jr_ProtocolType req)
              (jr_SessionTimeout req) (jr_GroupProtocols req) with
      | Ret (joinGroupResp, c) =>
          let memberInfo :=
            {| mi_memberId := jg_MemberId joinGroupResp;
               mi_groupId := jr_GroupId req;
               groupInstanceId := jr_GroupInstanceId req;
               mi_clientId := jr_ClientId req |} in
          Ret (joinGroupResp,
               with_memberManager (<[addr := memberInfo]> (memberManager k))
                 (with_broker (with_groupCoordinator c (broker k)) k))
      | Panic => Panic
      | Hang => Hang
      end
  end.

(** *** GroupLeave *)

(** One round of the loop over [group.partitionedTopic]: the reader and the
    backend client of (topic, client id) are closed and forgotten; the loop
    of [GroupLeave] forgets the group of the topic as well. *)
Definition closeReader (clientId : string) (k : Kafsar) (topic : string)
  : Kafsar :=
  with_pulsarClientManage (pulsarClientManage k ∖ {[topic +:+ clientId]})
    (with_broker
       (with_readerManager
          (delete (topic +:+ clientId) (readerManager (broker k)))
          (broker k)) k).

Definition leaveTopic (clientId : string) (k : Kafsar) (topic : string)
  : Kafsar :=
  let k := closeReader clientId k topic in
  with_broker
    (with_topicGroupManager (delete topic (topicGroupManager (broker k)))
       (broker k)) k.

Definition GroupLeave (k : Kafsar) (addr : string) (req : LeaveGroupReq)
  : outcome (LeaveGroupResp * Kafsar) :=
  match userInfoManager (broker k) !! addr with
  | None => Ret ({| lg_ErrorCode := UNKNOWN_SERVER_ERROR; lg_Members := [] |},
                 k)
  | Some user =>
      match HandleLeaveGroup (groupCoordinator (broker k)) (username user)
              (lr_GroupId req) (lr_Members req) with
      | Ret (leaveGroupResp, c) =>
          let k := with_broker (with_groupCoordinator c (broker k)) k in
          match GetGroup c (username user) (lr_GroupId req) with
          | inr _ =>
              Ret ({| lg_ErrorCode := UNKNOWN_SERVER_ERROR;
                      lg_Members := [] |}, k)
          | inl group =>
              Ret (leaveGroupResp,
                   fold_left (leaveTopic (lr_ClientId req))
                     (fieldPartitionedTopic group) k)
          end
      | Panic => Panic
      | Hang => Hang
      end
  end.

(** *** HeartBeat *)

Definition HeartBeat (k : Kafsar) (addr : string) (req : HeartbeatReq)
  : HeartbeatResp * Kafsar :=
  match userInfoManager (broker k) !! addr with
  | None => ({| hb_ErrorCode := UNKNOWN_SERVER_ERROR |}, k)
  | Some user =>
      let resp := HandleHeartBeat (groupCoordinator (broker k))
                    (username user) (hr_GroupId req) (hr_MemberId req) in
      if bool_decide (hb_ErrorCode resp = REBALANCE_IN_PROGRESS) then
        match GetGroup (groupCoordinator (broker k)) (username user)
                (hr_GroupId req) with
        | inr _ => (resp, k)
        | inl group =>
            (resp,
             fold_left (closeReader (hr_ClientId req))
               (fieldPartitionedTopic group) k)
        end
      else (resp, k)
  end.

(** *** Disconnect *)

(** [addr] is [None] for a nil [net.Addr]. *)
Definition Disconnect (k : Kafsar) (addr : option string) : outcome Kafsar :=
  match addr with
  | None => Ret k
  | Some addr =>
      let memberInfo := memberManager k !! addr in
      let producer := producerManager (broker k) !! addr in
      let k :=
        match producer with
        | Some _ =>
            with_broker
              (with_producerManager
                 (delete addr (producerManager (broker k))) (broker k)) k
        | None => k
        end in
      match memberInfo with
      | None =>
          Ret (with_broker
                 (with_userInfoManager
                    (delete addr (userInfoManager (broker k))) (broker k)) k)
      | Some memberInfo =>
          let req :=
            {| lr_ClientId := mi_clientId memberInfo;
               lr_GroupId := mi_groupId memberInfo;
               lr_Members :=
                 [{| lgm_MemberId := mi_memberId memberInfo;
                     lgm_GroupInstanceId := groupInstanceId memberInfo |}]
            |} in
          match GroupLeave k addr req with
          | Ret (_, k) =>
              Ret (with_broker
                     (with_userInfoManager
                        (delete addr (userInfoManager (broker k)))
                        (broker k)) k)
          | Panic => Panic
          | Hang => Hang
          end
      end
  end.

(** *** OffsetFetch *)

Definition createReader (env : ReaderEnv) (k : Kafsar)
    (partitionedTopic clientId : string) : error * Kafsar :=
  let key := partitionedTopic +:+ clientId in
  let created :=
    if bool_decide (key ∈ pulsarClientManage k) then inl k
    else match newClient env with
         | Some err => inr (Some err)
         | None =>
             inl (with_pulsarClientManage ({[key]} ∪ pulsarClientManage k) k)
         end in
  match created with
  | inr err => (err, k)
  | inl k => (newReader env, k)
  end.

Definition checkPartitionTopicExist (topics : list string)
    (partitionTopic : string) : bool :=
  existsb (λ topic, EqualFold topic partitionTopic) topics.

Definition offsetFetchError : OffsetFetchPartitionResp :=
  {| of_ErrorCode := UNKNOWN_SERVER_ERROR; of_PartitionId := 0;
     of_Offset := 0; of_LeaderEpoch := 0; of_Metadata := None |}.

Definition OffsetFetch (env : ReaderEnv) (k : Kafsar) (addr : string)
    (topic clientID groupID : string) (req : OffsetFetchPartitionReq)
  : OffsetFetchPartitionResp * Kafsar :=
  match userInfoManager (broker k) !! addr with
  | None => (offsetFetchError, k)
  | Some user =>
      match partitionedTopic user topic (ofr_PartitionId req) with
      | inr _ => (offsetFetchError, k)
      | inl partitionedTopic =>
          match SubscriptionName groupID with
          | inr _ => (offsetFetchError, k)
          | inl subscriptionName =>
              let acquired :=
                AcquireOffset (offsetManager (broker k)) (username user)
                  topic groupID (ofr_PartitionId req) in
              let kafkaOffset :=
                if acquired.2 then Offset acquired.1 else UnknownOffset in
              let key := partitionedTopic +:+ clientID in
              let r :=
                match readerManager (broker k) !! key with
                | Some _ => (None, k)
                | None =>
                    let r := createReader env k partitionedTopic clientID in
                    match r.1 with
                    | Some err => (Some err, r.2)
                    | None =>
                        (None,
                         with_broker
                           (with_readerManager
                              (<[key := {| rm_groupId := groupID;
                                           messageIds := [] |}]>
                                 (readerManager (broker r.2)))
                              (broker r.2)) r.2)
                    end
                end in
              match r.1 with
              | Some _ => (offsetFetchError, r.2)
              | None =>
                  let k := r.2 in
                  let c := groupCoordinator (broker k) in
                  match GetGroup c (username user) groupID with
                  | inr _ => (offsetFetchError, k)
                  | inl group =>
                      let group :=
                        if negb (checkPartitionTopicExist
                                   (fieldPartitionedTopic group)
                                   partitionedTopic)
                        then with_partitionedTopic
                               (fieldPartitionedTopic group
                                  ++ [partitionedTopic])%list group
                        else group in
                      let c :=
                        with_groupManager
                          (<[username user +:+ groupID := group]>
                             (groupManager c)) c in
                      ({| of_ErrorCode := NONE;
                          of_PartitionId := ofr_PartitionId req;
                          of_Offset := kafkaOffset;
                          of_LeaderEpoch := -1;
                          of_Metadata := None |},
                       with_broker
                         (with_topicGroupManager
                            (<[partitionedTopic := groupId group]>
                               (topicGroupManager (broker k)))
                            (with_groupCoordinator c (broker k))) k)
                  end
              end
          end
      end
  end.

End handlers.

End Session.

(** ** Reasoning about the coordinator: calls, runs and postconditions *)

Module CoordinatorSpec.

Import GroupCoordinator.

(** [post m Q g]: when [m] returns from [g], its result and final group
    satisfy [Q]. *)
Definition post {A} (m : M A) (Q : A → Group → Prop) (g : Group) : Prop :=
  match m g with
  | Ret (a, g') => Q a g'
  | Panic => True
  | Hang => True
  end.

(** The four operations of the coordinator, with the environment of the
    call where the handler polls or draws an identifier. *)
Inductive Call : Type :=
  | JoinGroup (env : Env)
      (username groupId memberId clientId protocolType : string)
      (sessionTimeoutMs : Z) (protocols : list GroupProtocol)
  | SyncGroup (env : Env) (username groupId memberId : string)
      (generation : Z) (groupAssignments : list GroupAssignment)
  | Heartbeat (username groupId memberId : string)
  | LeaveGroup (username groupId : string) (ms : list LeaveGroupMember).

(** The coordinator a call leaves behind. *)
Definition handle (c : GroupCoordinatorStandalone) (call : Call)
  : outcome GroupCoordinatorStandalone :=
  match call with
  | JoinGroup env username groupId memberId clientId protocolType
      sessionTimeoutMs protocols =>
      match HandleJoinGroup env c username groupId memberId clientId
              protocolType sessionTimeoutMs protocols with
      | Ret (_, c') => Ret c'
      | Panic => Panic
      | Hang => Hang
      end
  | SyncGroup env username groupId memberId generation groupAssignments =>
      match HandleSyncGroup env c username groupId memberId generation
              groupAssignments with
      | Ret (_, c') => Ret c'
      | Panic => Panic
      | Hang => Hang
      end
  | Heartbeat username groupId memberId =>
      let _ := HandleHeartBeat c username groupId memberId in Ret c
  | LeaveGroup username groupId ms =>
      match HandleLeaveGroup c username groupId ms with
      | Ret (_, c') => Ret c'
      | Panic => Panic
      | Hang => Hang
      end
  end.

(** A sequence of calls, one after the other. *)
Fixpoint run (c : GroupCoordinatorStandalone) (calls : list Call)
  : outcome GroupCoordinatorStandalone :=
  match calls with
  | [] => Ret c
  | call :: rest =>
      match handle c call with
      | Ret c' => run c' rest
      | Panic => Panic
      | Hang => Hang
      end
  end.

(** The coordinators a sequence of calls reaches from a fresh one. *)
Definition reachable (c : GroupCoordinatorStandalone) : Prop :=
  ∃ cfg calls, run (NewGroupCoordinatorStandalone cfg) calls = Ret c.

(** The identifier a JoinGroup call draws is not yet a member id of the
    group it joins. *)
Definition freshUuid (c : GroupCoordinatorStandalone) (call : Call) : Prop :=
  match call with
  | JoinGroup env username groupId memberId clientId _ _ _ =>
      ∀ group, groupManager c !! (username +:+ groupId) = Some group →
               members group !! (clientId +:+ "-" +:+ uuid env) = None
  | _ => True
  end.

(** Runs in which every identifier drawn is fresh. *)
Inductive freshRun : GroupCoordinatorStandalone → list Call →
                     GroupCoordinatorStandalone → Prop :=
  | freshRun_nil c : freshRun c [] c
  | freshRun_cons c call c' calls c'' :
      freshUuid c call →
      handle c call = Ret c' →
      freshRun c' calls c'' →
      freshRun c (call :: calls) c''.

(** The invariant of the data model: a group without members is Empty or
    Dead. *)
Definition emptyMeansEmpty (g : Group) : Prop :=
  members g = ∅ → groupStatus g = Empty ∨ groupStatus g = Dead.


(** The ids a LeaveGroup request lists. *)
Definition leaving (ms : list LeaveGroupMember) : list string :=
  lgm_MemberId <$> ms.

(** *** Concrete groups and calls for the examples *)

Definition cfg0 : KafsarConfig :=
  {| GroupMinSessionTimeoutMs := 6000; GroupMaxSessionTimeoutMs := 30000;
     MaxConsumersPerGroup := 0; RebalanceTickMs := 50;
     InitialDelayedJoinMs := 500; MaxFetchRecord := 2; MinFetchWaitMs := 10;
     MaxFetchWaitMs := 500; ContinuousOffset := false |}.

Definition env0 (id : string) : Env :=
  {| uuid := id; newMemberTicks := 3; rebalanceTicks := 3; joinTicks := 3;
     syncTicks := 3 |}.

Definition range : list GroupProtocol :=
  [{| ProtocolName := "range"; ProtocolMetadata := [] |}].

(** One consumer joins the group ["g"] of user ["alice"] and, as its
    leader, syncs: the group is Stable in generation 1. *)
Definition stableCalls : list Call :=
  [JoinGroup (env0 "u1") "alice" "g" "" "c" "consumer" 10000 range;
   SyncGroup (env0 "") "alice" "g" "c-u1" 1
     [{| ga_MemberId := "c-u1"; MemberAssignment := [] |}]].

Definition joined : GroupCoordinatorStandalone :=
  match run (NewGroupCoordinatorStandalone cfg0) (take 1 stableCalls) with
  | Ret c => c
  | _ => NewGroupCoordinatorStandalone cfg0
  end.

Definition stable : GroupCoordinatorStandalone :=
  match run (NewGroupCoordinatorStandalone cfg0) stableCalls with
  | Ret c => c
  | _ => NewGroupCoordinatorStandalone cfg0
  end.

(** The consumer leaves again. *)
Definition leaveAll : Call :=
  LeaveGroup "alice" "g"
    [{| lgm_MemberId := "c-u1"; lgm_GroupInstanceId := None |}].

Definition vacated : GroupCoordinatorStandalone :=
  match run (NewGroupCoordinatorStandalone cfg0)
          (stableCalls ++ [leaveAll]) with
  | Ret c => c
  | _ => NewGroupCoordinatorStandalone cfg0
  end.

(** The group ["g"] of user ["alice"] in a coordinator. *)
Definition groupOfAlice (c : GroupCoordinatorStandalone) : Group :=
  default (newGroup "" "" 0) (groupManager c !! "aliceg").

(** The member ["c-u1"] of that group. *)
Definition memberOfAlice (c : GroupCoordinatorStandalone) : memberMetadata :=
  default
    {| clientId := ""; memberId := ""; metadata := []; assignment := [];
       mm_protocolType := ""; protocols := ∅; joinGenerationId := 0;
       syncGenerationId := 0 |}
    (members (groupOfAlice c) !! "c-u1").

Definition leaveResp (code : ErrorCode) (ms : list LeaveGroupMember)
  : LeaveGroupResp :=
  {| lg_ErrorCode := code; lg_Members := ms |}.

(** A second consumer joins the Stable group under an id of its own
    choosing that the group does not know. *)
Definition ghostJoin
  : outcome (JoinGroupResp * GroupCoordinatorStandalone) :=
  HandleJoinGroup (env0 "u2") stable "alice" "g" "ghost" "c2" "consumer"
    10000 range.

(** The same consumer joins with the empty member id. *)
Definition anonymousJoin
  : outcome (JoinGroupResp * GroupCoordinatorStandalone) :=
  HandleJoinGroup (env0 "u2") stable "alice" "g" "" "c2" "consumer"
    10000 range.

(** The coordinator an outcome carries, if it carries one. *)
Definition after {A} (r : outcome (A * GroupCoordinatorStandalone))
  : GroupCoordinatorStandalone :=
  match r with
  | Ret (_, c) => c
  | _ => NewGroupCoordinatorStandalone cfg0
  end.

End CoordinatorSpec.

(** ** Reasoning about the data plane *)

Module BrokerSpec.

Import Broker.

Section spec.
Context `{backend : Backend} `{!OffsetManager} `{server : Server}.

(** *** OffsetCommit, in the words of the specification *)

(** Walk the FIFO from the head for the target offset [O]: entries below the
    target that are not the last are dropped; the first entry at the target,
    or below it and last, is the one to persist; the walk stops at the first
    entry above the target.  The result is the entry to persist, if any, and
    the FIFO without the dropped entries and without that entry. *)
Fixpoint commitUpTo (O : Z) (ids : list MessageIdPair)
  : option MessageIdPair * list MessageIdPair :=
  match ids with
  | [] => (None, [])
  | p :: rest =>
      if Offset p =? O then (Some p, rest)
      else if Offset p <? O then
        match rest with
        | [] => (Some p, [])
        | _ :: _ => commitUpTo O rest
        end
      else (None, p :: rest)
  end.

(** The broker after an OffsetCommit on the reader stored under [key]. *)
Definition afterCommit (b : Broker) (key : string) (reader : ReaderMetadata)
    (om : offsetStore) (ids : list MessageIdPair) : Broker :=
  with_offsetManager om
    (with_readerManager
       (<[key := with_messageIds ids reader]> (readerManager b)) b).

(** *** Fetch, in the words of the specification *)

Section fetch.
Variables (cfg : KafsarConfig) (maxBytes minBytes maxWaitMs : Z).

(** The five exit conditions. *)
Definition recordCountReached (st : FetchState) : Prop :=
  MaxFetchRecord cfg ≤ Z.of_nat (length (records st)).

Definition maxBytesExceeded (st : FetchState) : Prop :=
  maxBytes < byteLength st.

Definition minBytesAfterWait (st : FetchState) (elapsed : Z) : Prop :=
  minBytes < byteLength st ∧ MinFetchWaitMs cfg ≤ elapsed.

Definition deadlineElapsed (elapsed : Z) : Prop := maxWaitMs ≤ elapsed.

Definition flowQuotaDenied (t : FetchTick) : Prop := flowControl t = false.

(** An iteration reads when neither the deadline nor the record count nor the
    flow quota stops it. *)
Definition reads (t : FetchTick) (st : FetchState) : Prop :=
  ¬ deadlineElapsed (elapsedAtGuard t) ∧ ¬ recordCountReached st ∧
  ¬ flowQuotaDenied t.

(** [leaves t st e msgs st']: the iteration that observes [t] in state [st]
    is the loop's last; [e] is the first exit condition that holds in it, in
    the order the iteration checks them, [msgs] the message it accepted, if
    any, and [st'] the state the loop ends in. *)
Inductive leaves
  : FetchTick → FetchState → FetchExit → list Message → FetchState → Prop :=
  | leaves_deadline t st :
      deadlineElapsed (elapsedAtGuard t) →
      leaves t st DeadlineElapsed [] st
  | leaves_count t st :
      ¬ deadlineElapsed (elapsedAtGuard t) →
      recordCountReached st →
      leaves t st RecordCountReached [] st
  | leaves_flow t st :
      ¬ deadlineElapsed (elapsedAtGuard t) →
      ¬ recordCountReached st →
      flowQuotaDenied t →
      leaves t st FlowQuotaDenied [] st
  | leaves_read_deadline t st :
      reads t st →
      next t = ReadDeadline →
      leaves t st DeadlineElapsed [] st
  | leaves_minBytes t st message :
      reads t st →
      next t = ReadMessage message →
      minBytesAfterWait (accept cfg message st) (elapsedAfterRead t) →
      leaves t st MinBytesAfterWait [message] (accept cfg message st)
  | leaves_maxBytes t st message :
      reads t st →
      next t = ReadMessage message →
      ¬ minBytesAfterWait (accept cfg message st) (elapsedAfterRead t) →
      maxBytesExceeded (accept cfg message st) →
      leaves t st MaxBytesExceeded [message] (accept cfg message st).

(** [stays t st msgs st']: no exit condition holds in the iteration that
    observes [t]; it either accepted a message or had a failed read. *)
Inductive stays
  : FetchTick → FetchState → list Message → FetchState → Prop :=
  | stays_failed t st :
      reads t st →
      next t = ReadFailed →
      stays t st [] st
  | stays_message t st message :
      reads t st →
      next t = ReadMessage message →
      ¬ minBytesAfterWait (accept cfg message st) (elapsedAfterRead t) →
      ¬ maxBytesExceeded (accept cfg message st) →
      stays t st [message] (accept cfg message st).

(** [terminates ticks st e msgs st']: the loop, started in [st], stays in
    for some iterations and leaves in the next one through [e], ending in
    [st']; [msgs] are the messages it accepted, in order. *)
Inductive terminates
  : list FetchTick → FetchState → FetchExit → list Message → FetchState →
    Prop :=
  | terminates_now t ticks st e msgs st' :
      leaves t st e msgs st' →
      terminates (t :: ticks) st e msgs st'
  | terminates_later t ticks st msgs mid e msgs' st' :
      stays t st msgs mid →
      terminates ticks mid e msgs' st' →
      terminates (t :: ticks) st e (msgs ++ msgs') st'.

End fetch.

(** The FIFO entry and the batch record of an accepted message. *)
Definition pairOf (cfg : KafsarConfig) (message : Message) : MessageIdPair :=
  {| MessageId := ID message;
     Offset := convOffset message (ContinuousOffset cfg) |}.

Definition recordOf (cfg : KafsarConfig) (base : Z) (message : Message)
  : Record :=
  {| Value := Payload message;
     RelativeOffset := convOffset message (ContinuousOffset cfg) - base |}.

(** The state [FetchPartition] enters its loop with. *)
Definition fetchStart (reader : ReaderMetadata) : FetchState :=
  {| byteLength := 0; baseOffset := 0; fistMessage := true; records := [];
     pending := messageIds reader |}.

(** The broker after a fetch on the reader stored under [key]. *)
Definition afterFetch (b : Broker) (key : string) (reader : ReaderMetadata)
    (ids : list MessageIdPair) : Broker :=
  with_readerManager
    (<[key := with_messageIds ids reader]> (readerManager b)) b.

End spec.

(** *** A backend, two offset managers and a broker for the examples *)

(** Messages are pairs of a number and a payload; a message's id and offset
    are its number and its length is the length of its payload. *)
Definition numbered : Backend :=
  {| MessageID := Z;
     Message := Z * bytes;
     ID := fst;
     Payload := snd;
     CalculateMsgLength := λ m, Z.of_nat (length m.2);
     convOffset := λ m _, m.1;
     ConvertMsgId := id;
     PartitionSuffix := λ n, "-partition-" +:+ pretty n |}.

(** An offset manager that keeps the list of what was committed. *)
Definition recording : @OffsetManager numbered :=
  {| offsetStore := list (string * string * string * Z * @MessageIdPair numbered);
     CommitOffset := λ om username kafkaTopic groupId partitionId pair,
       (None, (om ++ [(username, kafkaTopic, groupId, partitionId, pair)])%list) |}.

(** An offset manager whose backend is down: every commit fails. *)
Definition unavailable : @OffsetManager numbered :=
  {| offsetStore := unit;
     CommitOffset := λ om _ _ _ _ _, (Errorf "send failed", om) |}.

Definition pair (n : Z) : @MessageIdPair numbered :=
  @Build_MessageIdPair numbered n n.

(** One authenticated connection and one reader with three fetched messages
    pending. *)
Definition brokerWith {om : @OffsetManager numbered} (store : offsetStore)
  : @Broker.Broker numbered om :=
  {| kafsarConfig := CoordinatorSpec.cfg0;
     groupCoordinator := CoordinatorSpec.stable;
     readerManager :=
       {[ "persistent://public/default/t-partition-0c" :=
            {| rm_groupId := "g"; messageIds := [pair 5; pair 7; pair 9] |} ]};
     userInfoManager :=
       {[ "10.0.0.1:4242" := {| username := "alice"; ui_clientId := "c" |} ]};
     offsetManager := store;
     topicGroupManager := ∅;
     producerManager := ∅ |}.

Definition commitReq (offset : Z) : OffsetCommitPartitionReq :=
  {| ocr_PartitionId := 0; ocr_Offset := offset |}.

Definition message (n : Z) : @Message numbered := (n, [Byte.x00; Byte.x01]).

Definition tick (elapsed : Z) (n : Z) : @FetchTick numbered :=
  {| elapsedAtGuard := elapsed; flowControl := true;
     next := ReadMessage (message n); elapsedAfterRead := elapsed + 1 |}.

End BrokerSpec.

(** ** Facts about the coordinator *)

Module CoordinatorFacts.

Import GroupCoordinator CoordinatorSpec.
Local Open Scope go_scope.

Example stable_is_stable :
  (λ g, (groupStatus g, generationId g, leader g, dom (members g)))
    <$> (groupManager stable !! "aliceg")
  = Some (Stable, 1, "c-u1", {["c-u1"]}).
Proof. vm_compute. reflexivity. Qed.

(** *** Rules for [post] *)

Section rules.
Context {A B : Type}.

Lemma post_ret (a : A) (Q : A → Group → Prop) g :
  Q a g → post (ret a) Q g.
Proof. done. Qed.

Lemma post_bind (m : M A) (f : A → M B) (Q : B → Group → Prop) g :
  post m (λ a g', post (f a) Q g') g → post (bind m f) Q g.
Proof. unfold post, bind. destruct (m g) as [[a g']| |]; done. Qed.

Lemma post_gets (f : Group → A) (Q : A → Group → Prop) g :
  Q (f g) g → post (gets f) Q g.
Proof. done. Qed.

Lemma post_modify (f : Group → Group) (Q : unit → Group → Prop) g :
  Q tt (f g) → post (modify f) Q g.
Proof. done. Qed.

Lemma post_panic (Q : A → Group → Prop) g : post panic Q g.
Proof. done. Qed.

Lemma post_mono (m : M A) (Q Q' : A → Group → Prop) g :
  post m Q g → (∀ a g', Q a g' → Q' a g') → post m Q' g.
Proof. unfold post. destruct (m g) as [[a g']| |]; auto. Qed.

Lemma post_ret_inv (m : M A) (Q : A → Group → Prop) g a g' :
  post m Q g → m g = Ret (a, g') → Q a g'.
Proof. unfold post. intros H Heq. by rewrite Heq in H. Qed.
End rules.

Ltac go_unfold :=
  unfold getGroupStatus, getGroupGenerationId, getGroupMembersLen,
    setGroupStatus, getMemberLeader, setMemberLeader, isMemberLeader,
    deleteMember, checkMemberExist, prepareRebalance,
    checkJoinMemberGenerationId, checkSyncMemberGenerationId.

Ltac go_step :=
  lazymatch goal with
  | |- post (bind _ _) _ _ => apply post_bind
  | |- post (ret _) _ _ => apply post_ret
  | |- post (gets _) _ _ => apply post_gets
  | |- post (modify _) _ _ => apply post_modify
  | |- post panic _ _ => apply post_panic
  | |- post (if ?b then _ else _) _ _ => destruct b eqn:?
  | |- post (match ?x with Some _ => _ | None => _ end) _ _ =>
      is_var x; destruct x
  | |- post _ _ _ => progress go_unfold
  end.

Ltac go := repeat (go_step; cbn beta; cbn [fst snd]).

(** Use a proved postcondition of the next call. *)
Tactic Notation "go_with" open_constr(H) :=
  eapply post_mono; [apply H | cbn beta; intros].

(** *** The polling loops *)

Lemma awaitingRebalance_post ticks status g :
  post (awaitingRebalance ticks status)
    (λ err g', g' = g ∧
       (err = None → groupStatus g = status ∨ members g = ∅)) g.
Proof.
  induction ticks as [|ticks IH]; cbn [awaitingRebalance]; go;
    try (split; [done|]); try done; try apply IH.
  all: intros _; apply orb_true_iff in Heqb as [Hs|Hn].
  all: try (left; by apply bool_decide_eq_true in Hs).
  all: right; apply Z.eqb_eq in Hn; apply map_size_empty_iff; lia.
Qed.

Lemma doRebalance_post env g :
  post (doRebalance env)
    (λ _ g', members g' = members g ∧ leader g' = leader g ∧
       (generationId g' = generationId g ∨
        generationId g' = generationId g + 1)) g.
Proof.
  unfold doRebalance. go; [by auto|].
  go_with awaitingRebalance_post.
  destruct H as [-> _]. by auto.
Qed.

(** The id a member is admitted under. *)
Definition admittedId (env : Env) (clientId memberId : string) : string :=
  if bool_decide (memberId = EmptyMemberId)
  then clientId +:+ "-" +:+ uuid env else memberId.

(** The effect of admitting a member: one entry written, the leader kept,
    at most one generation bump. *)
Definition admitted (env : Env) (clientId memberId : string)
    (g g' : Group) : Prop :=
  dom (members g') = {[admittedId env clientId memberId]} ∪ dom (members g) ∧
  leader g' = leader g ∧
  (generationId g' = generationId g ∨ generationId g' = generationId g + 1).

Lemma addMemberAndRebalance_post env clientId memberId protocolType
    protocols g :
  post (addMemberAndRebalance env clientId memberId protocolType protocols)
    (λ r g', r.1 = admittedId env clientId memberId ∧
             admitted env clientId memberId g g') g.
Proof.
  unfold addMemberAndRebalance, vote, admitted, admittedId.
  go; destruct protocols; go.
  all: go_with doRebalance_post; go; cbn in *.
  all: destruct H as (-> & -> & Hgen); by rewrite dom_insert_L.
Qed.

Lemma addNewMemberAndReBalance_post env clientId memberId protocolType
    protocols g :
  post (addNewMemberAndReBalance env clientId memberId protocolType
          protocols)
    (λ r g', (r.2 ≠ None ∧ r.1 = memberId ∧ g' = g) ∨
             (r.1 = admittedId env clientId memberId ∧
              admitted env clientId memberId g g' ∧
              (members g = ∅ ∨ groupStatus g = Stable))) g.
Proof.
  unfold addNewMemberAndReBalance. go.
  - apply andb_true_iff in Heqb as [Hn Hs].
    apply Z.gtb_lt in Hn. apply negb_true_iff, bool_decide_eq_false in Hs.
    go_with awaitingRebalance_post. destruct H as [-> Hnone].
    destruct a as [msg|]; go; [by left|].
    destruct (Hnone eq_refl) as [?|Hempty]; [done|].
    rewrite Hempty, map_size_empty in Hn. lia.
  - go_with addMemberAndRebalance_post. right.
    destruct H as [? ?]. split_and!; [done..|].
    apply andb_false_iff in Heqb as [Hn|Hs].
    + left. rewrite Z.gtb_ltb in Hn. apply Z.ltb_ge in Hn.
      apply map_size_empty_iff. lia.
    + right. by apply negb_false_iff, bool_decide_eq_true in Hs.
Qed.

Lemma with_joinGenerationId_id cur :
  with_joinGenerationId (joinGenerationId cur) cur = cur.
Proof. by destruct cur. Qed.

(** When the barrier is not satisfied although the caller has joined the
    current generation, some other member has not. *)
Lemma not_joined_other memberId cur n (ms : gmap string memberMetadata) :
  ms !! memberId = Some cur →
  joinGenerationId cur = n →
  bool_decide (map_Forall (λ _ m, joinGenerationId m = n) ms) = false →
  ∃ k, k ≠ memberId ∧ is_Some (ms !! k).
Proof.
  intros Hcur Hn Hall. apply bool_decide_eq_false in Hall.
  apply map_not_Forall in Hall as (k & x & Hk & Hx); [|apply _].
  exists k. split; [|eauto]. intros ->. congruence.
Qed.

Lemma not_joined_other_insert memberId cur n
    (ms : gmap string memberMetadata) :
  bool_decide (map_Forall (λ _ m, joinGenerationId m = n)
                 (<[memberId := with_joinGenerationId n cur]> ms)) = false →
  ∃ k, k ≠ memberId ∧ is_Some (ms !! k).
Proof.
  intros Hall.
  destruct (not_joined_other memberId (with_joinGenerationId n cur) n _
              (lookup_insert_eq _ _ _) eq_refl Hall) as (k & Hne & Hk).
  exists k. by rewrite lookup_insert_ne in Hk.
Qed.

(** The join barrier: it changes nothing but the caller's own
    [joinGenerationId] and, on success, the status; it fails only if the
    caller is no member or some other member has not joined this
    generation. *)
Lemma awaitingJoin_lookup ticks memberId g :
  post (awaitingJoin ticks memberId)
    (λ err g',
       generationId g' = generationId g ∧ leader g' = leader g ∧
       dom (members g') = dom (members g) ∧
       (err = None →
          groupStatus g' = CompletingRebalance ∧
          is_Some (members g !! memberId)) ∧
       (err ≠ None →
          groupStatus g' = groupStatus g ∧
          (is_Some (members g !! memberId) →
           ∃ k, k ≠ memberId ∧ is_Some (members g !! k)))) g.
Proof.
  revert g. induction ticks as [|ticks IH]; intros g;
    cbn [awaitingJoin]; go.
  all: destruct (members g !! memberId) as [cur|] eqn:Hcur; go.
  all: cbn in *.
  all: rewrite ?(dom_insert_lookup_L (members g) memberId _ (mk_is_Some _ _ Hcur)).
  all: try (go_with IH; cbn in *;
            rewrite ?lookup_insert_eq,
              ?(dom_insert_lookup_L (members g) memberId _
                  (mk_is_Some _ _ Hcur)) in *;
            destruct_and?).
  all: split_and!; try done; try congruence.
  all: try (intros _; split; [done|eauto]).
  all: try (intros _; split; [done|]; intros _).
  all: try (intros _; split; [done|]; by intros [??]).
  all: try (intros _; by eapply not_joined_other_insert).
  all: try (intros _; eapply not_joined_other; [done| |done];
            by apply negb_false_iff, bool_decide_eq_true in Heqb).
  all: try (intros E;
            match goal with H : _ = None → _ |- _ => destruct (H E) end;
            split; [done|eauto]).
  all: intros E;
    match goal with H : _ ≠ None → _ |- _ => destruct (H E) as [? _] end;
    split; [done|intros _].
  all: first
    [ by eapply not_joined_other_insert
    | eapply not_joined_other; [done| |done];
      by apply negb_false_iff, bool_decide_eq_true in Heqb ].
Qed.

Lemma awaitingJoin_post ticks memberId g :
  post (awaitingJoin ticks memberId)
    (λ err g',
       generationId g' = generationId g ∧ leader g' = leader g ∧
       dom (members g') = dom (members g) ∧
       (err = None →
          groupStatus g' = CompletingRebalance ∧
          memberId ∈ dom (members g)) ∧
       (err ≠ None →
          groupStatus g' = groupStatus g ∧
          (memberId ∈ dom (members g) →
           ∃ k, k ≠ memberId ∧ k ∈ dom (members g)))) g.
Proof.
  go_with awaitingJoin_lookup.
  destruct H as (Hgen & Hl & Hd & Hok & Herr). split_and!; [done..| |].
  - intros E. destruct (Hok E). by rewrite elem_of_dom.
  - intros E. destruct (Herr E) as [? Hk]. split; [done|].
    rewrite elem_of_dom. intros Hin. destruct (Hk Hin) as (k & ? & ?).
    exists k. by rewrite elem_of_dom.
Qed.

Lemma getLeaderMembers_post memberId g :
  post (getLeaderMembers memberId)
    (λ _ g', g' = g ∨ (leader g = "" ∧ g' = with_leader memberId g)) g.
Proof. unfold getLeaderMembers. go; auto.
  all: right; split; [by apply bool_decide_eq_true in Heqb|done].
Qed.

(** *** What one JoinGroup call does to the group it joins *)

Definition joinEffect (env : Env) (clientId : string) (g g' : Group)
  : Prop :=
  (generationId g' = generationId g ∨
   generationId g' = generationId g + 1) ∧
  ((∃ k, k ∈ dom (members g')) ∨
   (members g' = members g ∧ groupStatus g' = groupStatus g ∧
    leader g' = leader g)) ∧
  (clientId +:+ "-" +:+ uuid env ∉ dom (members g) →
   (dom (members g) = ∅ →
    groupStatus g = Empty ∨ groupStatus g = Dead) →
   (leader g = "" ∨ leader g ∈ dom (members g)) →
   "" ∉ dom (members g) →
   (leader g' = "" ∨ leader g' ∈ dom (members g')) ∧
   "" ∉ dom (members g')).

Lemma admittedId_nonempty env clientId memberId :
  memberId = "" ∧
    admittedId env clientId memberId = clientId +:+ "-" +:+ uuid env ∧
    admittedId env clientId memberId ≠ ""
  ∨ memberId ≠ "" ∧ admittedId env clientId memberId = memberId.
Proof.
  unfold admittedId, EmptyMemberId. case_bool_decide; [left|by right].
  split_and!; [done..|]. by destruct clientId.
Qed.

Ltac leaf_prep :=
  unfold joinEffect, admitted in *; cbn [fst snd] in *;
  repeat match goal with
    | H : _ ∧ _ |- _ => destruct H
    | H : Some _ = None → _ |- _ => clear H
    | H : None ≠ None → _ |- _ => clear H
    | H : None = None → _ |- _ => specialize (H eq_refl)
    | H : Some ?e ≠ None → _ |- _ =>
        let P := fresh in
        assert (P : Some e ≠ None) by done; specialize (H P); clear P
    | H : None ≠ None |- _ => by destruct H
    | H : _ || _ = false |- _ => apply orb_false_iff in H as [? ?]
    | H : negb _ = false |- _ => apply negb_false_iff in H
    | H : negb _ = true |- _ => apply negb_true_iff in H
    | H : bool_decide _ = false |- _ => apply bool_decide_eq_false in H
    | H : bool_decide _ = true |- _ => apply bool_decide_eq_true in H
    | H : is_Some (_ !! _) |- _ => apply elem_of_dom in H
    | H : ¬ is_Some (_ !! _) |- _ => rewrite <- elem_of_dom in H
    | H : members _ = ∅ |- _ => apply dom_empty_iff_L in H
    | H : _ ∨ _ |- _ => destruct H
    end; subst; cbn [members leader groupStatus generationId with_leader
                     with_members with_groupStatus] in *;
  rewrite ?dom_delete_L, ?dom_insert_L in *.

(** Express every field of an intermediate group by the fields of the
    group the call started from. *)
Ltac absorb_eq t :=
  let d := fresh "d" in
  let E := fresh in
  remember t as d eqn:E in *; clear E; subst d.

Ltac absorb :=
  repeat match goal with
    | H : admittedId ?e ?c ?m = _ |- _ => absorb_eq (admittedId e c m)
    | H : dom (members ?x) = _ |- _ => is_var x; absorb_eq (dom (members x))
    | H : members ?x = _ |- _ => is_var x; absorb_eq (members x)
    | H : leader ?x = _ |- _ => is_var x; absorb_eq (leader x)
    | H : generationId ?x = _ |- _ => is_var x; absorb_eq (generationId x)
    | H : groupStatus ?x = _ |- _ => is_var x; absorb_eq (groupStatus x)
    end.

Ltac name_term t :=
  let d := fresh "x" in
  let E := fresh in
  remember t as d eqn:E in *; clear E.

Ltac name_fields :=
  repeat match goal with
    | |- context [leader ?x] => name_term (leader x)
    | H : context [leader ?x] |- _ => name_term (leader x)
    | |- context [dom (members ?x)] => name_term (dom (members x))
    | H : context [dom (members ?x)] |- _ => name_term (dom (members x))
    | |- context [?c +:+ "-" +:+ uuid ?e] =>
        name_term (c +:+ "-" +:+ uuid e)
    | H : context [?c +:+ "-" +:+ uuid ?e] |- _ =>
        name_term (c +:+ "-" +:+ uuid e)
    end.

Ltac leaf :=
  leaf_prep; absorb; name_fields;
  (split_and!;
    [ lia
    | first [ by right | left; set_solver ]
    | intros; split; set_solver ]).

Lemma joinPreparingRebalance_post env clientId memberId protocolType
    protocols g :
  post (joinPreparingRebalance env (bool_decide (memberId = EmptyMemberId))
          clientId memberId protocolType protocols)
    (λ _ g', joinEffect env clientId g g') g.
Proof.
  pose proof (admittedId_nonempty env clientId memberId).
  unfold joinPreparingRebalance, joinResp. go.
  - go_with addNewMemberAndReBalance_post. 
    destruct a as [mid [e|]]; cbn [fst snd] in *; go.
    + leaf.
    + go_with awaitingJoin_post. destruct a as [e|]; go.
      * leaf.
      * leaf.
      * go_with getLeaderMembers_post. go. leaf.
  - go_with awaitingJoin_post. destruct a as [e|]; go.
    + leaf.
    + leaf.
    + go_with getLeaderMembers_post. go. leaf.
Qed.

Lemma joinEmptyOrStable_post env clientId memberId protocolType
    protocols g :
  post (joinEmptyOrStable env (bool_decide (memberId = EmptyMemberId))
          clientId memberId protocolType protocols)
    (λ _ g', joinEffect env clientId g g') g.
Proof.
  pose proof (admittedId_nonempty env clientId memberId).
  unfold joinEmptyOrStable, updateMemberAndRebalance, joinResp. go.
  - go_with addNewMemberAndReBalance_post.
    destruct a as [mid [e|]]; cbn [fst snd] in *; go.
    + leaf.
    + go_with awaitingJoin_post. destruct a as [e|]; go.
      * leaf.
      * leaf.
      * go_with getLeaderMembers_post. go. leaf.
  - go_with doRebalance_post. destruct a as [e|]; go.
    + leaf.
    + go_with awaitingJoin_post. destruct a as [e|]; go.
      * leaf.
      * leaf.
      * go_with getLeaderMembers_post. go. leaf.
  - go_with awaitingJoin_post. destruct a as [e|]; go.
    + leaf.
    + leaf.
    + go_with getLeaderMembers_post. go. leaf.
Qed.

Lemma joinCompletingRebalance_post env clientId memberId protocolType
    protocols g :
  groupStatus g = CompletingRebalance →
  post (joinCompletingRebalance env (bool_decide (memberId = EmptyMemberId))
          clientId memberId protocolType protocols)
    (λ _ g', joinEffect env clientId g g') g.
Proof.
  intros Hstatus.
  pose proof (admittedId_nonempty env clientId memberId).
  unfold joinCompletingRebalance, updateMemberAndRebalance, joinResp. go.
  - go_with addNewMemberAndReBalance_post.
    destruct a as [mid [e|]]; cbn [fst snd] in *; go.
    + leaf.
    + go_with getLeaderMembers_post. go.
      go_with awaitingJoin_post. go; leaf.
  - go_with doRebalance_post. go.
    + leaf.
    + go_with getLeaderMembers_post. go.
      go_with awaitingJoin_post. go; leaf.
  - go_with getLeaderMembers_post. go.
    go_with awaitingJoin_post. go; leaf.
Qed.

Lemma joinEffect_refl env clientId g : joinEffect env clientId g g.
Proof. unfold joinEffect. split_and!; [by left|by right|by intros]. Qed.

Lemma joinGroupProtocolCheck_post protocolType protocols g :
  post (joinGroupProtocolCheck protocolType protocols) (λ _ g', g' = g) g.
Proof. unfold joinGroupProtocolCheck. by go. Qed.

Lemma joinGroup_post cfg env memberId clientId protocolType protocols g :
  post (joinGroup cfg env memberId clientId protocolType protocols)
    (λ _ g', joinEffect env clientId g g') g.
Proof.
  unfold joinGroup. go.
  go_with joinGroupProtocolCheck_post. subst g'.
  destruct a as [code [e|]]; go; try apply joinEffect_refl.
  all: first
    [ apply joinPreparingRebalance_post
    | apply joinEmptyOrStable_post
    | apply joinCompletingRebalance_post;
      match goal with
      | H : bool_decide (_ = CompletingRebalance) = true |- _ =>
          by apply bool_decide_eq_true in H
      end ].
Qed.

(** *** What SyncGroup and LeaveGroup do to the group they address *)

(** Nothing but assignments, sync counters and the status changes; the
    status only changes to Stable, and only on behalf of a member. *)
Definition syncEffect (g g' : Group) : Prop :=
  generationId g' = generationId g ∧ leader g' = leader g ∧
  dom (members g') = dom (members g) ∧
  (groupStatus g' = groupStatus g ∨
   groupStatus g' = Stable ∧ ∃ k, k ∈ dom (members g)).

Lemma storeAssignments_post groupAssignments g :
  post (storeAssignments groupAssignments)
    (λ _ g', generationId g' = generationId g ∧ leader g' = leader g ∧
             dom (members g') = dom (members g) ∧
             groupStatus g' = groupStatus g) g.
Proof.
  revert g. induction groupAssignments as [|a rest IH]; intros g;
    cbn [storeAssignments]; go; [done|].
  unfold storeAssignment. go.
  destruct (members g !! ga_MemberId a) as [m|] eqn:Hm; go.
  go_with IH. cbn in *. destruct H as (-> & -> & -> & ->).
  by rewrite dom_insert_lookup_L.
Qed.

Lemma awaitingSync_post ticks g :
  post (awaitingSync ticks) (λ _ g', g' = g) g.
Proof. induction ticks as [|ticks IH]; cbn [awaitingSync]; by go. Qed.

Lemma curMemberField_post {A} memberId (f : memberMetadata → A) g :
  post (curMemberField memberId f) (λ _ g', g' = g) g.
Proof.
  unfold curMemberField. go. by destruct (members g !! memberId); go.
Qed.

Lemma syncGroup_post env memberId groupAssignments g :
  post (syncGroup env memberId groupAssignments)
    (λ _ g', syncEffect g g') g.
Proof.
  unfold syncGroup, syncCompletingRebalance.
  repeat first
    [ progress go
    | go_with storeAssignments_post
    | go_with awaitingSync_post
    | go_with curMemberField_post ].
  all: unfold syncEffect; leaf_prep; rewrite ?dom_alter_L in *; absorb.
  all: try (split_and!; by eauto).
  all: split_and!; try done; right; split; [done|].
  all: eexists; by eapply elem_of_dom_2.
Qed.

Lemma foldr_delete_commute (k : string) (ks : list string)
    (m : gmap string memberMetadata) :
  foldr delete (delete k m) ks = delete k (foldr delete m ks).
Proof.
  induction ks as [|k' ks IH]; cbn; [done|].
  by rewrite IH, delete_delete.
Qed.

Lemma lookup_foldr_delete (k : string) (ks : list string)
    (m : gmap string memberMetadata) :
  foldr delete m ks !! k = if bool_decide (k ∈ ks) then None else m !! k.
Proof.
  induction ks as [|k' ks IH]; cbn; [done|].
  destruct (decide (k = k')) as [->|Hne].
  - rewrite lookup_delete_eq, bool_decide_eq_true_2; [done|set_solver].
  - rewrite lookup_delete_ne, IH by done.
    rewrite (bool_decide_ext (k ∈ k' :: ks) (k ∈ ks)); [done|set_solver].
Qed.

(** The leaving members are deleted; the leader is cleared exactly when it
    is among them. *)
Lemma leaveMembers_post ms g :
  post (leaveMembers ms)
    (λ _ g',
       members g' = foldr delete (members g) (leaving ms) ∧
       leader g' = (if bool_decide (leader g ∈ leaving ms)
                    then "" else leader g) ∧
       generationId g' = generationId g ∧
       groupStatus g' = groupStatus g) g.
Proof.
  revert g. induction ms as [|m ms IH]; intros g; cbn [leaveMembers]; go.
  { done. }
  all: unfold leaveMember; go.
  all: go_with IH; cbn in *; destruct H as (-> & -> & -> & ->).
  all: fold (leaving ms); split_and!; try done;
    try apply foldr_delete_commute.
  - apply bool_decide_eq_true in Heqb.
    rewrite <- Heqb.
    rewrite (bool_decide_eq_true_2 (_ ∈ _ :: _)) by constructor.
    by case_bool_decide.
  - apply bool_decide_eq_false in Heqb.
    rewrite (bool_decide_ext (leader g ∈ lgm_MemberId m :: leaving ms)
               (leader g ∈ leaving ms)); [done|].
    rewrite elem_of_cons. naive_solver.
Qed.

Lemma leaveGroup_post ms g :
  post (leaveGroup ms)
    (λ resp g',
       resp = {| lg_ErrorCode := NONE; lg_Members := ms |} ∧
       members g' = foldr delete (members g) (leaving ms) ∧
       leader g' = (if bool_decide (leader g ∈ leaving ms)
                    then "" else leader g) ∧
       generationId g' = generationId g + 1 ∧
       groupStatus g' = (if bool_decide (members g' = ∅)
                         then Empty else PreparingRebalance)) g.
Proof.
  unfold leaveGroup. go. go_with leaveMembers_post. go; cbn.
  all: destruct H as (Hm & -> & -> & _); split_and!; try done.
  all: apply bool_decide_eq_true in Heqb || apply bool_decide_eq_false in Heqb.
  - apply map_size_empty_iff in Heqb. by rewrite bool_decide_eq_true_2.
  - rewrite bool_decide_eq_false_2; [done|by rewrite <- map_size_empty_iff].
Qed.

(** The three handlers never block and, apart from the stores of
    [HandleSyncGroup] through absent members, never fault. *)
Lemma leaveGroup_returns ms g : ∃ r, leaveGroup ms g = Ret r.
Proof.
  assert (∀ g, ∃ g', leaveMembers ms g = Ret (tt, g')) as Hms.
  { induction ms as [|m ms IH]; intros g0; cbn; [by eexists|].
    unfold bind, leaveMember, getMemberLeader, gets, bind.
    case_bool_decide; cbn; apply IH. }
  destruct (Hms g) as [g' Hg']. unfold leaveGroup, bind. rewrite Hg'. cbn.
  case_bool_decide; by eexists.
Qed.

(** *** From the group to the coordinator *)

Lemma onGroup_ret {A} key group (body : M A) c a c' :
  onGroup key group body c = Ret (a, c') →
  ∃ g', body group = Ret (a, g') ∧
        c' = with_groupManager (<[key := g']> (groupManager c)) c.
Proof.
  unfold onGroup. destruct (body group) as [[a0 g']| |]; [|done..].
  intros [= -> <-]. eauto.
Qed.

(** What a call does to the group [g] stored under the key it addresses
    (for a JoinGroup that creates the group, to the group as created). *)
Definition groupEffect (call : Call) (g g' : Group) : Prop :=
  match call with
  | JoinGroup env _ _ _ clientId _ _ _ => joinEffect env clientId g g'
  | SyncGroup _ _ _ _ _ _ => syncEffect g g'
  | Heartbeat _ _ _ => g' = g
  | LeaveGroup _ _ ms =>
      members g' = foldr delete (members g) (leaving ms) ∧
      leader g' = (if bool_decide (leader g ∈ leaving ms)
                   then "" else leader g) ∧
      generationId g' = generationId g + 1 ∧
      groupStatus g' = (if bool_decide (members g' = ∅)
                        then Empty else PreparingRebalance)
  end.

Definition callKey (call : Call) : string :=
  match call with
  | JoinGroup _ username groupId _ _ _ _ _
  | SyncGroup _ username groupId _ _ _
  | Heartbeat username groupId _
  | LeaveGroup username groupId _ => username +:+ groupId
  end.

(** A group as [HandleJoinGroup] creates it. *)
Definition created (g : Group) : Prop :=
  ∃ groupId protocolType sessionTimeoutMs,
    g = newGroup groupId protocolType sessionTimeoutMs.

(** A call leaves every group but the one it addresses alone, and the
    configuration as well. *)
Lemma handle_effect c call c' :
  handle c call = Ret c' →
  kafsarConfig c' = kafsarConfig c ∧
  (c' = c ∨
   ∃ g g',
     (groupManager c !! callKey call = Some g ∨
      groupManager c !! callKey call = None ∧ created g) ∧
     groupManager c' = <[callKey call := g']> (groupManager c) ∧
     groupEffect call g g').
Proof.
  destruct call as [env user gid mid0 cid pt st ps|env user gid mid0 gen gas
                   |user gid mid0|user gid ms];
    cbn [handle callKey groupEffect].
  - unfold HandleJoinGroup.
    destruct (joinGroupParamsCheck _ _ _ _ _) as [[mid code] [e|]];
      cbn [fst snd]; [intros [= <-]; by auto|].
    destruct (onGroup _ _ _ _) as [[resp c'']| |] eqn:Hon; [|done..].
    intros [= ->]. apply onGroup_ret in Hon as (g' & Hbody & ->).
    split; [done|]. right.
    pose proof (post_ret_inv _ _ _ _ _ (joinGroup_post _ _ _ _ _ _ _) Hbody)
      as Heff.
    destruct (groupManager c !! (user +:+ gid)) as [g|] eqn:Hg.
    + eexists g, g'. by split_and!; [left|..].
    + eexists _, g'. split_and!; [right|done|apply Heff].
      split; [done|]. by eexists _, _, _.
  - unfold HandleSyncGroup.
    destruct (syncGroupParamsCheck _ _) as [code [e|]];
      cbn [fst snd]; [intros [= <-]; by auto|].
    destruct (groupManager c !! (user +:+ gid)) as [g|] eqn:Hg;
      [|intros [= <-]; by auto].
    destruct (onGroup _ _ _ _) as [[resp c'']| |] eqn:Hon; [|done..].
    intros [= ->]. apply onGroup_ret in Hon as (g' & Hbody & ->).
    split; [done|]. right. eexists g, g'. split_and!; [by left|done|].
    by eapply (post_ret_inv _ _ _ _ _ (syncGroup_post _ _ _ _)).
  - intros [= <-]. by auto.
  - unfold HandleLeaveGroup. case_bool_decide; [intros [= <-]; by auto|].
    destruct (groupManager c !! (user +:+ gid)) as [g|] eqn:Hg;
      [|intros [= <-]; by auto].
    destruct (onGroup _ _ _ _) as [[resp c'']| |] eqn:Hon; [|done..].
    intros [= ->]. apply onGroup_ret in Hon as (g' & Hbody & ->).
    split; [done|]. right. eexists g, g'.
    split; [by left|split; [done|]].
    by destruct (post_ret_inv _ _ _ _ _ (leaveGroup_post _ _) Hbody)
      as (_ & ? & ? & ? & ?).
Qed.

(** *** Invariants along runs *)

Lemma created_emptyMeansEmpty g : created g → emptyMeansEmpty g.
Proof. intros (? & ? & ? & ->) _. by left. Qed.


Lemma groupEffect_generation call g g' :
  groupEffect call g g' →
  generationId g' = generationId g ∨ generationId g' = generationId g + 1.
Proof.
  destruct call; cbn.
  - by intros [? _].
  - intros [-> _]. by left.
  - intros ->. by left.
  - intros (_ & _ & -> & _). by right.
Qed.

Lemma groupEffect_emptyMeansEmpty call g g' :
  groupEffect call g g' → emptyMeansEmpty g → emptyMeansEmpty g'.
Proof.
  unfold emptyMeansEmpty. destruct call; cbn.
  - intros (_ & [[k Hk]|(-> & -> & _)] & _) Hinv; [|done].
    intros Hempty. rewrite Hempty in Hk. set_solver.
  - intros (_ & _ & Hdom & [->|[_ [k Hk]]]) Hinv Hempty.
    + apply Hinv. apply dom_empty_iff_L. rewrite <- Hdom.
      by apply dom_empty_iff_L.
    + rewrite <- Hdom, Hempty in Hk. set_solver.
  - by intros ->.
  - intros (_ & _ & _ & ->) _ Hempty.
    rewrite bool_decide_eq_true_2 by done. by left.
Qed.



(** Every group of a coordinator satisfies [P]. *)
Definition allGroups (P : Group → Prop) (c : GroupCoordinatorStandalone)
  : Prop :=
  ∀ key g, groupManager c !! key = Some g → P g.

Lemma handle_emptyMeansEmpty c call c' :
  handle c call = Ret c' →
  allGroups emptyMeansEmpty c → allGroups emptyMeansEmpty c'.
Proof.
  intros Hcall Hinv key g' Hg'.
  destruct (handle_effect _ _ _ Hcall)
    as [_ [->|(g & g1 & Hg & Hgm & Heff)]]; [by eapply Hinv|].
  rewrite Hgm in Hg'.
  destruct (decide (callKey call = key)) as [<-|Hne].
  - rewrite lookup_insert_eq in Hg'. simplify_eq.
    eapply groupEffect_emptyMeansEmpty; [done|].
    destruct Hg as [Hg|[_ Hg]]; [by eapply Hinv|].
    by apply created_emptyMeansEmpty.
  - rewrite lookup_insert_ne in Hg' by done. by eapply Hinv.
Qed.

Lemma run_emptyMeansEmpty calls c c' :
  run c calls = Ret c' →
  allGroups emptyMeansEmpty c → allGroups emptyMeansEmpty c'.
Proof.
  revert c. induction calls as [|call calls IH]; intros c; cbn.
  - by intros [= ->].
  - destruct (handle c call) as [c1| |] eqn:Hcall; [|done..].
    intros Hrun Hinv. eapply IH; [done|].
    by eapply handle_emptyMeansEmpty.
Qed.

Lemma freshRun_run c calls c' : freshRun c calls c' → run c calls = Ret c'.
Proof. induction 1 as [|???????? IH]; cbn; [done|]. by rewrite H0. Qed.


(** *** The claims about the coordinator *)

(** For calls that do not overlap, a group without members is Empty or
    Dead: the statement of C2 over sequences of calls that each run to
    completion before the next one starts. *)
Lemma sequential_empty_group_is_Empty_or_Dead c key g :
  reachable c →
  groupManager c !! key = Some g →
  members g = ∅ →
  groupStatus g = Empty ∨ groupStatus g = Dead.
Proof.
  intros (cfg & calls & Hrun) Hg.
  eapply (run_emptyMeansEmpty _ _ _ Hrun); [|done].
  intros k g0. cbn. by rewrite lookup_empty.
Qed.

(** A call that runs without another one in between is the handler of the
    sequential reading: the accesses of [Overlap.leaveStep], done one after
    the other, are [leaveGroup]. *)
Lemma leaveSteps_alone ms g :
  ∃ n g',
    Overlap.leaveSteps n (Overlap.enter ms) g = (Overlap.Returned, g') ∧
    leaveGroup ms g = Ret ({| lg_ErrorCode := NONE; lg_Members := ms |}, g').
Proof.
  assert (∀ ms g,
            ∃ n g1,
              Overlap.leaveSteps n (Overlap.enter ms) g
              = (Overlap.AtGeneration, g1) ∧
              leaveMembers ms g = Ret (tt, g1)) as Hloop.
  { clear. intros ms. induction ms as [|m ms IH]; intros g.
    - by exists 0%nat, g.
    - cbn [leaveMembers]. unfold bind at 1, leaveMember.
      unfold bind, getMemberLeader, gets, setMemberLeader, deleteMember,
        modify, ret.
      destruct (bool_decide (lgm_MemberId m = leader g)) eqn:Hl.
      + destruct (IH (with_members
                        (delete (lgm_MemberId m)
                           (members (with_leader "" g)))
                        (with_leader "" g))) as (n & g1 & Hn & Hg1).
        exists (S (S (S n))), g1. cbn [Overlap.enter Overlap.leaveSteps
          Overlap.leaveStep]. rewrite Hl. cbn [fst snd]. by split.
      + destruct (IH (with_members (delete (lgm_MemberId m) (members g)) g))
          as (n & g1 & Hn & Hg1).
        exists (S (S n)), g1. cbn [Overlap.enter Overlap.leaveSteps
          Overlap.leaveStep]. rewrite Hl. cbn [fst snd]. by split. }
  destruct (Hloop ms g) as (n & g1 & Hn & Hg1).
  assert (∀ n p g p1 g1 m,
            Overlap.leaveSteps n p g = (p1, g1) →
            Overlap.leaveSteps (n + m) p g = Overlap.leaveSteps m p1 g1)
    as Hadd.
  { clear. intros n. induction n as [|n IH]; intros p g p1 g1 m; cbn.
    - by intros [= -> ->].
    - apply IH. }
  exists (n + 3)%nat. eexists. rewrite (Hadd _ _ _ _ _ 3%nat Hn).
  split; [reflexivity|].
  unfold leaveGroup. unfold bind at 1. rewrite Hg1.
  unfold bind, modify, gets, setGroupStatus, modify, ret. cbn.
  by destruct (bool_decide (size (members g1) = 0%nat)).
Qed.

(** The two members of the group of [ghostJoin] leave at the same time. *)
Definition leaveOf (memberId : string) : list LeaveGroupMember :=
  [{| lgm_MemberId := memberId; lgm_GroupInstanceId := None |}].

(** The first call runs up to its reading of the member count, the second
    runs to its end, the first writes the status. *)
Definition leaveRace : list nat :=
  [0; 0; 0; 0; 0; 1; 1; 1; 1; 1; 0]%nat.

(** C2 does not hold of the code when calls overlap: [HandleLeaveGroup]
    holds no lock from its reading of the member count to its write of the
    status.  The coordinator that [stableCalls] and the JoinGroup of
    [ghostJoin] reach holds a group with the two members c-u1 and ghost.
    Each of them sends a LeaveGroup for itself and the two calls overlap:
    the first deletes its member and reads one member left; the second
    deletes its member, reads none left and sets the status Empty; the
    first then sets the status it had decided on.  Both calls have
    returned, the group has no member, and its status is
    PreparingRebalance: neither Empty nor Dead. *)
Theorem C2_overlapping_leaves_break_invariant :
  reachable (after ghostJoin) ∧
  is_Some (members (groupOfAlice (after ghostJoin)) !! "c-u1") ∧
  is_Some (members (groupOfAlice (after ghostJoin)) !! "ghost") ∧
  size (members (groupOfAlice (after ghostJoin))) = 2%nat ∧
  ∃ g',
    Overlap.overlap leaveRace
      [Overlap.enter (leaveOf "c-u1"); Overlap.enter (leaveOf "ghost")]
      (groupOfAlice (after ghostJoin))
    = ([Overlap.Returned; Overlap.Returned], g') ∧
    members g' = ∅ ∧
    groupStatus g' = PreparingRebalance ∧
    groupStatus g' ≠ Empty ∧ groupStatus g' ≠ Dead.
Proof.
  split_and!.
  - exists cfg0,
      (stableCalls ++
       [JoinGroup (env0 "u2") "alice" "g" "ghost" "c2" "consumer" 10000
          range])%list.
    vm_compute. reflexivity.
  - vm_compute. by eexists.
  - vm_compute. by eexists.
  - vm_compute. reflexivity.
  - eexists. split; [vm_compute; reflexivity|].
    split_and!; [done|done|done|done].
Qed.

Lemma handle_generation c call c' key g :
  handle c call = Ret c' →
  groupManager c !! key = Some g →
  ∃ g', groupManager c' !! key = Some g' ∧
        (generationId g' = generationId g ∨
         generationId g' = generationId g + 1).
Proof.
  intros Hcall Hg.
  destruct (handle_effect _ _ _ Hcall)
    as [_ [->|(g0 & g1 & Hg0 & Hgm & Heff)]]; [by eauto|].
  rewrite Hgm. destruct (decide (callKey call = key)) as [<-|Hne].
  - rewrite lookup_insert_eq. eexists; split; [done|].
    destruct Hg0 as [Hg0|[Hg0 _]]; [|congruence].
    simplify_eq. by eapply groupEffect_generation.
  - rewrite lookup_insert_ne by done. eauto.
Qed.

(** C4.  Along every sequence of coordinator calls a group stays in the
    group map and its [generationId] never decreases: each call leaves it
    unchanged or increments it by one, so after [n] calls it lies between
    the old value and the old value plus [n]. *)
Theorem C4_generation_never_decreases c calls c' key g :
  run c calls = Ret c' →
  groupManager c !! key = Some g →
  ∃ g', groupManager c' !! key = Some g' ∧
        generationId g ≤ generationId g'
          ≤ generationId g + Z.of_nat (length calls).
Proof.
  revert c g. induction calls as [|call calls IH]; intros c g; cbn [run].
  - intros [= <-] Hg. exists g. split; [done|]. cbn. lia.
  - destruct (handle c call) as [c1| |] eqn:Hcall; [|done..].
    intros Hrun Hg.
    destruct (handle_generation _ _ _ _ _ Hcall Hg) as (g1 & Hg1 & Hgen).
    destruct (IH _ _ Hrun Hg1) as (g' & Hg' & Hle).
    exists g'. split; [done|]. cbn [length]. lia.
Qed.

Lemma C4_witness :
  ∃ g', groupManager vacated !! "aliceg" = Some g' ∧
        generationId (groupOfAlice stable) ≤ generationId g'
          ≤ generationId (groupOfAlice stable) + 1.
Proof.
  apply (C4_generation_never_decreases stable [leaveAll] vacated "aliceg"
           (groupOfAlice stable)).
  - vm_compute. reflexivity.
  - vm_compute. reflexivity.
Defined.

(** C5.  JoinGroup checks its parameters before it touches the group map:
    an empty group id is answered with INVALID_GROUP_ID; otherwise a session
    timeout below [GroupMinSessionTimeoutMs] or above
    [GroupMaxSessionTimeoutMs] is answered with INVALID_SESSION_TIMEOUT.
    In both cases the coordinator the call returns is the one it was given:
    no group is created, looked up or changed. *)
Theorem C5_join_rejects_bad_parameters env c username groupId memberId
    clientId protocolType sessionTimeoutMs protocols :
  (groupId = "" →
   HandleJoinGroup env c username groupId memberId clientId protocolType
     sessionTimeoutMs protocols
   = Ret (joinErrorResp memberId INVALID_GROUP_ID, c)) ∧
  (groupId ≠ "" →
   sessionTimeoutMs < GroupMinSessionTimeoutMs (kafsarConfig c) ∨
   sessionTimeoutMs > GroupMaxSessionTimeoutMs (kafsarConfig c) →
   HandleJoinGroup env c username groupId memberId clientId protocolType
     sessionTimeoutMs protocols
   = Ret (joinErrorResp memberId INVALID_SESSION_TIMEOUT, c)).
Proof.
  unfold HandleJoinGroup, joinGroupParamsCheck. split.
  - intros ->. by rewrite bool_decide_eq_true_2.
  - intros Hne Hrange. rewrite bool_decide_eq_false_2 by done.
    assert ((sessionTimeoutMs <? GroupMinSessionTimeoutMs (kafsarConfig c))
            || (sessionTimeoutMs >? GroupMaxSessionTimeoutMs (kafsarConfig c))
            = true) as ->; [|done].
    apply orb_true_iff. destruct Hrange; [left|right]; lia.
Qed.

Lemma C5_witness :
  HandleJoinGroup (env0 "u2") stable "alice" "" "" "c" "consumer" 10000 range
    = Ret (joinErrorResp "" INVALID_GROUP_ID, stable) ∧
  HandleJoinGroup (env0 "u2") stable "alice" "g" "" "c" "consumer" 100 range
    = Ret (joinErrorResp "" INVALID_SESSION_TIMEOUT, stable).
Proof.
  split.
  - apply (C5_join_rejects_bad_parameters (env0 "u2") stable "alice" "" ""
             "c" "consumer" 10000 range). reflexivity.
  - apply (C5_join_rejects_bad_parameters (env0 "u2") stable "alice" "g" ""
             "c" "consumer" 100 range).
    + discriminate.
    + left. vm_compute. reflexivity.
Defined.

Lemma write_back_same c key g :
  groupManager c !! key = Some g →
  with_groupManager (<[key := g]> (groupManager c)) c = c.
Proof. intros Hg. rewrite insert_id by done. by destruct c. Qed.






(** C3, evaluated where it fails.  A consumer joins the Stable group of one
    member under a member id of its own that the group does not know: it is
    a new member.  It is added, the join barrier times out because the old
    member has not rejoined, the call answers
    COORDINATOR_LOAD_IN_PROGRESS, and the member the call added is still in
    the member map.  The same call with the empty member id evicts the
    member it added. *)
Theorem C3_unknown_member_id_stays_after_timeout :
  members (groupOfAlice stable) !! "ghost" = None ∧
  (∃ c', ghostJoin
         = Ret (joinErrorResp "ghost" COORDINATOR_LOAD_IN_PROGRESS, c')) ∧
  is_Some (members (groupOfAlice (after ghostJoin)) !! "ghost") ∧
  (∃ c', anonymousJoin
         = Ret (joinErrorResp "c2-u2" COORDINATOR_LOAD_IN_PROGRESS, c')) ∧
  members (groupOfAlice (after anonymousJoin)) !! "c2-u2" = None.
Proof.
  split_and!.
  - vm_compute. reflexivity.
  - eexists. vm_compute. reflexivity.
  - vm_compute. eexists. reflexivity.
  - eexists. vm_compute. reflexivity.
  - vm_compute. reflexivity.
Qed.

(** C10, evaluated where it fails.  The leader of a group in
    CompletingRebalance syncs with an assignment for a member id that is
    not in the group: the store through the absent map entry faults and
    the call returns no response. *)
Theorem C10_sync_faults_on_unknown_assignee :
  groupStatus (groupOfAlice joined) = CompletingRebalance ∧
  leader (groupOfAlice joined) = "c-u1" ∧
  is_Some (members (groupOfAlice joined) !! "c-u1") ∧
  members (groupOfAlice joined) !! "nobody" = None ∧
  HandleSyncGroup (env0 "") joined "alice" "g" "c-u1" 1
    [{| ga_MemberId := "nobody"; MemberAssignment := [] |}] = Panic.
Proof.
  split_and!; try (vm_compute; reflexivity).
  vm_compute. eexists. reflexivity.
Qed.

End CoordinatorFacts.

(** ** Facts about the data plane *)

Module BrokerFacts.

Import Broker BrokerSpec.

Section facts.
Context `{backend : Backend} `{!OffsetManager} `{server : Server}.

(** *** OffsetCommit *)

(** The walk of the handler is the walk of the specification, followed by
    one call of [CommitOffset] on the entry to persist. *)
Lemma commitWalk_commitUpTo ids i user kafkaTopic groupId partitionId O om :
  commitWalk (length ids) i (i + Z.of_nat (length ids)) user kafkaTopic
    groupId partitionId O om ids
  = match commitUpTo O ids with
    | (Some p, rest) =>
        let r := CommitOffset om (username user) kafkaTopic groupId
                   partitionId p in
        match r.1 with
        | Some _ => (UNKNOWN_SERVER_ERROR, r.2, p :: rest)
        | None => (NONE, r.2, rest)
        end
    | (None, rest) => (NONE, om, rest)
    end.
Proof.
  revert i. induction ids as [|p rest IH]; intros i; [done|].
  cbn [length commitWalk commitUpTo].
  destruct (Offset p =? O) eqn:Heq; cbn [orb]; [done|].
  destruct (Offset p <? O) eqn:Hlt; cbn [andb].
  - destruct rest as [|q rest].
    + cbn [length]. replace (i =? i + Z.of_nat 1 - 1) with true; [done|].
      symmetry. apply Z.eqb_eq. lia.
    + replace (i =? i + Z.of_nat (S (length (q :: rest))) - 1) with false
        by (symmetry; apply Z.eqb_neq; cbn [length]; lia).
      replace (Offset p >? O) with false
        by (symmetry; rewrite Z.gtb_ltb; apply Z.ltb_ge;
            apply Z.ltb_lt in Hlt; lia).
      replace (i + Z.of_nat (S (length (q :: rest))))
        with (i + 1 + Z.of_nat (length (q :: rest))) by lia.
      apply IH.
  - replace (Offset p >? O) with true; [done|].
    symmetry. rewrite Z.gtb_ltb. apply Z.ltb_lt.
    apply Z.ltb_ge in Hlt. apply Z.eqb_neq in Heq. lia.
Qed.

(** C1, as the code has it.  On an OffsetCommit for the target offset [O]
    on a (partitioned topic, client id) that has a reader, the FIFO is walked
    from the head: entries below [O] that are not the last are removed and
    not persisted; the first entry at [O], or below [O] and last, is handed
    to [CommitOffset] with its (message id, offset) pair; the walk stops
    there, and it stops at the first entry above [O], which stays in the FIFO
    with all later entries.  When [CommitOffset] succeeds the persisted entry
    is removed and the response carries NONE, as it does when nothing was to
    persist; when [CommitOffset] fails the entry stays at the head of the
    FIFO and the response carries UNKNOWN_SERVER_ERROR. *)
Theorem C1_offset_commit_walk (b : Broker) addr kafkaTopic clientID req
    user topic reader :
  userInfoManager b !! addr = Some user →
  partitionedTopic user kafkaTopic (ocr_PartitionId req) = inl topic →
  readerManager b !! (topic +:+ clientID) = Some reader →
  OffsetCommitPartition b addr kafkaTopic clientID req
  = match commitUpTo (ocr_Offset req) (messageIds reader) with
    | (Some p, rest) =>
        let r := CommitOffset (offsetManager b) (username user) kafkaTopic
                   (rm_groupId reader) (ocr_PartitionId req) p in
        match r.1 with
        | None =>
            (offsetCommitResp (ocr_PartitionId req) NONE,
             afterCommit b (topic +:+ clientID) reader r.2 rest)
        | Some _ =>
            (offsetCommitResp (ocr_PartitionId req) UNKNOWN_SERVER_ERROR,
             afterCommit b (topic +:+ clientID) reader r.2 (p :: rest))
        end
    | (None, rest) =>
        (offsetCommitResp (ocr_PartitionId req) NONE,
         afterCommit b (topic +:+ clientID) reader (offsetManager b) rest)
    end.
Proof.
  intros Huser Htopic Hreader. unfold OffsetCommitPartition.
  rewrite Huser, Htopic, Hreader.
  pose proof (commitWalk_commitUpTo (messageIds reader) 0 user kafkaTopic
                (rm_groupId reader) (ocr_PartitionId req) (ocr_Offset req)
                (offsetManager b)) as Hwalk.
  rewrite Z.add_0_l in Hwalk. rewrite Hwalk.
  destruct (commitUpTo _ _) as [[p|] rest]; [|done].
  cbn zeta. by destruct (CommitOffset _ _ _ _ _ _) as [[e|] om].
Qed.

(** *** Produce *)

(** Without a user for the address the handler takes the error branch, whose
    log call reads [user.username] through the nil pointer the map lookup
    returned. *)
Lemma Produce_without_user env (b : Broker) addr kafkaTopic partition req :
  userInfoManager b !! addr = None →
  Produce env b addr kafkaTopic partition req = Panic.
Proof. intros Hnone. unfold Produce. by rewrite Hnone. Qed.

(** C9 does not hold of the code.  A Produce from an address without a
    user in [userInfoManager] takes the error branch, and the first thing
    that branch does is to build the arguments of its log call, among them
    [user.username]; [user] is the nil pointer the map lookup returned for
    the absent key, so the call faults and no response is returned: not one
    with TOPIC_AUTHORIZATION_FAILED, and none at all. *)
Theorem C9_produce_without_user_faults env (b : Broker) addr kafkaTopic
    partition req :
  userInfoManager b !! addr = None →
  Produce env b addr kafkaTopic partition req = Panic ∧
  ∀ resp b', Produce env b addr kafkaTopic partition req ≠ Ret (resp, b').
Proof.
  intros Hnone. unfold Produce. rewrite Hnone.
  rewrite bool_decide_eq_false_2 by (by intros [? ?]).
  cbn [negb deref]. split; [done|]. by intros resp b'.
Qed.

(** *** Fetch *)

Section fetch.
Variables (cfg : KafsarConfig) (maxBytes minBytes maxWaitMs : Z).

Lemma fetchLoop_terminates ticks st e st' :
  fetchLoop cfg maxBytes minBytes maxWaitMs ticks st = Some (e, st') →
  ∃ msgs, terminates cfg maxBytes minBytes maxWaitMs ticks st e msgs st'.
Proof.
  revert st. induction ticks as [|t ticks IH]; intros st; [done|].
  cbn [fetchLoop].
  destruct (elapsedAtGuard t >=? maxWaitMs) eqn:Hdl.
  { intros [= <- <-]. eexists. apply terminates_now, leaves_deadline.
    unfold deadlineElapsed. lia. }
  destruct (Z.of_nat (length (records st)) >=? MaxFetchRecord cfg) eqn:Hcnt.
  { intros [= <- <-]. eexists. apply terminates_now, leaves_count;
      unfold deadlineElapsed, recordCountReached; lia. }
  destruct (flowControl t) eqn:Hflow; cbn [negb].
  2:{ intros [= <- <-]. eexists. apply terminates_now, leaves_flow;
        unfold deadlineElapsed, recordCountReached; (done || lia). }
  assert (reads cfg maxWaitMs t st) as Hreads.
  { unfold reads, deadlineElapsed, recordCountReached, flowQuotaDenied.
    rewrite Hflow. split_and!; (done || lia). }
  destruct (next t) as [message| |] eqn:Hnext.
  - destruct (byteLength (accept cfg message st) >? minBytes) eqn:Hmin;
      [destruct (elapsedAfterRead t >=? MinFetchWaitMs cfg) eqn:Hwait|];
      cbn [andb].
    + intros [= <- <-]. eexists.
      eapply terminates_now, leaves_minBytes; [done..|].
      unfold minBytesAfterWait. lia.
    + destruct (byteLength (accept cfg message st) >? maxBytes) eqn:Hmax.
      * intros [= <- <-]. eexists.
        eapply terminates_now, leaves_maxBytes; [done..| |];
          unfold minBytesAfterWait, maxBytesExceeded; lia.
      * intros Hloop. destruct (IH _ Hloop) as [msgs Hmsgs]. eexists.
        eapply terminates_later; [|done].
        eapply stays_message; [done..| |];
          unfold minBytesAfterWait, maxBytesExceeded; lia.
    + destruct (byteLength (accept cfg message st) >? maxBytes) eqn:Hmax.
      * intros [= <- <-]. eexists.
        eapply terminates_now, leaves_maxBytes; [done..| |];
          unfold minBytesAfterWait, maxBytesExceeded; lia.
      * intros Hloop. destruct (IH _ Hloop) as [msgs Hmsgs]. eexists.
        eapply terminates_later; [|done].
        eapply stays_message; [done..| |];
          unfold minBytesAfterWait, maxBytesExceeded; lia.
  - intros [= <- <-]. eexists.
    by eapply terminates_now, leaves_read_deadline.
  - intros Hloop. destruct (IH _ Hloop) as [msgs Hmsgs]. eexists.
    eapply terminates_later; [|done]. by eapply stays_failed.
Qed.

(** The other direction: a run the specification describes is the run of
    the loop. *)
Lemma terminates_fetchLoop ticks st e msgs st' :
  terminates cfg maxBytes minBytes maxWaitMs ticks st e msgs st' →
  fetchLoop cfg maxBytes minBytes maxWaitMs ticks st = Some (e, st').
Proof.
  assert (∀ t st0, reads cfg maxWaitMs t st0 →
            (elapsedAtGuard t >=? maxWaitMs) = false ∧
            (Z.of_nat (length (records st0)) >=? MaxFetchRecord cfg) = false ∧
            negb (flowControl t) = false) as Hreads.
  { intros t st0 (Hdl & Hcnt & Hflow).
    unfold deadlineElapsed, recordCountReached, flowQuotaDenied in *.
    split_and!; [lia|lia|by destruct (flowControl t)]. }
  induction 1 as [t ticks st e msgs st' Hleaves
                 |t ticks st msgs mid e msgs' st' Hstays Hrest IH];
    cbn [fetchLoop].
  - destruct Hleaves as [t st Hdl|t st Hdl Hcnt|t st Hdl Hcnt Hflow
                        |t st Hr Hnext|t st m Hr Hnext Hmin
                        |t st m Hr Hnext Hmin Hmax];
      unfold deadlineElapsed, recordCountReached, flowQuotaDenied,
        minBytesAfterWait, maxBytesExceeded in *.
    + by replace (elapsedAtGuard t >=? maxWaitMs) with true by lia.
    + replace (elapsedAtGuard t >=? maxWaitMs) with false by lia.
      by replace (Z.of_nat (length (records st)) >=? MaxFetchRecord cfg)
        with true by lia.
    + replace (elapsedAtGuard t >=? maxWaitMs) with false by lia.
      replace (Z.of_nat (length (records st)) >=? MaxFetchRecord cfg)
        with false by lia.
      by rewrite Hflow.
    + destruct (Hreads _ _ Hr) as (-> & -> & ->). by rewrite Hnext.
    + destruct (Hreads _ _ Hr) as (-> & -> & ->). rewrite Hnext. cbn zeta.
      by replace ((byteLength (accept cfg m st) >? minBytes)
                  && (elapsedAfterRead t >=? MinFetchWaitMs cfg))
        with true by lia.
    + destruct (Hreads _ _ Hr) as (-> & -> & ->). rewrite Hnext. cbn zeta.
      replace ((byteLength (accept cfg m st) >? minBytes)
               && (elapsedAfterRead t >=? MinFetchWaitMs cfg))
        with false by lia.
      by replace (byteLength (accept cfg m st) >? maxBytes)
        with true by lia.
  - destruct Hstays as [t st Hr Hnext|t st m Hr Hnext Hmin Hmax];
      unfold minBytesAfterWait, maxBytesExceeded in *.
    + destruct (Hreads _ _ Hr) as (-> & -> & ->). by rewrite Hnext.
    + destruct (Hreads _ _ Hr) as (-> & -> & ->). rewrite Hnext. cbn zeta.
      replace ((byteLength (accept cfg m st) >? minBytes)
               && (elapsedAfterRead t >=? MinFetchWaitMs cfg))
        with false by lia.
      by replace (byteLength (accept cfg m st) >? maxBytes)
        with false by lia.
Qed.

(** What a run accepts is what it returns and what it leaves pending: the
    batch grows by the records of the accepted messages, the FIFO by their
    (message id, offset) pairs, both in the order of acceptance. *)
Lemma terminates_accepts ticks st e msgs st' :
  terminates cfg maxBytes minBytes maxWaitMs ticks st e msgs st' →
  pending st' = (pending st ++ (pairOf cfg <$> msgs))%list ∧
  records st'
  = (records st ++ (recordOf cfg (baseOffset st') <$> msgs))%list ∧
  (fistMessage st = false → baseOffset st' = baseOffset st).
Proof.
  assert (∀ st0 m,
            pending (accept cfg m st0)
            = (pending st0 ++ [pairOf cfg m])%list ∧
            records (accept cfg m st0)
            = (records st0
               ++ [recordOf cfg (baseOffset (accept cfg m st0)) m])%list ∧
            fistMessage (accept cfg m st0) = false ∧
            (fistMessage st0 = false →
             baseOffset (accept cfg m st0) = baseOffset st0)) as Hone.
  { intros st0 m. unfold accept, pairOf, recordOf. cbn.
    split_and!; [done..|]. by intros ->. }
  induction 1 as [t ticks st e msgs st' Hleaves
                 |t ticks st msgs mid e msgs' st' Hstays Hrest IH].
  - destruct Hleaves as [| | | |t st m _ _ _|t st m _ _ _ _];
      cbn [fmap list_fmap]; rewrite ?app_nil_r; try done.
    all: destruct (Hone st m) as (? & ? & ? & ?); done.
  - destruct IH as (Hp & Hr & Hb).
    destruct Hstays as [t st _ _|t st m _ _ _ _].
    + done.
    + destruct (Hone st m) as (Hp1 & Hr1 & Hf1 & Hb1).
      specialize (Hb Hf1). rewrite Hp, Hr, Hp1, Hr1, Hb.
      cbn [app fmap list_fmap]. rewrite <- !app_assoc.
      split_and!; [done..|]. intros Hf. by apply Hb1.
Qed.

(** The record count is tested before every read, so no batch grows beyond
    [MaxFetchRecord]. *)
Lemma terminates_count ticks st e msgs st' :
  terminates cfg maxBytes minBytes maxWaitMs ticks st e msgs st' →
  Z.of_nat (length (records st'))
  ≤ Z.max (Z.of_nat (length (records st))) (MaxFetchRecord cfg).
Proof.
  assert (∀ t st0 m, reads cfg maxWaitMs t st0 →
            Z.of_nat (length (records (accept cfg m st0)))
            ≤ MaxFetchRecord cfg) as Hone.
  { intros t st0 m (_ & Hcnt & _). unfold recordCountReached in Hcnt.
    unfold accept. cbn [records]. rewrite length_app. cbn [length]. lia. }
  induction 1 as [t ticks st e msgs st' Hleaves
                 |t ticks st msgs mid e msgs' st' Hstays Hrest IH].
  - destruct Hleaves as [| | | |t st m Hr _ _|t st m Hr _ _ _];
      try lia.
    all: pose proof (Hone _ _ m Hr); lia.
  - destruct Hstays as [|t st m Hr _ _ _]; [done|].
    pose proof (Hone _ _ m Hr). lia.
Qed.

End fetch.

(** C8, as the code has it.  On a FetchPartition for a (partitioned topic,
    client id) that has a reader, the read loop returns exactly for the runs
    in which every iteration but the last stays in the loop and the last
    leaves it, where an iteration tests, in this order: at its head, whether
    the wait deadline has elapsed, then whether the record count has reached
    [MaxFetchRecord]; then whether the flow quota is denied; then it reads,
    and it leaves when the read ends with the deadline of the wait context,
    goes on to the next iteration when the read fails otherwise, and, when a
    message arrives, accepts it and leaves when the accumulated bytes exceed
    [minBytes] while the time elapsed is at least [MinFetchWaitMs], or when
    they exceed [maxBytes].  The two conditions on the bytes are tested
    only there, right after a message was accepted.  The response carries
    NONE, and every accepted message is in the returned batch and at the
    end of the reader's FIFO, in the order of acceptance, with its converted
    offset, which is the offset of the batch plus the relative offset of its
    record; the batch holds at most [MaxFetchRecord] records (none when that
    is not positive). *)
Theorem C8_fetch_partition_loop ticks (b : Broker) addr kafkaTopic clientID
    req maxBytes minBytes maxWaitMs user topic reader :
  userInfoManager b !! addr = Some user →
  partitionedTopic user kafkaTopic (fpr_PartitionId req) = inl topic →
  readerManager b !! (topic +:+ clientID) = Some reader →
  (∀ resp b',
     FetchPartition ticks b addr kafkaTopic clientID req maxBytes minBytes
       maxWaitMs = Some (resp, b') ↔
     ∃ e msgs st',
       terminates (kafsarConfig b) maxBytes minBytes maxWaitMs ticks
         (fetchStart reader) e msgs st' ∧
       resp = fetchResp (fpr_PartitionId req) NONE (baseOffset st')
                (records st') ∧
       b' = afterFetch b (topic +:+ clientID) reader (pending st')) ∧
  (∀ e msgs st',
     terminates (kafsarConfig b) maxBytes minBytes maxWaitMs ticks
       (fetchStart reader) e msgs st' →
     records st' = recordOf (kafsarConfig b) (baseOffset st') <$> msgs ∧
     pending st'
     = (messageIds reader ++ (pairOf (kafsarConfig b) <$> msgs))%list ∧
     Forall2 (λ r p, Offset p = baseOffset st' + RelativeOffset r)
       (records st') (pairOf (kafsarConfig b) <$> msgs) ∧
     Z.of_nat (length (records st'))
     ≤ Z.max 0 (MaxFetchRecord (kafsarConfig b))).
Proof.
  intros Huser Htopic Hreader. split.
  - intros resp b'. unfold FetchPartition.
    rewrite Huser, Htopic, Hreader.
    change {| byteLength := 0; baseOffset := 0; fistMessage := true;
              records := []; pending := messageIds reader |}
      with (fetchStart reader).
    split.
    + destruct (fetchLoop _ _ _ _ _ _) as [[e st']|] eqn:Hloop; [|done].
      intros [= <- <-].
      destruct (fetchLoop_terminates _ _ _ _ _ _ _ _ Hloop) as [msgs Hmsgs].
      by exists e, msgs, st'.
    + intros (e & msgs & st' & Hrun & -> & ->).
      by rewrite (terminates_fetchLoop _ _ _ _ _ _ _ _ _ Hrun).
  - intros e msgs st' Hrun.
    destruct (terminates_accepts _ _ _ _ _ _ _ _ _ Hrun) as (Hp & Hr & _).
    pose proof (terminates_count _ _ _ _ _ _ _ _ _ Hrun) as Hcount.
    cbn [fetchStart pending records app length Z.of_nat] in Hp, Hr, Hcount.
    split_and!; [done|done| |done].
    rewrite Hr. clear. induction msgs as [|m msgs IH]; cbn.
    + constructor.
    + constructor; [|done]. cbn. lia.
Qed.

End facts.

(** C1 as stated fails: with an offset manager whose commit fails, the
    OffsetCommit for offset 5 on a reader whose FIFO starts with the entry
    at offset 5 is answered with UNKNOWN_SERVER_ERROR, not NONE, and the
    entry is not removed. *)
Lemma C1_counterexample :
  let r := OffsetCommitPartition (server := ItKafsaImpl)
             (brokerWith (om := unavailable) tt) "10.0.0.1:4242" "t" "c"
             (commitReq 5) in
  oc_ErrorCode r.1 = UNKNOWN_SERVER_ERROR ∧
  oc_ErrorCode r.1 ≠ NONE ∧
  messageIds <$> (readerManager r.2
                    !! "persistent://public/default/t-partition-0c")
  = Some [pair 5; pair 7; pair 9].
Proof. vm_compute. split_and!; [reflexivity|discriminate|reflexivity]. Qed.

Lemma C1_witness :
  let r := OffsetCommitPartition (server := ItKafsaImpl)
             (brokerWith (om := recording) []) "10.0.0.1:4242" "t" "c"
             (commitReq 7) in
  oc_ErrorCode r.1 = NONE ∧
  offsetManager r.2 = [("alice", "t", "g", 0, pair 7)] ∧
  messageIds <$> (readerManager r.2
                    !! "persistent://public/default/t-partition-0c")
  = Some [pair 9].
Proof.
  cbn zeta.
  rewrite (C1_offset_commit_walk (server := ItKafsaImpl)
             (brokerWith (om := recording) []) "10.0.0.1:4242" "t" "c"
             (commitReq 7) {| username := "alice"; ui_clientId := "c" |}
             "persistent://public/default/t-partition-0"
             {| rm_groupId := "g"; messageIds := [pair 5; pair 7; pair 9] |});
    [|vm_compute; reflexivity..].
  vm_compute. split_and!; reflexivity.
Defined.

(** A fetch with [maxBytes] 1000, [minBytes] 1 and [maxWaitMs] 500 under
    [cfg0], whose [MinFetchWaitMs] is 10: a message of two bytes arrives
    after 5 ms, then the reads fail (at 20 ms and at 40 ms). *)
Definition earlyMessage : list (@FetchTick numbered) :=
  [{| elapsedAtGuard := 0; flowControl := true;
      next := ReadMessage (message 11); elapsedAfterRead := 5 |};
   {| elapsedAtGuard := 20; flowControl := true; next := ReadFailed;
      elapsedAfterRead := 21 |};
   {| elapsedAtGuard := 40; flowControl := true; next := ReadFailed;
      elapsedAfterRead := 41 |}].

Definition fetchReq : FetchPartitionReq := {| fpr_PartitionId := 0 |}.

(** C8 as stated fails: the loop does not leave as soon as one of the five
    conditions holds.  After the first iteration of [earlyMessage] the
    accumulated bytes (2) exceed [minBytes] (1); the condition on them was
    tested right after the message was accepted, 5 ms into the call, and
    failed on the time.  From 10 ms on the bytes exceed [minBytes] while the
    elapsed time is at least [MinFetchWaitMs], and so it is in the second and
    third iteration, at 20 ms and 40 ms; but their reads fail, the condition
    is not tested again, and the loop is still running after them; it runs
    until the deadline at 500 ms. *)
Lemma C8_counterexample :
  let b := brokerWith (om := recording) [] in
  let st1 := accept CoordinatorSpec.cfg0 (message 11)
               (fetchStart
                  {| rm_groupId := "g";
                     messageIds := [pair 5; pair 7; pair 9] |}) in
  FetchPartition (server := ItKafsaImpl) earlyMessage b "10.0.0.1:4242" "t"
    "c" fetchReq 1000 1 500 = None ∧
  minBytesAfterWait CoordinatorSpec.cfg0 1 st1 20 ∧ minBytesAfterWait CoordinatorSpec.cfg0 1 st1 40 ∧
  ¬ deadlineElapsed 500 40 ∧ ¬ recordCountReached CoordinatorSpec.cfg0 st1 ∧
  ¬ maxBytesExceeded 1000 st1 ∧
  ∃ resp b',
    FetchPartition (server := ItKafsaImpl)
      (earlyMessage ++ [tick 500 12])%list b "10.0.0.1:4242" "t" "c"
      fetchReq 1000 1 500 = Some (resp, b') ∧
    length (Records (fp_RecordBatch resp)) = 1%nat.
Proof.
  cbn zeta. split_and!.
  - vm_compute. reflexivity.
  - split; vm_compute; [reflexivity|discriminate].
  - split; vm_compute; [reflexivity|discriminate].
  - vm_compute. intros H. by apply H.
  - vm_compute. intros H. by apply H.
  - vm_compute. discriminate.
  - eexists _, _. split; vm_compute; reflexivity.
Qed.

Lemma C8_witness :
  let b := brokerWith (om := recording) [] in
  let reader := {| rm_groupId := "g";
                   messageIds := [pair 5; pair 7; pair 9] |} in
  let ticks := [tick 0 11; tick 20 12] in
  (∀ resp b',
     FetchPartition (server := ItKafsaImpl) ticks b "10.0.0.1:4242" "t" "c"
       fetchReq 1000 1 500 = Some (resp, b') ↔
     ∃ e msgs st',
       terminates (kafsarConfig b) 1000 1 500 ticks (fetchStart reader) e
         msgs st' ∧
       resp = fetchResp (fpr_PartitionId fetchReq) NONE (baseOffset st')
                (records st') ∧
       b' = afterFetch b
              ("persistent://public/default/t-partition-0" +:+ "c") reader
              (pending st')) ∧
  (∀ e msgs st',
     terminates (kafsarConfig b) 1000 1 500 ticks (fetchStart reader) e
       msgs st' →
     records st' = recordOf (kafsarConfig b) (baseOffset st') <$> msgs ∧
     pending st'
     = (messageIds reader ++ (pairOf (kafsarConfig b) <$> msgs))%list ∧
     Forall2 (λ r p, Offset p = baseOffset st' + RelativeOffset r)
       (records st') (pairOf (kafsarConfig b) <$> msgs) ∧
     Z.of_nat (length (records st'))
     ≤ Z.max 0 (MaxFetchRecord (kafsarConfig b))).
Proof.
  cbn zeta.
  apply (C8_fetch_partition_loop (server := ItKafsaImpl)
           [tick 0 11; tick 20 12] (brokerWith (om := recording) [])
           "10.0.0.1:4242" "t" "c" fetchReq 1000 1 500
           {| username := "alice"; ui_clientId := "c" |}
           "persistent://public/default/t-partition-0"
           {| rm_groupId := "g"; messageIds := [pair 5; pair 7; pair 9] |}).
  - vm_compute. reflexivity.
  - vm_compute. reflexivity.
  - vm_compute. reflexivity.
Defined.

(** A Produce from an address nobody authenticated on. *)
Definition noAcks : @ProduceEnv numbered :=
  @Build_ProduceEnv numbered None ([] : list Z).

Lemma C9_witness :
  let b := brokerWith (om := recording) [] in
  let req := {| pr_Records := [] |} in
  Produce (server := ItKafsaImpl) noAcks b "10.9.9.9:1" "t" 0 req = Panic ∧
  ∀ resp b',
    Produce (server := ItKafsaImpl) noAcks b "10.9.9.9:1" "t" 0 req
    ≠ Ret (resp, b').
Proof.
  cbn zeta.
  apply (C9_produce_without_user_faults (server := ItKafsaImpl) noAcks
           (brokerWith (om := recording) []) "10.9.9.9:1" "t" 0
           {| pr_Records := [] |}).
  vm_compute. reflexivity.
Defined.

End BrokerFacts.

(** ** More about the coordinator: invariants, answers and round trips *)

Module CoordinatorMore.

Import GroupCoordinator CoordinatorSpec CoordinatorFacts.
Local Open Scope go_scope.

(** *** What a JoinGroup call keeps *)

Lemma doRebalance_frame env g :
  post (doRebalance env)
    (λ _ g', members g' = members g ∧
             (canRebalance g = true → canRebalance g' = true) ∧
             (groupStatus g' = PreparingRebalance ∨
              groupStatus g' = CompletingRebalance)) g.
Proof.
  unfold doRebalance. go; [by auto|].
  go_with awaitingRebalance_post. destruct H as [-> _]. cbn.
  split_and!; [done|congruence|by left].
Qed.

(** What admitting a member under the id [id] does. *)
Definition admission (id : string) (g g' : Group) : Prop :=
  dom (members g') = {[id]} ∪ dom (members g) ∧
  (canRebalance g = true → canRebalance g' = true) ∧
  (groupStatus g' = PreparingRebalance ∨
   groupStatus g' = CompletingRebalance).

Lemma addMemberAndRebalance_frame env clientId memberId protocolType
    protocols g :
  post (addMemberAndRebalance env clientId memberId protocolType protocols)
    (λ r g', r.1 = admittedId env clientId memberId ∧
             admission (admittedId env clientId memberId) g g') g.
Proof.
  unfold addMemberAndRebalance, vote, admission, admittedId.
  go; destruct protocols; go.
  all: go_with doRebalance_frame; go; cbn in *.
  all: destruct H as (-> & Hcan & Hs); by rewrite dom_insert_L.
Qed.

Lemma addNewMemberAndReBalance_frame env clientId memberId protocolType
    protocols g :
  post (addNewMemberAndReBalance env clientId memberId protocolType protocols)
    (λ r g', (r.2 ≠ None ∧ r.1 = memberId ∧ g' = g) ∨
             (r.1 = admittedId env clientId memberId ∧
              admission (admittedId env clientId memberId) g g')) g.
Proof.
  unfold addNewMemberAndReBalance. go.
  - go_with awaitingRebalance_post. destruct H as [-> Hnone].
    destruct a as [msg|]; go; [by left|].
    go_with addMemberAndRebalance_frame. by right.
  - go_with addMemberAndRebalance_frame. by right.
Qed.

(** On success of the join barrier every member has joined the current
    generation. *)
Lemma awaitingJoin_frame ticks memberId g :
  post (awaitingJoin ticks memberId)
    (λ err g',
       canRebalance g' = canRebalance g ∧
       (err = None →
          map_Forall (λ _ m, joinGenerationId m = generationId g')
            (members g'))) g.
Proof.
  revert g. induction ticks as [|ticks IH]; intros g;
    cbn [awaitingJoin]; go.
  all: destruct (members g !! memberId) as [cur|] eqn:Hcur; go.
  all: cbn in *.
  all: try (go_with IH; cbn in *; by destruct_and?).
  all: split; [done|]; try done.
  all: intros _; by apply bool_decide_eq_true in Heqb0.
Qed.

Lemma post_and {A} (m : M A) (Q1 Q2 : A → Group → Prop) g :
  post m Q1 g → post m Q2 g → post m (λ a g', Q1 a g' ∧ Q2 a g') g.
Proof. unfold post. destruct (m g) as [[a g']| |]; auto. Qed.

(** What one JoinGroup call keeps of the group it joins: the rebalance latch
    is released again; the status is that of a rebalance unless status and
    member ids are the old ones; at most the caller's id is new. *)
Definition joinFrame (env : Env) (clientId memberId : string) (g g' : Group)
  : Prop :=
  (canRebalance g = true → canRebalance g' = true) ∧
  ((groupStatus g' = PreparingRebalance ∨
    groupStatus g' = CompletingRebalance) ∨
   (groupStatus g' = groupStatus g ∧
    dom (members g') = dom (members g))) ∧
  dom (members g') ⊆ {[admittedId env clientId memberId]} ∪ dom (members g).

Ltac frame_prep :=
  unfold joinFrame, admission, admitted in *;
  repeat match goal with
    | a : (_ * _)%type |- _ => destruct a
    end;
  cbn [fst snd] in *;
  repeat match goal with
    | H : _ ∧ _ |- _ => destruct H
    | H : Some _ = None → _ |- _ => clear H
    | H : None ≠ None → _ |- _ => clear H
    | H : None = None → _ |- _ => specialize (H eq_refl)
    | H : Some ?e ≠ None → _ |- _ =>
        let P := fresh in
        assert (P : Some e ≠ None) by done; specialize (H P); clear P
    | H : None ≠ None |- _ => by destruct H
    | H : _ ∨ _ |- _ => destruct H
    end; subst; cbn [members leader groupStatus generationId canRebalance
                     with_leader with_members with_groupStatus] in *;
  rewrite ?dom_delete_L in *.

Ltac frame_absorb :=
  repeat match goal with
    | H : dom (members ?x) = _ |- _ => is_var x; absorb_eq (dom (members x))
    | H : members ?x = _ |- _ => is_var x; absorb_eq (members x)
    | H : canRebalance ?x = canRebalance _ |- _ =>
        is_var x; absorb_eq (canRebalance x)
    | H : groupStatus ?x = _ |- _ => is_var x; absorb_eq (groupStatus x)
    end.

Ltac frame_leaf :=
  frame_prep; frame_absorb;
  (split_and!;
    [ intuition congruence
    | first [ by left; left | by left; right | by right
            | right; split; [done|set_solver] ]
    | set_solver ]).

Ltac go_join :=
  first
    [ eapply post_mono;
        [apply post_and;
           [apply addNewMemberAndReBalance_post
           |apply addNewMemberAndReBalance_frame]
        |cbn beta; intros]
    | eapply post_mono;
        [apply post_and; [apply awaitingJoin_post|apply awaitingJoin_frame]
        |cbn beta; intros]
    | go_with doRebalance_frame
    | go_with getLeaderMembers_post ].

Lemma joinPreparingRebalance_frame env clientId memberId protocolType
    protocols g :
  post (joinPreparingRebalance env (bool_decide (memberId = EmptyMemberId))
          clientId memberId protocolType protocols)
    (λ _ g', joinFrame env clientId memberId g g') g.
Proof.
  unfold joinPreparingRebalance, joinResp.
  repeat first [progress go | go_join].
  all: frame_leaf.
Qed.

Lemma joinEmptyOrStable_frame env clientId memberId protocolType
    protocols g :
  post (joinEmptyOrStable env (bool_decide (memberId = EmptyMemberId))
          clientId memberId protocolType protocols)
    (λ _ g', joinFrame env clientId memberId g g') g.
Proof.
  unfold joinEmptyOrStable, updateMemberAndRebalance, joinResp.
  repeat first [progress go | go_join].
  all: frame_leaf.
Qed.

Lemma joinCompletingRebalance_frame env clientId memberId protocolType
    protocols g :
  post (joinCompletingRebalance env (bool_decide (memberId = EmptyMemberId))
          clientId memberId protocolType protocols)
    (λ _ g', joinFrame env clientId memberId g g') g.
Proof.
  unfold joinCompletingRebalance, updateMemberAndRebalance, joinResp.
  repeat first [progress go | go_join].
  all: frame_leaf.
Qed.

Lemma joinFrame_refl env clientId memberId g :
  joinFrame env clientId memberId g g.
Proof. unfold joinFrame. split_and!; [done|by right|set_solver]. Qed.

(** The member count a JoinGroup call is admitted under. *)
Definition underCapacity (cfg : KafsarConfig) (g : Group) : Prop :=
  0 < MaxConsumersPerGroup cfg →
  Z.of_nat (size (members g)) < MaxConsumersPerGroup cfg.

Lemma joinGroup_frame cfg env memberId clientId protocolType protocols g :
  post (joinGroup cfg env memberId clientId protocolType protocols)
    (λ _ g', joinFrame env clientId memberId g g' ∧
             (g' = g ∨ underCapacity cfg g)) g.
Proof.
  unfold joinGroup. go.
  go_with joinGroupProtocolCheck_post. subst g'.
  destruct a as [code [e|]]; go;
    try (split; [apply joinFrame_refl|by left]).
  all: assert (underCapacity cfg g) as Hcap
    by (intros Hpos; apply andb_false_iff in Heqb as [Hb|Hb]; lia).
  all: eapply post_mono;
    [|intros ? ? Hf; split; [exact Hf|by right]].
  all: first
    [ apply joinPreparingRebalance_frame
    | apply joinEmptyOrStable_frame
    | apply joinCompletingRebalance_frame ].
Qed.

(** *** What SyncGroup and LeaveGroup keep *)

Lemma storeAssignments_latch groupAssignments g :
  post (storeAssignments groupAssignments)
    (λ _ g', canRebalance g' = canRebalance g) g.
Proof.
  revert g. induction groupAssignments as [|a rest IH]; intros g;
    cbn [storeAssignments]; go; [done|].
  unfold storeAssignment. go.
  destruct (members g !! ga_MemberId a) as [m|] eqn:Hm; go.
  by go_with IH.
Qed.

Lemma syncGroup_latch env memberId groupAssignments g :
  post (syncGroup env memberId groupAssignments)
    (λ _ g', canRebalance g' = canRebalance g) g.
Proof.
  unfold syncGroup, syncCompletingRebalance.
  repeat first
    [ progress go
    | go_with storeAssignments_latch
    | go_with awaitingSync_post
    | go_with curMemberField_post ].
  all: subst; cbn in *; congruence.
Qed.

Lemma leaveGroup_latch ms g :
  post (leaveGroup ms) (λ _ g', canRebalance g' = canRebalance g) g.
Proof.
  assert (∀ g, post (leaveMembers ms)
                 (λ _ g', canRebalance g' = canRebalance g) g) as Hms.
  { induction ms as [|m ms IH]; intros g0; cbn [leaveMembers]; go; [done|..].
    all: unfold leaveMember; go; by go_with IH. }
  unfold leaveGroup. go. go_with Hms. by go.
Qed.

(** What a call keeps of the group it addresses, beside [groupEffect]. *)
Definition groupFrame (cfg : KafsarConfig) (call : Call) (g g' : Group)
  : Prop :=
  match call with
  | JoinGroup env _ _ memberId clientId _ _ _ =>
      joinFrame env clientId memberId g g' ∧ (g' = g ∨ underCapacity cfg g)
  | Heartbeat _ _ _ => g' = g
  | SyncGroup _ _ _ _ _ _ | LeaveGroup _ _ _ =>
      canRebalance g' = canRebalance g
  end.

Lemma handle_frame c call c' :
  handle c call = Ret c' →
  c' = c ∨
  ∃ g g',
    (groupManager c !! callKey call = Some g ∨
     groupManager c !! callKey call = None ∧ created g) ∧
    groupManager c' = <[callKey call := g']> (groupManager c) ∧
    groupEffect call g g' ∧ groupFrame (kafsarConfig c) call g g'.
Proof.
  destruct call as [env user gid mid0 cid pt st ps|env user gid mid0 gen gas
                   |user gid mid0|user gid ms];
    cbn [handle callKey groupEffect groupFrame].
  - unfold HandleJoinGroup, joinGroupParamsCheck.
    case_bool_decide; cbn [fst snd]; [intros [= <-]; by auto|].
    destruct (_ || _); cbn [fst snd]; [intros [= <-]; by auto|].
    destruct (onGroup _ _ _ _) as [[resp c'']| |] eqn:Hon; [|done..].
    intros [= ->]. apply onGroup_ret in Hon as (g' & Hbody & ->).
    right.
    pose proof (post_ret_inv _ _ _ _ _ (joinGroup_post _ _ _ _ _ _ _) Hbody)
      as Heff.
    pose proof (post_ret_inv _ _ _ _ _ (joinGroup_frame _ _ _ _ _ _ _) Hbody)
      as Hfr.
    destruct (groupManager c !! (user +:+ gid)) as [g|] eqn:Hg.
    + eexists g, g'. split; [by left|]. split; [done|]. by split.
    + eexists _, g'.
      split; [right; split; [done|by eexists _, _, _]|].
      split; [done|]. by split.
  - unfold HandleSyncGroup.
    destruct (syncGroupParamsCheck _ _) as [code [e|]];
      cbn [fst snd]; [intros [= <-]; by auto|].
    destruct (groupManager c !! (user +:+ gid)) as [g|] eqn:Hg;
      [|intros [= <-]; by auto].
    destruct (onGroup _ _ _ _) as [[resp c'']| |] eqn:Hon; [|done..].
    intros [= ->]. apply onGroup_ret in Hon as (g' & Hbody & ->).
    right. eexists g, g'. split_and!; [by left|done|..].
    + by eapply (post_ret_inv _ _ _ _ _ (syncGroup_post _ _ _ _)).
    + by eapply (post_ret_inv _ _ _ _ _ (syncGroup_latch _ _ _ _)).
  - intros [= <-]. by auto.
  - unfold HandleLeaveGroup. case_bool_decide; [intros [= <-]; by auto|].
    destruct (groupManager c !! (user +:+ gid)) as [g|] eqn:Hg;
      [|intros [= <-]; by auto].
    destruct (onGroup _ _ _ _) as [[resp c'']| |] eqn:Hon; [|done..].
    intros [= ->]. apply onGroup_ret in Hon as (g' & Hbody & ->).
    right. eexists g, g'.
    split; [by left|split; [done|split]].
    + by destruct (post_ret_inv _ _ _ _ _ (leaveGroup_post _ _) Hbody)
        as (_ & ? & ? & ? & ?).
    + by eapply (post_ret_inv _ _ _ _ _ (leaveGroup_latch _ _)).
Qed.

(** *** The shape of every group between calls *)

(** The rebalance latch is released; the group is not Dead; it is Empty
    exactly when it has no member; it holds no more members than
    [MaxConsumersPerGroup] allows, if that is set; its generation is not
    negative. *)
Definition wellFormed (cfg : KafsarConfig) (g : Group) : Prop :=
  canRebalance g = true ∧
  groupStatus g ≠ Dead ∧
  (groupStatus g = Empty ↔ members g = ∅) ∧
  (0 < MaxConsumersPerGroup cfg →
   Z.of_nat (size (members g)) ≤ MaxConsumersPerGroup cfg) ∧
  0 ≤ generationId g.

Lemma created_wellFormed cfg g : created g → wellFormed cfg g.
Proof.
  intros (? & ? & ? & ->). unfold wellFormed. cbn.
  split_and!; try done. rewrite map_size_empty. lia.
Qed.

Lemma size_insert_one (id : string) (D D' : gset string) :
  D' ⊆ {[id]} ∪ D → (size D' ≤ S (size D))%nat.
Proof.
  intros Hsub. apply subseteq_size in Hsub.
  rewrite size_union_alt, size_singleton in Hsub.
  assert (size (D ∖ {[id]}) ≤ size D)%nat by (apply subseteq_size; set_solver).
  lia.
Qed.

Lemma groupStep_wellFormed cfg call g g' :
  groupEffect call g g' → groupFrame cfg call g g' →
  wellFormed cfg g → wellFormed cfg g'.
Proof.
  intros Heff Hfr (Hlatch & Hdead & Hempty & Hcap & Hgen).
  assert (emptyMeansEmpty g') as Hinv.
  { eapply groupEffect_emptyMeansEmpty; [done|]. intros ?. left.
    by apply Hempty. }
  pose proof (groupEffect_generation _ _ _ Heff) as Hg.
  unfold wellFormed.
  destruct call as [env user gid mid0 cid pt st ps|env user gid mid0 gen gas
                   |user gid mid0|user gid ms];
    cbn [groupEffect groupFrame] in *.
  - destruct Hfr as [(Hl & Hst & Hdom) Hsame].
    assert (groupStatus g' ≠ Dead) as Hd'.
    { destruct Hst as [[Hs|Hs]|[Hs _]]; congruence. }
    split_and!; [by auto|done| | |lia].
    + split; [|intros He; by destruct (Hinv He)].
      intros He. destruct Hst as [[Hs|Hs]|[Hs Hd]]; [congruence..|].
      apply dom_empty_iff_L. rewrite Hd. apply dom_empty_iff_L, Hempty.
      congruence.
    + intros Hpos. destruct Hsame as [->|Hunder]; [by apply Hcap|].
      specialize (Hunder Hpos). apply size_insert_one in Hdom.
      rewrite !size_dom in Hdom. lia.
  - destruct Heff as (_ & _ & Hdom & Hst).
    assert (size (members g') = size (members g)) as Hsize
      by (by rewrite <- !size_dom, Hdom).
    split_and!; [congruence| | |by rewrite Hsize|lia].
    + destruct Hst as [->|[-> _]]; done.
    + split; [|intros He; destruct (Hinv He); [done|]].
      * intros He. destruct Hst as [Hs|[Hs _]]; [|congruence].
        apply dom_empty_iff_L. rewrite Hdom. apply dom_empty_iff_L, Hempty.
        congruence.
      * destruct Hst as [Hs|[Hs _]]; congruence.
  - by subst.
  - destruct Heff as (Hm & _ & _ & Hs).
    split_and!; [congruence| | | |lia].
    + rewrite Hs. by case_bool_decide.
    + rewrite Hs. case_bool_decide; naive_solver.
    + intros Hpos. specialize (Hcap Hpos).
      assert (dom (members g') ⊆ dom (members g)) as Hsub.
      { intros k. rewrite !elem_of_dom, Hm, lookup_foldr_delete.
        destruct (bool_decide (k ∈ leaving ms)); [by intros [??]|done]. }
      apply subseteq_size in Hsub. rewrite !size_dom in Hsub. lia.
Qed.

Lemma handle_wellFormed c call c' :
  handle c call = Ret c' →
  allGroups (wellFormed (kafsarConfig c)) c →
  allGroups (wellFormed (kafsarConfig c')) c'.
Proof.
  intros Hcall Hinv key g' Hg'.
  destruct (handle_effect _ _ _ Hcall) as [-> _].
  destruct (handle_frame _ _ _ Hcall)
    as [->|(g & g1 & Hg & Hgm & Heff & Hfr)]; [by eapply Hinv|].
  rewrite Hgm in Hg'.
  destruct (decide (callKey call = key)) as [<-|Hne].
  - rewrite lookup_insert_eq in Hg'. simplify_eq.
    eapply groupStep_wellFormed; [done..|].
    destruct Hg as [Hg|[_ Hg]]; [by eapply Hinv|].
    by apply created_wellFormed.
  - rewrite lookup_insert_ne in Hg' by done. by eapply Hinv.
Qed.

Lemma run_wellFormed calls c c' :
  run c calls = Ret c' →
  allGroups (wellFormed (kafsarConfig c)) c →
  allGroups (wellFormed (kafsarConfig c')) c'.
Proof.
  revert c. induction calls as [|call calls IH]; intros c; cbn.
  - by intros [= ->].
  - destruct (handle c call) as [c1| |] eqn:Hcall; [|done..].
    intros Hrun Hinv. eapply IH; [done|].
    by eapply handle_wellFormed.
Qed.

Lemma reachable_wellFormed c :
  reachable c → allGroups (wellFormed (kafsarConfig c)) c.
Proof.
  intros (cfg & calls & Hrun). eapply run_wellFormed; [done|].
  intros k g. cbn. by rewrite lookup_empty.
Qed.

(** *** Invariants of reachable coordinators *)

(** X1.  Between calls the rebalance latch of every group is released:
    [canRebalance] is true in every group of every coordinator that a
    sequence of calls reaches from a fresh one.  So a call that enters
    [doRebalance] always drives the rebalance itself. *)
Theorem X1_latch_released_between_calls c key g :
  reachable c →
  groupManager c !! key = Some g →
  canRebalance g = true.
Proof. intros Hc Hg. by destruct (reachable_wellFormed c Hc key g Hg). Qed.

Lemma X1_witness : canRebalance (groupOfAlice stable) = true.
Proof.
  apply (X1_latch_released_between_calls stable "aliceg").
  - exists cfg0, stableCalls. vm_compute. reflexivity.
  - vm_compute. reflexivity.
Defined.


(** X2.  No call makes a group Dead, and no call makes a generation
    negative: in every reachable coordinator the status of a group is one
    of Empty, PreparingRebalance, CompletingRebalance and Stable, and its
    generation is at least 0.  The handlers never write the status Dead
    and only ever add one to the generation, so this does not depend on
    how calls follow each other. *)
Theorem X2_group_never_dead c key g :
  reachable c →
  groupManager c !! key = Some g →
  groupStatus g ≠ Dead ∧ 0 ≤ generationId g.
Proof.
  intros Hc Hg.
  by destruct (reachable_wellFormed c Hc key g Hg) as (_ & ? & _ & _ & ?).
Qed.

Lemma X2_witness :
  groupStatus (groupOfAlice vacated) ≠ Dead ∧
  0 ≤ generationId (groupOfAlice vacated).
Proof.
  apply (X2_group_never_dead vacated "aliceg").
  - exists cfg0, (stableCalls ++ [leaveAll])%list. vm_compute. reflexivity.
  - vm_compute. reflexivity.
Defined.

(** A configuration that admits one consumer per group, and the coordinator
    the two calls of [stableCalls] reach under it. *)
Definition cfgOne : KafsarConfig :=
  {| GroupMinSessionTimeoutMs := 6000; GroupMaxSessionTimeoutMs := 30000;
     MaxConsumersPerGroup := 1; RebalanceTickMs := 50;
     InitialDelayedJoinMs := 500; MaxFetchRecord := 2; MinFetchWaitMs := 10;
     MaxFetchWaitMs := 500; ContinuousOffset := false |}.

Definition stableOne : GroupCoordinatorStandalone :=
  match run (NewGroupCoordinatorStandalone cfgOne) stableCalls with
  | Ret c => c
  | _ => NewGroupCoordinatorStandalone cfgOne
  end.

(** X3.  The two checks of JoinGroup on a group that is not Empty, in
    their order.  A call with a protocol type other than the group's is
    answered INCONSISTENT_GROUP_PROTOCOL, whatever the member count.  A call
    with the group's protocol type that finds [MaxConsumersPerGroup]
    (positive) or more members is answered GROUP_MAX_SIZE_REACHED, also
    when the member id it sends is that of a member of the group.  Both
    answers carry the member id as sent and leave the coordinator as it
    is. *)
Theorem X3_join_fast_fails env c username groupId memberId clientId ptype
    sessionTimeoutMs protocols g :
  groupId ≠ "" →
  GroupMinSessionTimeoutMs (kafsarConfig c) ≤ sessionTimeoutMs
    ≤ GroupMaxSessionTimeoutMs (kafsarConfig c) →
  groupManager c !! (username +:+ groupId) = Some g →
  groupStatus g ≠ Empty →
  let join := HandleJoinGroup env c username groupId memberId clientId ptype
                sessionTimeoutMs protocols in
  (protocolType g ≠ ptype →
   join = Ret (joinErrorResp memberId INCONSISTENT_GROUP_PROTOCOL, c)) ∧
  (protocolType g = ptype →
   0 < MaxConsumersPerGroup (kafsarConfig c) →
   MaxConsumersPerGroup (kafsarConfig c) ≤ Z.of_nat (size (members g)) →
   join = Ret (joinErrorResp memberId GROUP_MAX_SIZE_REACHED, c)).
Proof.
  intros Hgid Hst Hg Hs. cbn zeta.
  unfold HandleJoinGroup, joinGroupParamsCheck.
  rewrite bool_decide_eq_false_2 by done. cbn [fst snd].
  replace (sessionTimeoutMs <? GroupMinSessionTimeoutMs (kafsarConfig c))
    with false by lia.
  replace (sessionTimeoutMs >? GroupMaxSessionTimeoutMs (kafsarConfig c))
    with false by lia.
  cbn [orb fst snd]. rewrite Hg.
  unfold onGroup, joinGroup, joinGroupProtocolCheck.
  unfold bind, getGroupStatus, getGroupMembersLen, gets, ret.
  rewrite (bool_decide_eq_false_2 (groupStatus g = Empty)) by done.
  cbn [negb andb]. split.
  - intros Hpt. rewrite (bool_decide_eq_false_2 (protocolType g = ptype))
      by done.
    cbn [negb snd fst]. unfold Errorf. cbn beta iota.
    by rewrite write_back_same.
  - intros Hpt Hpos Hfull.
    rewrite (bool_decide_eq_true_2 (protocolType g = ptype)) by done.
    cbn [negb andb snd fst supportsProtocols].
    rewrite (bool_decide_eq_false_2 (groupStatus g = Empty)) by done.
    cbn [negb andb snd fst]. unfold Errorf. cbn beta iota.
    replace (MaxConsumersPerGroup (kafsarConfig c) >? 0) with true by lia.
    replace (Z.of_nat (size (members g))
             >=? MaxConsumersPerGroup (kafsarConfig c)) with true by lia.
    cbn [andb]. by rewrite write_back_same.
Qed.

Lemma X3_witness :
  let join := HandleJoinGroup (env0 "u2") stableOne "alice" "g" "c-u1" "c"
                "consumer" 10000 range in
  (protocolType (groupOfAlice stableOne) ≠ "consumer" →
   join = Ret (joinErrorResp "c-u1" INCONSISTENT_GROUP_PROTOCOL, stableOne)) ∧
  (protocolType (groupOfAlice stableOne) = "consumer" →
   0 < MaxConsumersPerGroup (kafsarConfig stableOne) →
   MaxConsumersPerGroup (kafsarConfig stableOne)
   ≤ Z.of_nat (size (members (groupOfAlice stableOne))) →
   join = Ret (joinErrorResp "c-u1" GROUP_MAX_SIZE_REACHED, stableOne)).
Proof.
  apply (X3_join_fast_fails (env0 "u2") stableOne "alice" "g" "c-u1" "c"
           "consumer" 10000 range (groupOfAlice stableOne)).
  - done.
  - vm_compute. split; discriminate.
  - vm_compute. reflexivity.
  - vm_compute. discriminate.
Defined.

(** *** Heartbeat *)

(** X4.  The answers of Heartbeat, for every coordinator.  The answer is
    INVALID_GROUP_ID exactly when the group id is empty.  It is NONE exactly
    when the group id is not empty, the group exists, the member is in it
    and the status of the group is Stable or Empty.  In every other case
    (unknown group, unknown member, or a status of PreparingRebalance,
    CompletingRebalance or Dead) it is REBALANCE_IN_PROGRESS.  The
    coordinator is not changed. *)
Theorem X4_heartbeat_answers c username groupId memberId :
  let code := hb_ErrorCode (HandleHeartBeat c username groupId memberId) in
  (code = INVALID_GROUP_ID ↔ groupId = "") ∧
  (code = NONE ↔
   groupId ≠ "" ∧
   ∃ g, groupManager c !! (username +:+ groupId) = Some g ∧
        is_Some (members g !! memberId) ∧
        (groupStatus g = Stable ∨ groupStatus g = Empty)) ∧
  (code = NONE ∨ code = INVALID_GROUP_ID ∨ code = REBALANCE_IN_PROGRESS).
Proof.
  cbn zeta. unfold HandleHeartBeat.
  case_bool_decide as Hgid; cbn.
  { split_and!; [done|split; [done|by intros [? _]]|by right; left]. }
  destruct (groupManager c !! (username +:+ groupId)) as [g|] eqn:Hg; cbn.
  2:{ split_and!; [split; done|split; [done|]|by right; right].
      by intros (_ & g0 & ? & _). }
  destruct (members g !! memberId) as [m|] eqn:Hm; cbn.
  2:{ split_and!; [split; done|split; [done|]|by right; right].
      intros (_ & g0 & [= <-] & [? ?] & _). congruence. }
  destruct (groupStatus g) eqn:Hs; cbn.
  - split_and!; [split; done|split; [done|]|by right; right].
    intros (_ & g0 & [= <-] & _ & [?|?]); congruence.
  - split_and!; [split; done|split; [done|]|by right; right].
    intros (_ & g0 & [= <-] & _ & [?|?]); congruence.
  - split_and!; [split; done|split; [|done]|by left].
    intros _. split; [done|]. exists g. rewrite Hm, Hs. by auto.
  - split_and!; [split; done|split; [done|]|by right; right].
    intros (_ & g0 & [= <-] & _ & [?|?]); congruence.
  - split_and!; [split; done|split; [|done]|by left].
    intros _. split; [done|]. exists g. rewrite Hm, Hs. by auto.
Qed.

(** X5.  After a LeaveGroup that was answered with NONE, every Heartbeat on
    that group, whatever member sends it, is answered with
    REBALANCE_IN_PROGRESS: a member that left is unknown, and for one that
    stayed the group is in PreparingRebalance. *)
Theorem X5_heartbeat_after_leave c username groupId ms resp c' memberId :
  HandleLeaveGroup c username groupId ms = Ret (resp, c') →
  lg_ErrorCode resp = NONE →
  hb_ErrorCode (HandleHeartBeat c' username groupId memberId)
  = REBALANCE_IN_PROGRESS.
Proof.
  unfold HandleLeaveGroup, HandleHeartBeat.
  case_bool_decide as Hgid; [by intros [= <- <-]|].
  destruct (groupManager c !! (username +:+ groupId)) as [g|] eqn:Hg;
    [|by intros [= <- <-]].
  intros Hon _. apply onGroup_ret in Hon as (g' & Hbody & ->).
  destruct (post_ret_inv _ _ _ _ _ (leaveGroup_post _ _) Hbody)
    as (_ & _ & _ & _ & Hs).
  cbn. rewrite lookup_insert_eq.
  destruct (members g' !! memberId) as [m|] eqn:Hm; [|done].
  assert (members g' ≠ ∅) as Hne
    by (intros Hnone; by rewrite Hnone, lookup_empty in Hm).
  rewrite bool_decide_eq_false_2 in Hs by done. by rewrite Hs.
Qed.

Lemma X5_witness :
  hb_ErrorCode (HandleHeartBeat vacated "alice" "g" "c-u1")
  = REBALANCE_IN_PROGRESS.
Proof.
  apply (X5_heartbeat_after_leave stable "alice" "g"
           [{| lgm_MemberId := "c-u1"; lgm_GroupInstanceId := None |}]
           (leaveResp NONE
              [{| lgm_MemberId := "c-u1"; lgm_GroupInstanceId := None |}])).
  - vm_compute. reflexivity.
  - reflexivity.
Defined.

Lemma handle_no_empty_id c call c' :
  handle c call = Ret c' →
  allGroups (λ g, members g !! "" = None) c →
  allGroups (λ g, members g !! "" = None) c'.
Proof.
  intros Hcall Hinv key g' Hg'.
  destruct (handle_frame _ _ _ Hcall)
    as [->|(g & g1 & Hg & Hgm & Heff & Hfr)]; [by eapply Hinv|].
  rewrite Hgm in Hg'.
  destruct (decide (callKey call = key)) as [<-|Hne];
    [|rewrite lookup_insert_ne in Hg' by done; by eapply Hinv].
  rewrite lookup_insert_eq in Hg'. injection Hg' as ->.
  assert (members g !! "" = None) as Hnone.
  { destruct Hg as [Hg|[_ (? & ? & ? & ->)]]; [by eapply Hinv|done]. }
  apply not_elem_of_dom. apply not_elem_of_dom in Hnone.
  destruct call as [env user gid mid0 cid pt st ps|env user gid mid0 gen gas
                   |user gid mid0|user gid ms];
    cbn [groupEffect groupFrame] in *.
  - destruct Hfr as [(_ & _ & Hdom) _].
    assert (admittedId env cid mid0 ≠ "")
      by (destruct (admittedId_nonempty env cid mid0)
            as [(_ & _ & ?)|[? ->]]; done).
    set_solver.
  - destruct Heff as (_ & _ & Hdom & _). by rewrite Hdom.
  - by subst.
  - destruct Heff as (Hm & _). rewrite elem_of_dom, Hm, lookup_foldr_delete.
    case_bool_decide; [by intros [? ?]|]. by rewrite <- elem_of_dom.
Qed.

(** X6.  No member is ever registered under the empty member id: in every
    reachable coordinator, no group has a member stored under it.  The only
    write of a key to the member map puts the caller under the id it sent,
    when that is not empty, and under its client id, a dash and a fresh
    identifier otherwise; so this does not depend on how calls follow each
    other.  Hence a Heartbeat with an empty member id is never answered
    NONE. *)
Theorem X6_no_member_under_empty_id c key g username groupId :
  reachable c →
  groupManager c !! key = Some g →
  members g !! "" = None ∧
  hb_ErrorCode (HandleHeartBeat c username groupId "") ≠ NONE.
Proof.
  intros (cfg & calls & Hrun) Hg.
  assert (allGroups (λ g, members g !! "" = None) c) as Hinv.
  { assert (∀ calls c0 c1,
              run c0 calls = Ret c1 →
              allGroups (λ g, members g !! "" = None) c0 →
              allGroups (λ g, members g !! "" = None) c1) as Hruns.
    { clear. intros calls. induction calls as [|call calls IH];
        intros c0 c1; cbn.
      - by intros [= ->].
      - destruct (handle c0 call) as [c2| |] eqn:Hcall; [|done..].
        intros Hrun Hinv. eapply IH; [done|].
        by eapply handle_no_empty_id. }
    eapply Hruns; [done|]. intros k g0. cbn. by rewrite lookup_empty. }
  split; [by eapply Hinv|].
  unfold HandleHeartBeat. case_bool_decide; [done|].
  destruct (groupManager c !! (username +:+ groupId)) as [g0|] eqn:Hg0;
    [|done].
  by rewrite (Hinv _ _ Hg0).
Qed.

Lemma X6_witness :
  members (groupOfAlice stable) !! "" = None ∧
  hb_ErrorCode (HandleHeartBeat stable "alice" "g" "") ≠ NONE.
Proof.
  apply (X6_no_member_under_empty_id stable "aliceg").
  - exists cfg0, stableCalls. vm_compute. reflexivity.
  - vm_compute. reflexivity.
Defined.

(** *** What no call changes *)

(** The fields of a group no handler of the coordinator writes. *)
Definition statics (g : Group)
  : string * string * Z * gmap string string * list string :=
  (groupId g, protocolType g, sessionTimeoutMs g, groupProtocols g,
   partitionedTopic g).

Ltac static_leaf :=
  repeat match goal with
    | H : _ ∧ _ |- _ => destruct H
    | H : _ ∨ _ |- _ => destruct H
    end; subst; unfold statics in *; cbn in *; congruence.

Lemma doRebalance_static env g :
  post (doRebalance env) (λ _ g', statics g' = statics g) g.
Proof.
  unfold doRebalance. go; [done|].
  go_with awaitingRebalance_post. static_leaf.
Qed.

Lemma addMemberAndRebalance_static env clientId memberId protocolType
    protocols g :
  post (addMemberAndRebalance env clientId memberId protocolType protocols)
    (λ _ g', statics g' = statics g) g.
Proof.
  unfold addMemberAndRebalance, vote.
  go; destruct protocols; go.
  all: go_with doRebalance_static; go; static_leaf.
Qed.

Lemma addNewMemberAndReBalance_static env clientId memberId protocolType
    protocols g :
  post (addNewMemberAndReBalance env clientId memberId protocolType protocols)
    (λ _ g', statics g' = statics g) g.
Proof.
  unfold addNewMemberAndReBalance. go.
  - go_with awaitingRebalance_post. destruct H as [-> _].
    destruct a as [msg|]; go; [done|].
    apply addMemberAndRebalance_static.
  - apply addMemberAndRebalance_static.
Qed.

Lemma awaitingJoin_static ticks memberId g :
  post (awaitingJoin ticks memberId) (λ _ g', statics g' = statics g) g.
Proof.
  revert g. induction ticks as [|ticks IH]; intros g;
    cbn [awaitingJoin]; go.
  all: destruct (members g !! memberId) as [cur|] eqn:Hcur; go.
  all: try done.
  all: go_with IH; static_leaf.
Qed.

Ltac go_static :=
  first
    [ go_with addNewMemberAndReBalance_static
    | go_with awaitingJoin_static
    | go_with doRebalance_static
    | go_with getLeaderMembers_post ].

Lemma joinGroup_static cfg env memberId clientId protocolType protocols g :
  post (joinGroup cfg env memberId clientId protocolType protocols)
    (λ _ g', statics g' = statics g) g.
Proof.
  unfold joinGroup. go.
  go_with joinGroupProtocolCheck_post. subst g'.
  destruct a as [code [e|]]; go; try done.
  all: unfold joinPreparingRebalance, joinCompletingRebalance,
         joinEmptyOrStable, updateMemberAndRebalance, joinResp.
  all: repeat first [progress go | go_static].
  all: static_leaf.
Qed.

Lemma storeAssignments_static groupAssignments g :
  post (storeAssignments groupAssignments)
    (λ _ g', statics g' = statics g) g.
Proof.
  revert g. induction groupAssignments as [|a rest IH]; intros g;
    cbn [storeAssignments]; go; [done|].
  unfold storeAssignment. go.
  destruct (members g !! ga_MemberId a) as [m|] eqn:Hm; go.
  by go_with IH.
Qed.

Lemma syncGroup_static env memberId groupAssignments g :
  post (syncGroup env memberId groupAssignments)
    (λ _ g', statics g' = statics g) g.
Proof.
  unfold syncGroup, syncCompletingRebalance.
  repeat first
    [ progress go
    | go_with storeAssignments_static
    | go_with awaitingSync_post
    | go_with curMemberField_post ].
  all: static_leaf.
Qed.

Lemma leaveGroup_static ms g :
  post (leaveGroup ms) (λ _ g', statics g' = statics g) g.
Proof.
  assert (∀ g, post (leaveMembers ms)
                 (λ _ g', statics g' = statics g) g) as Hms.
  { induction ms as [|m ms IH]; intros g0; cbn [leaveMembers]; go; [done|..].
    all: unfold leaveMember; go; by go_with IH. }
  unfold leaveGroup. go. go_with Hms. by go.
Qed.

(** The group a JoinGroup call creates when its key is not registered. *)
Definition firstJoin (cfg : KafsarConfig) (call : Call) (g : Group) : Prop :=
  match call with
  | JoinGroup _ _ groupId _ _ protocolType sessionTimeoutMs _ =>
      g = newGroup groupId protocolType sessionTimeoutMs ∧
      groupId ≠ "" ∧
      GroupMinSessionTimeoutMs cfg ≤ sessionTimeoutMs
        ≤ GroupMaxSessionTimeoutMs cfg
  | _ => False
  end.

Lemma handle_static c call c' :
  handle c call = Ret c' →
  c' = c ∨
  ∃ g g',
    (groupManager c !! callKey call = Some g ∨
     groupManager c !! callKey call = None ∧
     firstJoin (kafsarConfig c) call g) ∧
    groupManager c' = <[callKey call := g']> (groupManager c) ∧
    statics g' = statics g.
Proof.
  destruct call as [env user gid mid0 cid pt st ps|env user gid mid0 gen gas
                   |user gid mid0|user gid ms];
    cbn [handle callKey firstJoin].
  - unfold HandleJoinGroup, joinGroupParamsCheck.
    case_bool_decide as Hgid; cbn [fst snd]; [intros [= <-]; by auto|].
    destruct (_ || _) eqn:Hst; cbn [fst snd]; [intros [= <-]; by auto|].
    destruct (onGroup _ _ _ _) as [[resp c'']| |] eqn:Hon; [|done..].
    intros [= ->]. apply onGroup_ret in Hon as (g' & Hbody & ->).
    right.
    pose proof (post_ret_inv _ _ _ _ _ (joinGroup_static _ _ _ _ _ _ _) Hbody)
      as Hfr.
    destruct (groupManager c !! (user +:+ gid)) as [g|] eqn:Hg.
    + eexists g, g'. split; [by left|]. by split.
    + eexists _, g'. split; [right; split; [done|]|by split].
      split; [done|]. split; [done|].
      apply orb_false_iff in Hst as [? ?]. lia.
  - unfold HandleSyncGroup.
    destruct (syncGroupParamsCheck _ _) as [code [e|]];
      cbn [fst snd]; [intros [= <-]; by auto|].
    destruct (groupManager c !! (user +:+ gid)) as [g|] eqn:Hg;
      [|intros [= <-]; by auto].
    destruct (onGroup _ _ _ _) as [[resp c'']| |] eqn:Hon; [|done..].
    intros [= ->]. apply onGroup_ret in Hon as (g' & Hbody & ->).
    right. eexists g, g'. split_and!; [by left|done|].
    by eapply (post_ret_inv _ _ _ _ _ (syncGroup_static _ _ _ _)).
  - intros [= <-]. by auto.
  - unfold HandleLeaveGroup. case_bool_decide; [intros [= <-]; by auto|].
    destruct (groupManager c !! (user +:+ gid)) as [g|] eqn:Hg;
      [|intros [= <-]; by auto].
    destruct (onGroup _ _ _ _) as [[resp c'']| |] eqn:Hon; [|done..].
    intros [= ->]. apply onGroup_ret in Hon as (g' & Hbody & ->).
    right. eexists g, g'. split_and!; [by left|done|].
    by eapply (post_ret_inv _ _ _ _ _ (leaveGroup_static _ _)).
Qed.

(** How a group is registered: under the user name followed by its own,
    non-empty id, with a session timeout the configuration admits, without
    group protocols and without topics. *)
Definition registered (cfg : KafsarConfig) (key : string) (g : Group)
  : Prop :=
  groupId g ≠ "" ∧
  (∃ username, key = username +:+ groupId g) ∧
  GroupMinSessionTimeoutMs cfg ≤ sessionTimeoutMs g
    ≤ GroupMaxSessionTimeoutMs cfg ∧
  groupProtocols g = ∅ ∧
  partitionedTopic g = [].

Lemma handle_registered c call c' :
  handle c call = Ret c' →
  (∀ key g, groupManager c !! key = Some g →
            registered (kafsarConfig c) key g) →
  ∀ key g, groupManager c' !! key = Some g →
           registered (kafsarConfig c') key g.
Proof.
  intros Hcall Hinv key g' Hg'.
  destruct (handle_effect _ _ _ Hcall) as [-> _].
  destruct (handle_static _ _ _ Hcall)
    as [->|(g & g1 & Hg & Hgm & Hst)]; [by eapply Hinv|].
  rewrite Hgm in Hg'.
  destruct (decide (callKey call = key)) as [<-|Hne];
    [|rewrite lookup_insert_ne in Hg' by done; by eapply Hinv].
  rewrite lookup_insert_eq in Hg'. injection Hg' as ->.
  assert (registered (kafsarConfig c) (callKey call) g) as Hreg.
  { destruct Hg as [Hg|[_ Hg]]; [by eapply Hinv|].
    destruct call; try done. destruct Hg as (-> & ? & ?).
    unfold registered. cbn. split_and!; try done; try lia. by eexists. }
  unfold statics in Hst. injection Hst as Hid Hpt Hto Hgp Htp.
  destruct Hreg as (? & [u ?] & ? & ? & ?). unfold registered.
  rewrite Hid, Hto, Hgp, Htp. split_and!; try done; try lia. by exists u.
Qed.

Lemma run_registered calls c c' :
  run c calls = Ret c' →
  (∀ key g, groupManager c !! key = Some g →
            registered (kafsarConfig c) key g) →
  ∀ key g, groupManager c' !! key = Some g →
           registered (kafsarConfig c') key g.
Proof.
  revert c. induction calls as [|call calls IH]; intros c; cbn.
  - by intros [= ->].
  - destruct (handle c call) as [c1| |] eqn:Hcall; [|done..].
    intros Hrun Hinv. eapply IH; [done|].
    by eapply handle_registered.
Qed.

(** X7.  Every group of a reachable coordinator is registered under the
    name of its user followed by its own id, which is not empty; its session
    timeout lies within the bounds of the configuration; and the coordinator
    has recorded neither group protocols nor topics for it. *)
Theorem X7_group_registration c key g :
  reachable c →
  groupManager c !! key = Some g →
  groupId g ≠ "" ∧
  (∃ username, key = username +:+ groupId g) ∧
  GroupMinSessionTimeoutMs (kafsarConfig c) ≤ sessionTimeoutMs g
    ≤ GroupMaxSessionTimeoutMs (kafsarConfig c) ∧
  groupProtocols g = ∅ ∧
  partitionedTopic g = [].
Proof.
  intros (cfg & calls & Hrun) Hg.
  eapply (run_registered _ _ _ Hrun); [|done].
  intros k g0. cbn. by rewrite lookup_empty.
Qed.

Lemma X7_witness :
  groupId (groupOfAlice stable) ≠ "" ∧
  (∃ username, "aliceg" = username +:+ groupId (groupOfAlice stable)) ∧
  GroupMinSessionTimeoutMs (kafsarConfig stable)
    ≤ sessionTimeoutMs (groupOfAlice stable)
    ≤ GroupMaxSessionTimeoutMs (kafsarConfig stable) ∧
  groupProtocols (groupOfAlice stable) = ∅ ∧
  partitionedTopic (groupOfAlice stable) = [].
Proof.
  apply (X7_group_registration stable "aliceg").
  - exists cfg0, stableCalls. vm_compute. reflexivity.
  - vm_compute. reflexivity.
Defined.

(** X8.  No call removes a group from the registry or changes the
    configuration, and a group keeps the id, the protocol type and the
    session timeout of the JoinGroup call that created it, whatever later
    calls pass. *)
Theorem X8_registry_only_grows c calls c' key g :
  run c calls = Ret c' →
  groupManager c !! key = Some g →
  kafsarConfig c' = kafsarConfig c ∧
  ∃ g', groupManager c' !! key = Some g' ∧
        groupId g' = groupId g ∧
        protocolType g' = protocolType g ∧
        sessionTimeoutMs g' = sessionTimeoutMs g.
Proof.
  revert c g. induction calls as [|call calls IH]; intros c g; cbn.
  - intros [= ->] Hg. split; [done|]. by exists g.
  - destruct (handle c call) as [c1| |] eqn:Hcall; [|done..].
    intros Hrun Hg.
    destruct (handle_effect _ _ _ Hcall) as [Hcfg _].
    assert (∃ g1, groupManager c1 !! key = Some g1 ∧ statics g1 = statics g)
      as (g1 & Hg1 & Hst).
    { destruct (handle_static _ _ _ Hcall)
        as [->|(g0 & g1 & Hg0 & Hgm & Hst)]; [by exists g|].
      rewrite Hgm.
      destruct (decide (callKey call = key)) as [<-|Hne].
      - rewrite lookup_insert_eq. exists g1. split; [done|].
        destruct Hg0 as [Hg0|[Hg0 _]]; congruence.
      - rewrite lookup_insert_ne by done. by exists g. }
    destruct (IH _ _ Hrun Hg1) as (Hcfg' & g' & Hg' & ? & ? & ?).
    split; [congruence|]. exists g'. unfold statics in Hst.
    injection Hst as Hid Hpt Hto Hgp Htp.
    split; [done|]. split_and!; congruence.
Qed.

Lemma X8_witness :
  kafsarConfig vacated = kafsarConfig joined ∧
  ∃ g', groupManager vacated !! "aliceg" = Some g' ∧
        groupId g' = groupId (groupOfAlice joined) ∧
        protocolType g' = protocolType (groupOfAlice joined) ∧
        sessionTimeoutMs g' = sessionTimeoutMs (groupOfAlice joined).
Proof.
  apply (X8_registry_only_grows joined (drop 1 stableCalls ++ [leaveAll])%list
           vacated "aliceg").
  - vm_compute. reflexivity.
  - vm_compute. reflexivity.
Defined.

(** *** Calls that return *)

(** [wp m Q g]: [m] returns from [g], and its result and final group
    satisfy [Q]. *)
Definition wp {A} (m : M A) (Q : A → Group → Prop) (g : Group) : Prop :=
  match m g with
  | Ret (a, g') => Q a g'
  | Panic => False
  | Hang => False
  end.

Lemma wp_ret {A} (a : A) (Q : A → Group → Prop) g : Q a g → wp (ret a) Q g.
Proof. done. Qed.

Lemma wp_bind {A B} (m : M A) (f : A → M B) (Q : B → Group → Prop) g :
  wp m (λ a g', wp (f a) Q g') g → wp (bind m f) Q g.
Proof. unfold wp, bind. destruct (m g) as [[a g']| |]; done. Qed.

Lemma wp_gets {A} (f : Group → A) (Q : A → Group → Prop) g :
  Q (f g) g → wp (gets f) Q g.
Proof. done. Qed.

Lemma wp_modify (f : Group → Group) (Q : unit → Group → Prop) g :
  Q tt (f g) → wp (modify f) Q g.
Proof. done. Qed.

Lemma wp_mono {A} (m : M A) (Q Q' : A → Group → Prop) g :
  wp m Q g → (∀ a g', Q a g' → Q' a g') → wp m Q' g.
Proof. unfold wp. destruct (m g) as [[a g']| |]; auto. Qed.

Lemma wp_returns {A} (m : M A) (Q : A → Group → Prop) g :
  wp m Q g → ∃ a g', m g = Ret (a, g') ∧ Q a g'.
Proof. unfold wp. destruct (m g) as [[a g']| |]; [by eauto|done..]. Qed.

Ltac ret_step :=
  lazymatch goal with
  | |- wp (bind _ _) _ _ => apply wp_bind
  | |- wp (ret _) _ _ => apply wp_ret
  | |- wp (gets _) _ _ => apply wp_gets
  | |- wp (modify _) _ _ => apply wp_modify
  | |- wp (if ?b then _ else _) _ _ => destruct b eqn:?
  | |- wp (match ?x with Some _ => _ | None => _ end) _ _ =>
      is_var x; destruct x
  | |- wp _ _ _ => progress go_unfold
  end.

Ltac ret_go := repeat (ret_step; cbn beta; cbn [fst snd]).

Tactic Notation "ret_with" open_constr(H) :=
  eapply wp_mono; [apply H | cbn beta; intros].

Lemma awaitingRebalance_returns ticks status g :
  wp (awaitingRebalance ticks status) (λ _ g', g' = g) g.
Proof. induction ticks as [|ticks IH]; cbn [awaitingRebalance]; by ret_go. Qed.

Lemma doRebalance_returns env g :
  wp (doRebalance env) (λ _ g', members g' = members g) g.
Proof.
  unfold doRebalance. ret_go; [done|].
  ret_with awaitingRebalance_returns. by subst.
Qed.

(** [vote] is reached with the protocols the protocol check has seen: an
    Empty group is joined with at least one. *)
Definition votable (protocols : list GroupProtocol) (g : Group) : Prop :=
  groupStatus g = Empty → protocols ≠ [].

Lemma addMemberAndRebalance_returns env clientId memberId protocolType
    protocols g :
  votable protocols g →
  wp (addMemberAndRebalance env clientId memberId protocolType protocols)
    (λ _ _, True) g.
Proof.
  intros Hvote. unfold addMemberAndRebalance, vote. ret_go.
  - destruct protocols as [|p ps];
      [by destruct Hvote; [apply bool_decide_eq_true in Heqb|]|].
    ret_go. by ret_with doRebalance_returns.
  - by ret_with doRebalance_returns.
Qed.

Lemma addNewMemberAndReBalance_returns env clientId memberId protocolType
    protocols g :
  votable protocols g →
  wp (addNewMemberAndReBalance env clientId memberId protocolType protocols)
    (λ _ _, True) g.
Proof.
  intros Hvote. unfold addNewMemberAndReBalance. ret_go.
  - ret_with awaitingRebalance_returns. subst.
    destruct a as [msg|]; ret_go; [done|].
    by apply addMemberAndRebalance_returns.
  - by apply addMemberAndRebalance_returns.
Qed.

Lemma awaitingJoin_returns ticks memberId g :
  wp (awaitingJoin ticks memberId) (λ _ _, True) g.
Proof.
  revert g. induction ticks as [|ticks IH]; intros g;
    cbn [awaitingJoin]; ret_go.
  all: destruct (members g !! memberId) as [cur|] eqn:Hcur; ret_go.
  all: try done.
  all: apply IH.
Qed.

Lemma getLeaderMembers_returns memberId g :
  wp (getLeaderMembers memberId) (λ _ _, True) g.
Proof. unfold getLeaderMembers. by ret_go. Qed.

Lemma joinGroupProtocolCheck_returns protocolType protocols g :
  wp (joinGroupProtocolCheck protocolType protocols)
    (λ chk g', g' = g ∧ (chk.2 = None → votable protocols g)) g.
Proof.
  unfold joinGroupProtocolCheck, votable. ret_go; split; try done.
  all: intros _ Hs Hnil; subst.
  all: rewrite Hs in *; cbn in *.
  all: by repeat match goal with
         | H : _ && _ = false |- _ => apply andb_false_iff in H as [H|H]
         | H : bool_decide _ = false |- _ => apply bool_decide_eq_false in H
         end.
Qed.

Ltac ret_join :=
  first
    [ ret_with addNewMemberAndReBalance_returns; [done|]
    | ret_with awaitingJoin_returns
    | ret_with doRebalance_returns
    | ret_with getLeaderMembers_returns ].

Lemma joinGroup_returns cfg env memberId clientId protocolType protocols g :
  wp (joinGroup cfg env memberId clientId protocolType protocols)
    (λ _ _, True) g.
Proof.
  unfold joinGroup. ret_go.
  ret_with joinGroupProtocolCheck_returns. destruct H as [-> Hvote].
  destruct a as [code [e|]]; ret_go; try done.
  all: specialize (Hvote eq_refl).
  all: unfold joinPreparingRebalance, joinCompletingRebalance,
         joinEmptyOrStable, updateMemberAndRebalance, joinResp.
  all: repeat first [progress ret_go | ret_join].
  all: done.
Qed.

Lemma HandleJoinGroup_returns env c username groupId memberId clientId
    protocolType sessionTimeoutMs protocols :
  ∃ resp c',
    HandleJoinGroup env c username groupId memberId clientId protocolType
      sessionTimeoutMs protocols = Ret (resp, c').
Proof.
  unfold HandleJoinGroup.
  destruct (joinGroupParamsCheck _ _ _ _ _) as [[mid code] [e|]];
    cbn [fst snd]; [by eauto|].
  unfold onGroup.
  match goal with
  | |- context [joinGroup ?cfg ?env ?m ?c ?pt ?ps ?g] =>
      destruct (wp_returns _ _ _ (joinGroup_returns cfg env m c pt ps g))
        as (a & g' & -> & _)
  end.
  by eauto.
Qed.

(** X9.  HandleJoinGroup answers every call: whatever the coordinator and
    the arguments, no path ends in a runtime fault or blocks.  In
    particular [vote], which reads [protocols[0]], is only reached with a
    non-empty protocol list. *)
Theorem X9_join_group_returns env c username groupId memberId clientId
    protocolType sessionTimeoutMs protocols :
  ∃ resp c',
    HandleJoinGroup env c username groupId memberId clientId protocolType
      sessionTimeoutMs protocols = Ret (resp, c').
Proof. apply HandleJoinGroup_returns. Qed.

(** *** What a JoinGroup response says about the group *)

Lemma awaitingJoin_answer ticks memberId g :
  post (awaitingJoin ticks memberId)
    (λ err g',
       leader g' = leader g ∧
       (err = None →
          groupStatus g' = CompletingRebalance ∧
          is_Some (members g' !! memberId) ∧
          map_Forall (λ _ m, joinGenerationId m = generationId g')
            (members g'))) g.
Proof.
  eapply post_mono;
    [apply post_and; [apply awaitingJoin_post|apply awaitingJoin_frame]|].
  cbn beta. intros err g' [(_ & Hl & Hdom & Hok & _) (_ & Hall)].
  split; [done|]. intros Herr. destruct (Hok Herr) as [Hs Hin].
  split_and!; [done| |by apply Hall].
  apply elem_of_dom. by rewrite Hdom.
Qed.

Lemma getLeaderMembers_answer memberId g :
  post (getLeaderMembers memberId)
    (λ ms g',
       (g' = g ∧ leader g ≠ "" ∨ leader g = "" ∧ g' = with_leader memberId g) ∧
       (ms ≠ [] → leader g' = memberId)) g.
Proof.
  unfold getLeaderMembers. go; cbn in *.
  all: repeat match goal with
         | H : bool_decide _ = true |- _ => apply bool_decide_eq_true in H
         | H : bool_decide _ = false |- _ => apply bool_decide_eq_false in H
         end.
  all: split; [by auto|done].
Qed.

(** What the response of a JoinGroup call says about the group the call
    leaves behind. *)
Definition joinAnswer (env : Env) (clientId memberId : string) (g : Group)
    (resp : JoinGroupResp) (g' : Group) : Prop :=
  (jg_ErrorCode resp = NONE →
   groupStatus g' = CompletingRebalance ∧
   jg_MemberId resp = admittedId env clientId memberId ∧
   is_Some (members g' !! jg_MemberId resp) ∧
   map_Forall (λ _ m, joinGenerationId m = generationId g') (members g') ∧
   jg_GenerationId resp = generationId g' ∧
   jg_LeaderId resp = leader g' ∧ leader g' ≠ "" ∧
   jg_ProtocolType resp = Some (protocolType g') ∧
   jg_ProtocolName resp = supportedProtocol g' ∧
   (jg_Members resp ≠ [] → jg_LeaderId resp = jg_MemberId resp)) ∧
  (jg_ErrorCode resp ≠ NONE →
   resp = joinErrorResp (jg_MemberId resp) (jg_ErrorCode resp) ∧
   (jg_ErrorCode resp = COORDINATOR_LOAD_IN_PROGRESS ∨
    g' = g ∧
    (jg_ErrorCode resp = INCONSISTENT_GROUP_PROTOCOL ∨
     jg_ErrorCode resp = GROUP_MAX_SIZE_REACHED ∨
     jg_ErrorCode resp = UNKNOWN_MEMBER_ID ∧ groupStatus g = Dead))).

Lemma admittedId_given env clientId memberId :
  bool_decide (memberId = EmptyMemberId) = false →
  admittedId env clientId memberId = memberId.
Proof. intros H. unfold admittedId. by rewrite H. Qed.

Lemma admittedId_not_empty env clientId memberId :
  admittedId env clientId memberId ≠ "".
Proof.
  destruct (admittedId_nonempty env clientId memberId)
    as [(_ & _ & ?)|[? ->]]; done.
Qed.

Ltac answer_fail :=
  split; [done|]; intros _; split; [done|]; by left.

Ltac go_answer :=
  first
    [ go_with addNewMemberAndReBalance_post
    | go_with awaitingJoin_answer
    | go_with doRebalance_post
    | go_with getLeaderMembers_answer ].

Ltac answer_prep :=
  repeat match goal with
    | a : (_ * _)%type |- _ => destruct a
    end;
  cbn [fst snd] in *;
  repeat match goal with
    | H : _ ∧ _ |- _ => destruct H
    | H : Some _ = None → _ |- _ => clear H
    | H : None = None → _ |- _ => specialize (H eq_refl)
    | H : None ≠ None |- _ => by destruct H
    | H : _ ∨ _ |- _ => destruct H
    end; subst;
  cbn [members leader groupStatus generationId supportedProtocol protocolType
       with_leader with_members with_groupStatus jg_ErrorCode jg_MemberId
       jg_GenerationId jg_LeaderId jg_ProtocolType jg_ProtocolName
       jg_Members] in *.

Ltac answer_ok :=
  answer_prep;
  (split; [intros _|done]);
  rewrite ?admittedId_given by
    (match goal with
     | H : _ || _ = false |- _ => by apply orb_false_iff in H as [? ?]
     end);
  split_and!;
    first [ done | by apply admittedId_not_empty | congruence
          | intros ?; congruence
          | match goal with
            | H : bool_decide (?m = EmptyMemberId) || _ = false |- ?m ≠ _ =>
                apply orb_false_iff in H as [H _];
                by apply bool_decide_eq_false in H
            end
          | idtac ].

Lemma joinPreparingRebalance_answer env clientId memberId protocolType
    protocols g :
  post (joinPreparingRebalance env (bool_decide (memberId = EmptyMemberId))
          clientId memberId protocolType protocols)
    (joinAnswer env clientId memberId g) g.
Proof.
  unfold joinPreparingRebalance, joinResp, joinAnswer.
  repeat first [progress go | go_answer].
  all: try answer_fail.
  all: answer_ok.
Qed.

Lemma joinEmptyOrStable_answer env clientId memberId protocolType
    protocols g :
  post (joinEmptyOrStable env (bool_decide (memberId = EmptyMemberId))
          clientId memberId protocolType protocols)
    (joinAnswer env clientId memberId g) g.
Proof.
  unfold joinEmptyOrStable, updateMemberAndRebalance, joinResp, joinAnswer.
  repeat first [progress go | go_answer].
  all: try answer_fail.
  all: answer_ok.
Qed.

Lemma joinCompletingRebalance_answer env clientId memberId protocolType
    protocols g :
  post (joinCompletingRebalance env (bool_decide (memberId = EmptyMemberId))
          clientId memberId protocolType protocols)
    (joinAnswer env clientId memberId g) g.
Proof.
  unfold joinCompletingRebalance, updateMemberAndRebalance, joinResp,
    joinAnswer.
  repeat first [progress go | go_answer].
  all: try answer_fail.
  all: answer_ok.
  all: try match goal with |- _ ≠ [] → _ => intros ? end.
  all: repeat match goal with
         | H : leader ?x = _ |- context [leader ?x] => rewrite H
         end.
  all: try first
    [ by auto
    | by apply admittedId_not_empty
    | match goal with
      | H : bool_decide (?m = EmptyMemberId) || _ = false |- ?m ≠ _ =>
          apply orb_false_iff in H as [H _];
          by apply bool_decide_eq_false in H
      end ].
Qed.

Lemma joinGroupProtocolCheck_answer protocolType protocols g :
  post (joinGroupProtocolCheck protocolType protocols)
    (λ chk g', g' = g ∧
               (chk.2 ≠ None → chk.1 = INCONSISTENT_GROUP_PROTOCOL)) g.
Proof. unfold joinGroupProtocolCheck. by go. Qed.

Lemma joinGroup_answer cfg env memberId clientId protocolType protocols g :
  post (joinGroup cfg env memberId clientId protocolType protocols)
    (joinAnswer env clientId memberId g) g.
Proof.
  unfold joinGroup. go.
  go_with joinGroupProtocolCheck_answer. destruct H as [-> Hcode].
  assert (∀ code, code ≠ NONE →
            (code = INCONSISTENT_GROUP_PROTOCOL ∨
             code = GROUP_MAX_SIZE_REACHED ∨
             code = UNKNOWN_MEMBER_ID ∧ groupStatus g = Dead) →
            joinAnswer env clientId memberId g
              (joinErrorResp memberId code) g) as Hfail.
  { intros code Hne Hc. split; [done|]. intros _. split; [done|].
    right. by split. }
  destruct a as [code [e|]]; cbn [fst snd] in *; go.
  - rewrite Hcode by done. apply Hfail; [done|by left].
  - apply Hfail; [done|by right; left].
  - apply Hfail; [done|]. right; right. split; [done|].
    by apply bool_decide_eq_true in Heqb0.
  - apply joinPreparingRebalance_answer.
  - apply joinCompletingRebalance_answer.
  - apply joinEmptyOrStable_answer.
  - exfalso. destruct (groupStatus g); cbn in *; done.
Qed.

Lemma HandleJoinGroup_joined env c username groupId memberId clientId
    ptype sessionTimeoutMs protocols resp c' :
  HandleJoinGroup env c username groupId memberId clientId ptype
    sessionTimeoutMs protocols = Ret (resp, c') →
  jg_ErrorCode resp = NONE →
  groupId ≠ "" ∧
  kafsarConfig c' = kafsarConfig c ∧
  ∃ g', groupManager c' !! (username +:+ groupId) = Some g' ∧
        is_Some (members g' !! jg_MemberId resp).
Proof.
  unfold HandleJoinGroup, joinGroupParamsCheck.
  case_bool_decide as Hgid; cbn [fst snd]; [by intros [= <- <-]|].
  destruct (_ || _) eqn:Hst; cbn [fst snd]; [by intros [= <- <-]|].
  intros Hon Hnone. apply onGroup_ret in Hon as (g' & Hbody & ->).
  split; [done|]. split; [done|].
  exists g'. cbn. rewrite lookup_insert_eq. split; [done|].
  destruct (post_ret_inv _ _ _ _ _ (joinGroup_answer _ _ _ _ _ _ _) Hbody)
    as [Hok _].
  by destruct (Hok Hnone) as (_ & _ & ? & _).
Qed.

(** *** The first join of a group *)

(** The entry the first joiner of a group is registered with, once it has
    passed the join barrier of the generation it started. *)
Definition firstMember (clientId id ptype : string) (generation : Z)
    (protocols : list GroupProtocol) (name : string) : memberMetadata :=
  {| clientId := clientId; memberId := id;
     metadata := default [] (protocolMapOf protocols !! name);
     assignment := []; mm_protocolType := ptype;
     protocols := protocolMapOf protocols;
     joinGenerationId := generation; syncGenerationId := 0 |}.

(** The group the first join leaves behind. *)
Definition firstJoined (clientId id ptype : string) (p : GroupProtocol)
    (ps : list GroupProtocol) (g : Group) : Group :=
  with_leader id
    (with_groupStatus CompletingRebalance
       (with_members
          {[id := firstMember clientId id ptype (generationId g + 1)
                    (p :: ps) (ProtocolName p)]}
          (with_generationId (generationId g + 1)
             (with_supportedProtocol (ProtocolName p) g)))).

Lemma joinGroupProtocolCheck_first ptype p ps g :
  ptype ≠ "" → groupStatus g = Empty →
  joinGroupProtocolCheck ptype (p :: ps) g = Ret ((NONE, None), g).
Proof.
  intros Hpt Hs.
  unfold joinGroupProtocolCheck, getGroupStatus, bind, gets, ret.
  rewrite Hs. rewrite !(bool_decide_eq_true_2 (Empty = Empty)) by done.
  rewrite (bool_decide_eq_false_2 (ptype = "")) by done.
  cbn [length]. rewrite (bool_decide_eq_false_2 (S _ = 0%nat)) by done.
  cbn [negb andb]. cbn beta. by rewrite andb_false_r.
Qed.

Lemma addNewMemberAndReBalance_first env clientId memberId ptype p ps g :
  groupStatus g = Empty → members g = ∅ → canRebalance g = true →
  let id := admittedId env clientId memberId in
  addNewMemberAndReBalance env clientId memberId ptype (p :: ps) g
  = Ret ((id, None),
         with_generationId (generationId g + 1)
           (with_groupStatus CompletingRebalance
              (with_members
                 {[id := firstMember clientId id ptype 0 (p :: ps)
                           (ProtocolName p)]}
                 (with_supportedProtocol (ProtocolName p) g)))).
Proof.
  intros Hs Hm Hcan id. subst id.
  destruct g as [gid st sp gps pt l ms can gen sto tps].
  cbn in Hs, Hm, Hcan. subst st ms can.
  unfold addNewMemberAndReBalance, getGroupMembersLen, getGroupStatus, bind,
    gets.
  cbn [members]. rewrite map_size_empty.
  change (Z.of_nat 0 >? 0) with false. cbn [andb].
  unfold addMemberAndRebalance, getGroupStatus, vote, doRebalance,
    prepareRebalance, setGroupStatus, bind, gets, modify, ret.
  cbn [groupStatus]. rewrite (bool_decide_eq_true_2 (Empty = Empty)) by done.
  cbn [canRebalance with_members with_groupStatus with_supportedProtocol
       with_canRebalance with_generationId groupId groupStatus
       supportedProtocol groupProtocols protocolType leader members
       generationId sessionTimeoutMs partitionedTopic].
  unfold admittedId, firstMember. by rewrite insert_empty.
Qed.

(** The join barrier of a group whose only member is the caller: the first
    test of the loop succeeds. *)
Lemma awaitingJoin_alone ticks id m g :
  members g = {[id := m]} →
  awaitingJoin ticks id g
  = Ret (None,
         with_groupStatus CompletingRebalance
           (with_members {[id := with_joinGenerationId (generationId g) m]}
              g)).
Proof.
  intros Hm. destruct g as [gid st sp gps pt l ms can gen sto tps].
  cbn in Hm. subst ms.
  assert (map_Forall (λ _ m', joinGenerationId m' = gen)
            ({[id := with_joinGenerationId gen m]}
               : gmap string memberMetadata)) as Hall
    by by apply map_Forall_singleton.
  destruct ticks as [|ticks]; cbn [awaitingJoin].
  all: unfold getGroupGenerationId, checkJoinMemberGenerationId,
         setGroupStatus, bind, gets, modify, ret.
  all: cbn [members generationId]; rewrite lookup_singleton_eq.
  all: case_bool_decide as Hgen; cbn [negb].
  all: cbn [members generationId with_members].
  all: rewrite ?insert_singleton_eq.
  all: try (assert (with_joinGenerationId gen m = m) as Heq
              by (by destruct m; cbn in *; subst);
            rewrite Heq in *).
  all: by rewrite bool_decide_eq_true_2 by done.
Qed.

Lemma getLeaderMembers_alone id m g :
  members g = {[id := m]} → leader g = "" →
  getLeaderMembers id g
  = Ret ([{| m_MemberId := memberId m; m_GroupInstanceId := None;
             m_Metadata := metadata m |}], with_leader id g).
Proof.
  intros Hm Hl. destruct g as [gid st sp gps pt l ms can gen sto tps].
  cbn in Hm, Hl. subst ms l.
  unfold getLeaderMembers, isMemberLeader, getMemberLeader, setMemberLeader,
    bind, gets, modify, ret.
  cbn [leader with_leader members].
  rewrite (bool_decide_eq_true_2 ("" = "")) by done.
  cbn [leader with_leader members].
  rewrite (bool_decide_eq_true_2 (id = id)) by done.
  cbn [members with_leader]. by rewrite map_to_list_singleton.
Qed.

Lemma joinGroup_first cfg env memberId clientId ptype p ps g :
  ptype ≠ "" →
  groupStatus g = Empty → members g = ∅ → leader g = "" →
  canRebalance g = true →
  let id := admittedId env clientId memberId in
  let cur := firstMember clientId id ptype (generationId g + 1) (p :: ps)
               (ProtocolName p) in
  joinGroup cfg env memberId clientId ptype (p :: ps) g
  = Ret ({| jg_ErrorCode := NONE; jg_GenerationId := generationId g + 1;
            jg_ProtocolType := Some (protocolType g);
            jg_ProtocolName := ProtocolName p;
            jg_LeaderId := id; jg_MemberId := id;
            jg_Members := [{| m_MemberId := id; m_GroupInstanceId := None;
                              m_Metadata := metadata cur |}] |},
         firstJoined clientId id ptype p ps g).
Proof.
  intros Hpt Hs Hm Hl Hcan id cur.
  unfold joinGroup. unfold bind at 1.
  rewrite joinGroupProtocolCheck_first by done. cbn [fst snd].
  unfold getGroupMembersLen, getGroupStatus. unfold bind at 1, gets at 1.
  rewrite Hm, map_size_empty.
  replace ((MaxConsumersPerGroup cfg >? 0)
           && (Z.of_nat 0 >=? MaxConsumersPerGroup cfg)) with false
    by (change (Z.of_nat 0) with 0; lia).
  unfold bind at 1, gets at 1. rewrite Hs.
  rewrite (bool_decide_eq_false_2 (Empty = Dead)) by done.
  unfold bind at 1, gets at 1. rewrite Hs.
  rewrite (bool_decide_eq_false_2 (Empty = PreparingRebalance)) by done.
  rewrite (bool_decide_eq_false_2 (Empty = CompletingRebalance)) by done.
  rewrite (bool_decide_eq_true_2 (Empty = Empty)) by done. cbn [orb].
  unfold joinEmptyOrStable, checkMemberExist, isMemberLeader,
    getMemberLeader.
  unfold bind at 1, gets at 1. rewrite Hm, lookup_empty.
  rewrite (bool_decide_eq_false_2 (is_Some None))
    by (by intros [? ?]).
  unfold bind at 1, gets at 1. unfold bind at 1. unfold bind at 1, gets at 1.
  unfold ret at 1. cbn [negb]. rewrite orb_true_r.
  unfold bind at 1.
  rewrite addNewMemberAndReBalance_first by done. cbn [fst snd].
  unfold bind at 1.
  erewrite awaitingJoin_alone by reflexivity.
  unfold bind at 1.
  erewrite getLeaderMembers_alone; [|reflexivity|by destruct g].
  unfold joinResp, getMemberLeader, bind, gets, ret.
  subst id cur. unfold firstJoined, firstMember.
  destruct g as [gid st sp gps pt l ms can gen sto tps].
  cbn in Hs, Hm, Hl, Hcan. subst. reflexivity.
Qed.

(** X10.  The first join of a group, run with no other call on the group:
    the group does not exist, or it is Empty with no member and no leader.
    With a group id, a session timeout within the configured bounds, a
    protocol type and at least one protocol, the call returns NONE without
    waiting for any other caller: the joiner is registered under the id it
    sent, or under client id, a dash and a fresh identifier when it sent
    none; it is the only member and the leader; the group votes the first
    protocol listed, moves to the next generation, which the response
    carries with the group's protocol type, and is left in
    CompletingRebalance; the member list sent to the leader is the joiner
    itself with its metadata for the voted protocol. *)
Theorem X10_first_join env c username groupId memberId clientId ptype
    sessionTimeoutMs p ps :
  groupId ≠ "" →
  GroupMinSessionTimeoutMs (kafsarConfig c) ≤ sessionTimeoutMs →
  sessionTimeoutMs ≤ GroupMaxSessionTimeoutMs (kafsarConfig c) →
  ptype ≠ "" →
  let g := default (newGroup groupId ptype sessionTimeoutMs)
             (groupManager c !! (username +:+ groupId)) in
  groupStatus g = Empty → members g = ∅ → leader g = "" →
  canRebalance g = true →
  let id := admittedId env clientId memberId in
  let cur := firstMember clientId id ptype (generationId g + 1) (p :: ps)
               (ProtocolName p) in
  ∃ g',
    HandleJoinGroup env c username groupId memberId clientId ptype
      sessionTimeoutMs (p :: ps)
    = Ret ({| jg_ErrorCode := NONE; jg_GenerationId := generationId g + 1;
              jg_ProtocolType := Some (protocolType g);
              jg_ProtocolName := ProtocolName p;
              jg_LeaderId := id; jg_MemberId := id;
              jg_Members := [{| m_MemberId := id; m_GroupInstanceId := None;
                                m_Metadata := metadata cur |}] |},
           with_groupManager
             (<[username +:+ groupId := g']> (groupManager c)) c) ∧
    members g' = {[id := cur]} ∧
    leader g' = id ∧
    groupStatus g' = CompletingRebalance ∧
    generationId g' = generationId g + 1 ∧
    supportedProtocol g' = ProtocolName p ∧
    canRebalance g' = true ∧
    protocolType g' = protocolType g.
Proof.
  intros Hgid Hmin Hmax Hpt g Hs Hm Hl Hcan id cur.
  exists (firstJoined clientId id ptype p ps g).
  split; [|by rewrite ?Hcan].
  unfold HandleJoinGroup, joinGroupParamsCheck.
  rewrite bool_decide_eq_false_2 by done.
  replace ((sessionTimeoutMs <? GroupMinSessionTimeoutMs (kafsarConfig c))
           || (sessionTimeoutMs >? GroupMaxSessionTimeoutMs (kafsarConfig c)))
    with false by lia.
  cbn [fst snd]. unfold onGroup.
  change (match groupManager c !! (username +:+ groupId) with
          | Some group => group
          | None => newGroup groupId ptype sessionTimeoutMs
          end) with g.
  by rewrite joinGroup_first.
Qed.

Lemma X10_witness :
  let c := NewGroupCoordinatorStandalone cfg0 in
  let g := default (newGroup "g" "consumer" 10000)
             (groupManager c !! ("alice" +:+ "g")) in
  let id := admittedId (env0 "u1") "c" "" in
  let cur := firstMember "c" id "consumer" (generationId g + 1) range
               "range" in
  ∃ g',
    HandleJoinGroup (env0 "u1") c "alice" "g" "" "c" "consumer" 10000 range
    = Ret ({| jg_ErrorCode := NONE; jg_GenerationId := generationId g + 1;
              jg_ProtocolType := Some (protocolType g);
              jg_ProtocolName := "range";
              jg_LeaderId := id; jg_MemberId := id;
              jg_Members := [{| m_MemberId := id; m_GroupInstanceId := None;
                                m_Metadata := metadata cur |}] |},
           with_groupManager
             (<["alice" +:+ "g" := g']> (groupManager c)) c) ∧
    members g' = {[id := cur]} ∧
    leader g' = id ∧
    groupStatus g' = CompletingRebalance ∧
    generationId g' = generationId g + 1 ∧
    supportedProtocol g' = "range" ∧
    canRebalance g' = true ∧
    protocolType g' = protocolType g.
Proof.
  apply (X10_first_join (env0 "u1") (NewGroupCoordinatorStandalone cfg0)
           "alice" "g" "" "c" "consumer" 10000
           {| ProtocolName := "range"; ProtocolMetadata := [] |} []).
  - done.
  - vm_compute. discriminate.
  - vm_compute. discriminate.
  - done.
  - reflexivity.
  - reflexivity.
  - reflexivity.
  - reflexivity.
Defined.




(** Two consumers in a Stable group.  After [stableCalls] a second
    consumer joins under the id ["ghost"] and times out at the join barrier;
    the first rejoins and completes the barrier; the second syncs, then the
    first, the leader, syncs and makes the group Stable. *)
Definition twoStableCalls : list Call :=
  (stableCalls ++
   [JoinGroup (env0 "u2") "alice" "g" "ghost" "c2" "consumer" 10000 range;
    JoinGroup (env0 "u3") "alice" "g" "c-u1" "c" "consumer" 10000 range;
    SyncGroup (env0 "") "alice" "g" "ghost" 2 [];
    SyncGroup (env0 "") "alice" "g" "c-u1" 2
      [{| ga_MemberId := "c-u1"; MemberAssignment := [Byte.x07] |};
       {| ga_MemberId := "ghost"; MemberAssignment := [Byte.x08] |}]])%list.

Definition twoStable : GroupCoordinatorStandalone :=
  match run (NewGroupCoordinatorStandalone cfg0) twoStableCalls with
  | Ret c => c
  | _ => NewGroupCoordinatorStandalone cfg0
  end.

(** The member ["ghost"] of the group of the examples. *)
Definition ghostOfAlice (c : GroupCoordinatorStandalone) : memberMetadata :=
  default
    {| clientId := ""; memberId := ""; metadata := []; assignment := [];
       mm_protocolType := ""; protocols := ∅; joinGenerationId := 0;
       syncGenerationId := 0 |}
    (members (groupOfAlice c) !! "ghost").

(** The second consumer joins again under its id. *)
Definition rejoined : GroupCoordinatorStandalone :=
  after (HandleJoinGroup (env0 "u4") twoStable "alice" "g" "ghost" "c2"
           "consumer" 10000 range).

(** *** A member joins again *)

(** The join barrier of a group all of whose members have joined the
    current generation: the first test of the loop succeeds. *)
Lemma awaitingJoin_complete ticks id cur g :
  members g !! id = Some cur →
  map_Forall (λ _ m, joinGenerationId m = generationId g) (members g) →
  awaitingJoin ticks id g = Ret (None, with_groupStatus CompletingRebalance g).
Proof.
  intros Hcur Hall.
  destruct ticks as [|ticks]; cbn [awaitingJoin].
  all: unfold getGroupGenerationId, checkJoinMemberGenerationId,
         setGroupStatus, bind, gets, modify, ret.
  all: rewrite Hcur.
  all: rewrite (bool_decide_eq_true_2 (joinGenerationId cur = generationId g))
         by (by eapply (Hall id)).
  all: cbn [negb].
  all: by rewrite bool_decide_eq_true_2 by done.
Qed.

Lemma joinGroup_rejoin cfg env memberId clientId ptype protocols g cur :
  memberId ≠ "" →
  groupStatus g = Stable → protocolType g = ptype →
  (0 < MaxConsumersPerGroup cfg →
   Z.of_nat (size (members g)) < MaxConsumersPerGroup cfg) →
  members g !! memberId = Some cur →
  leader g ≠ "" → leader g ≠ memberId →
  map_Forall (λ _ m, joinGenerationId m = generationId g) (members g) →
  joinGroup cfg env memberId clientId ptype protocols g
  = Ret ({| jg_ErrorCode := NONE; jg_GenerationId := generationId g;
            jg_ProtocolType := Some (protocolType g);
            jg_ProtocolName := supportedProtocol g;
            jg_LeaderId := leader g; jg_MemberId := memberId;
            jg_Members := [] |},
         with_groupStatus CompletingRebalance g).
Proof.
  intros Hmid Hs Hpt Hmax Hcur Hl Hlm Hall.
  unfold joinGroup, joinGroupProtocolCheck, getGroupStatus,
    getGroupMembersLen.
  unfold bind at 1. unfold bind at 1, gets at 1. unfold bind at 1, gets at 1.
  unfold bind at 1, gets at 1. rewrite Hs, Hpt.
  rewrite (bool_decide_eq_false_2 (Stable = Empty)) by done.
  rewrite (bool_decide_eq_true_2 (ptype = ptype)) by done.
  cbn [negb andb supportsProtocols].
  unfold bind at 1, gets at 1. rewrite Hs.
  rewrite (bool_decide_eq_false_2 (Stable = Empty)) by done.
  cbn [andb]. unfold ret at 1. cbn [fst snd].
  unfold bind at 1, gets at 1.
  replace ((MaxConsumersPerGroup cfg >? 0)
           && (Z.of_nat (size (members g)) >=? MaxConsumersPerGroup cfg))
    with false by lia.
  unfold bind at 1, gets at 1. rewrite Hs.
  rewrite (bool_decide_eq_false_2 (Stable = Dead)) by done.
  unfold bind at 1, gets at 1. rewrite Hs.
  rewrite (bool_decide_eq_false_2 (Stable = PreparingRebalance)) by done.
  rewrite (bool_decide_eq_false_2 (Stable = CompletingRebalance)) by done.
  rewrite (bool_decide_eq_true_2 (Stable = Stable)) by done.
  rewrite orb_true_r.
  unfold joinEmptyOrStable, checkMemberExist, isMemberLeader,
    getMemberLeader.
  unfold bind at 1, gets at 1. rewrite Hcur.
  rewrite (bool_decide_eq_true_2 (is_Some (Some cur))) by (by eexists).
  unfold bind at 1, gets at 1. unfold bind at 1. unfold bind at 1, gets at 1.
  unfold ret at 1.
  rewrite (bool_decide_eq_false_2 (leader g = memberId)) by done.
  rewrite (bool_decide_eq_false_2 (memberId = EmptyMemberId)) by done.
  cbn [negb orb matchProtocols]. unfold bind at 1, ret at 1. cbn [fst snd].
  unfold bind at 1. rewrite (awaitingJoin_complete _ _ cur) by done.
  unfold bind at 1.
  unfold getLeaderMembers, isMemberLeader, getMemberLeader, joinResp,
    getMemberLeader, bind, gets, ret.
  cbn [leader with_groupStatus].
  rewrite (bool_decide_eq_false_2 (leader g = "")) by done.
  rewrite (bool_decide_eq_false_2 (leader g = memberId)) by done.
  by rewrite <- Hpt.
Qed.

(** X12.  A member joins again.  The group is Stable, every member has
    joined its generation, and the caller is a member that is not the
    leader; its protocol type is the group's and the group is below the
    configured size, when one is configured.  Run with no other call on the
    group, the call returns NONE without waiting for any other caller: no
    rebalance is started and the response carries the generation, protocol
    and leader the group already has, with no member list; the one change
    is the status, which the join barrier sets to CompletingRebalance. *)
Theorem X12_member_rejoin env c username groupId memberId clientId ptype
    sessionTimeoutMs protocols g cur :
  groupId ≠ "" →
  GroupMinSessionTimeoutMs (kafsarConfig c) ≤ sessionTimeoutMs →
  sessionTimeoutMs ≤ GroupMaxSessionTimeoutMs (kafsarConfig c) →
  memberId ≠ "" →
  groupManager c !! (username +:+ groupId) = Some g →
  groupStatus g = Stable → protocolType g = ptype →
  (0 < MaxConsumersPerGroup (kafsarConfig c) →
   Z.of_nat (size (members g)) < MaxConsumersPerGroup (kafsarConfig c)) →
  members g !! memberId = Some cur →
  leader g ≠ "" → leader g ≠ memberId →
  map_Forall (λ _ m, joinGenerationId m = generationId g) (members g) →
  HandleJoinGroup env c username groupId memberId clientId ptype
    sessionTimeoutMs protocols
  = Ret ({| jg_ErrorCode := NONE; jg_GenerationId := generationId g;
            jg_ProtocolType := Some (protocolType g);
            jg_ProtocolName := supportedProtocol g;
            jg_LeaderId := leader g; jg_MemberId := memberId;
            jg_Members := [] |},
         with_groupManager
           (<[username +:+ groupId := with_groupStatus CompletingRebalance g]>
              (groupManager c)) c).
Proof.
  intros Hgid Hmin Hmax Hmid Hg Hs Hpt Hsize Hcur Hl Hlm Hall.
  unfold HandleJoinGroup, joinGroupParamsCheck.
  rewrite bool_decide_eq_false_2 by done.
  replace ((sessionTimeoutMs <? GroupMinSessionTimeoutMs (kafsarConfig c))
           || (sessionTimeoutMs >? GroupMaxSessionTimeoutMs (kafsarConfig c)))
    with false by lia.
  cbn [fst snd]. rewrite Hg. unfold onGroup.
  by rewrite (joinGroup_rejoin _ _ _ _ _ _ _ cur).
Qed.

Lemma X12_witness :
  HandleJoinGroup (env0 "u4") twoStable "alice" "g" "ghost" "c2" "consumer"
    10000 range
  = Ret ({| jg_ErrorCode := NONE;
            jg_GenerationId := generationId (groupOfAlice twoStable);
            jg_ProtocolType := Some (protocolType (groupOfAlice twoStable));
            jg_ProtocolName := supportedProtocol (groupOfAlice twoStable);
            jg_LeaderId := leader (groupOfAlice twoStable);
            jg_MemberId := "ghost"; jg_Members := [] |},
         with_groupManager
           (<["alice" +:+ "g" :=
                with_groupStatus CompletingRebalance (groupOfAlice twoStable)]>
              (groupManager twoStable)) twoStable).
Proof.
  apply (X12_member_rejoin (env0 "u4") twoStable "alice" "g" "ghost" "c2"
           "consumer" 10000 range (groupOfAlice twoStable)
           (ghostOfAlice twoStable)).
  - done.
  - vm_compute. discriminate.
  - vm_compute. discriminate.
  - done.
  - vm_compute. reflexivity.
  - vm_compute. reflexivity.
  - vm_compute. reflexivity.
  - vm_compute. discriminate.
  - vm_compute. reflexivity.
  - vm_compute. discriminate.
  - vm_compute. discriminate.
  - assert (members (groupOfAlice twoStable)
            = <["ghost" := ghostOfAlice twoStable]>
                {["c-u1" := memberOfAlice twoStable]}) as ->
      by (vm_compute; reflexivity).
    apply map_Forall_insert_2; [vm_compute; reflexivity|].
    apply map_Forall_singleton. vm_compute. reflexivity.
Defined.



(** *** SyncGroup in CompletingRebalance, step by step *)

(** The member map after the assignment loop of the leader. *)
Definition store (ms : gmap string memberMetadata) (a : GroupAssignment)
  : gmap string memberMetadata :=
  alter (with_assignment (MemberAssignment a)) (ga_MemberId a) ms.

Definition stored (groupAssignments : list GroupAssignment)
    (ms : gmap string memberMetadata) : gmap string memberMetadata :=
  fold_left store groupAssignments ms.

(** The member map after [curMember.syncGenerationId =
    curMember.joinGenerationId]. *)
Definition markSynced (memberId : string) (ms : gmap string memberMetadata)
  : gmap string memberMetadata :=
  alter (λ cur, with_syncGenerationId (joinGenerationId cur) cur) memberId ms.

Definition allSynced (ms : gmap string memberMetadata) : bool :=
  bool_decide
    (map_Forall (λ _ m, syncGenerationId m = joinGenerationId m) ms).

(** Every member a SyncGroup request assigns to is in the group. *)
Definition assignable (groupAssignments : list GroupAssignment) (g : Group)
  : Prop :=
  Forall (λ a, is_Some (members g !! ga_MemberId a)) groupAssignments.

Lemma with_members_same g : with_members (members g) g = g.
Proof. by destruct g. Qed.

Lemma insert_store (ms : gmap string memberMetadata) a m :
  ms !! ga_MemberId a = Some m →
  <[ga_MemberId a := with_assignment (MemberAssignment a) m]> ms
  = store ms a.
Proof.
  intros Hm. unfold store. apply map_eq. intros k.
  destruct (decide (ga_MemberId a = k)) as [<-|Hne].
  - by rewrite lookup_insert_eq, lookup_alter_eq, Hm.
  - by rewrite lookup_insert_ne, lookup_alter_ne.
Qed.

Lemma storeAssignments_eq groupAssignments g :
  storeAssignments groupAssignments g
  = if bool_decide (assignable groupAssignments g)
    then Ret (tt, with_members (stored groupAssignments (members g)) g)
    else Panic.
Proof.
  revert g. induction groupAssignments as [|a rest IH]; intros g.
  - cbn [storeAssignments]. unfold ret, stored. cbn [fold_left].
    rewrite bool_decide_eq_true_2 by apply Forall_nil_2.
    by rewrite with_members_same.
  - cbn [storeAssignments]. unfold bind at 1, storeAssignment, bind, gets.
    destruct (members g !! ga_MemberId a) as [m|] eqn:Hm.
    + unfold modify. rewrite IH. cbn [members with_members].
      rewrite (insert_store _ _ _ Hm).
      apply (f_equal (λ b : bool, if b then _ else _)).
      apply bool_decide_ext. unfold assignable.
      rewrite Forall_cons. cbn [members with_members].
      split.
      * intros Hall. split; [by rewrite Hm|].
        eapply Forall_impl; [done|]. intros b. cbn beta. unfold store.
        by rewrite lookup_alter_is_Some.
      * intros [_ Hall]. eapply Forall_impl; [done|]. intros b.
        cbn beta. unfold store. by rewrite lookup_alter_is_Some.
    + rewrite bool_decide_eq_false_2; [done|].
      unfold assignable. rewrite Forall_cons, Hm. by intros [[? ?] _].
Qed.

Lemma awaitingSync_eq ticks g :
  awaitingSync ticks g
  = Ret (if allSynced (members g) then None else Errorf "sync wait timeout",
         g).
Proof.
  unfold allSynced.
  induction ticks as [|ticks IH]; cbn [awaitingSync];
    unfold bind, checkSyncMemberGenerationId, gets;
    destruct (bool_decide _) eqn:Hb; try done.
Qed.

Lemma dom_stored groupAssignments (ms : gmap string memberMetadata) k :
  is_Some (stored groupAssignments ms !! k) ↔ is_Some (ms !! k).
Proof.
  revert ms. induction groupAssignments as [|a rest IH]; intros ms; [done|].
  cbn. rewrite IH. unfold store. by rewrite lookup_alter_is_Some.
Qed.

(** The answer of the CompletingRebalance branch in terms of the member map
    the call leaves behind. *)
Definition syncAnswer (memberId : string) (ms : gmap string memberMetadata)
  : SyncGroupResp :=
  syncResp (if allSynced ms then NONE else REBALANCE_IN_PROGRESS)
    (default [] (assignment <$> ms !! memberId)).

Lemma syncCompletingRebalance_eq env memberId groupAssignments g :
  is_Some (members g !! memberId) →
  syncCompletingRebalance env memberId groupAssignments g
  = if bool_decide (leader g = memberId) then
      if bool_decide (assignable groupAssignments g) then
        let ms := markSynced memberId
                    (stored groupAssignments (members g)) in
        Ret (syncAnswer memberId ms,
             with_groupStatus Stable (with_members ms g))
      else Panic
    else
      let ms := markSynced memberId (members g) in
      Ret (syncAnswer memberId ms, with_members ms g).
Proof.
  intros Hcur. unfold syncCompletingRebalance.
  unfold bind at 1. unfold isMemberLeader, getMemberLeader, bind, gets, ret.
  destruct (bool_decide (leader g = memberId)) eqn:Hl.
  - rewrite storeAssignments_eq.
    destruct (bool_decide (assignable groupAssignments g)); [|done].
    unfold modify. rewrite awaitingSync_eq.
    cbn [members with_members leader with_groupStatus]. rewrite Hl.
    unfold setGroupStatus, modify, curMemberField, bind, gets, ret.
    cbn [members with_members leader with_groupStatus].
    fold (markSynced memberId (stored groupAssignments (members g))).
    assert (is_Some (markSynced memberId
                       (stored groupAssignments (members g)) !! memberId))
      as [m Hm].
    { unfold markSynced. rewrite lookup_alter_is_Some. by apply dom_stored. }
    rewrite Hm. unfold syncAnswer. rewrite Hm. cbn [fmap option_fmap
      option_map default].
    destruct (allSynced _); cbn [leader with_groupStatus with_members];
      rewrite ?Hl; done.
  - unfold modify. rewrite awaitingSync_eq.
    cbn [members with_members leader with_groupStatus]. rewrite Hl.
    unfold curMemberField, bind, gets, ret.
    cbn [members with_members leader with_groupStatus].
    fold (markSynced memberId (members g)).
    assert (is_Some (markSynced memberId (members g) !! memberId))
      as [m Hm].
    { unfold markSynced. by rewrite lookup_alter_is_Some. }
    rewrite Hm. unfold syncAnswer. rewrite Hm. cbn [fmap option_fmap
      option_map default].
    destruct (allSynced _); cbn [leader with_groupStatus with_members];
      rewrite ?Hl; done.
Qed.

Lemma HandleSyncGroup_completing env c username groupId memberId generation
    groupAssignments g :
  groupId ≠ "" → memberId ≠ "" →
  groupManager c !! (username +:+ groupId) = Some g →
  is_Some (members g !! memberId) →
  groupStatus g = CompletingRebalance →
  HandleSyncGroup env c username groupId memberId generation groupAssignments
  = onGroup (username +:+ groupId) g
      (syncCompletingRebalance env memberId groupAssignments) c.
Proof.
  intros Hgid Hmid Hg [cur Hcur] Hs.
  unfold HandleSyncGroup, syncGroupParamsCheck.
  rewrite !bool_decide_eq_false_2 by done. cbn [fst snd]. rewrite Hg.
  unfold onGroup, syncGroup, bind, gets, getGroupStatus.
  rewrite Hcur. unfold gets. by rewrite Hs.
Qed.



(** *** The leader's SyncGroup and what the members read back *)

(** The assignment of member [k] after the leader's assignment loop over
    [groupAssignments]: the last one listed for [k], or the old one. *)
Fixpoint assignedTo (k : string) (groupAssignments : list GroupAssignment)
    (old : bytes) : bytes :=
  match groupAssignments with
  | [] => old
  | a :: rest =>
      assignedTo k rest
        (if bool_decide (ga_MemberId a = k) then MemberAssignment a else old)
  end.

Lemma with_assignment_same m : with_assignment (assignment m) m = m.
Proof. by destruct m. Qed.

Lemma stored_lookup groupAssignments (ms : gmap string memberMetadata) k :
  stored groupAssignments ms !! k
  = (λ m, with_assignment (assignedTo k groupAssignments (assignment m)) m)
      <$> ms !! k.
Proof.
  revert ms. induction groupAssignments as [|a rest IH]; intros ms.
  - cbn. destruct (ms !! k) as [m|]; cbn; [|done].
    by rewrite with_assignment_same.
  - cbn [stored fold_left assignedTo]. fold (stored rest (store ms a)).
    rewrite IH. unfold store.
    destruct (decide (ga_MemberId a = k)) as [<-|Hne].
    + rewrite lookup_alter_eq, bool_decide_eq_true_2 by done.
      by destruct (ms !! ga_MemberId a).
    + rewrite lookup_alter_ne, bool_decide_eq_false_2 by done. done.
Qed.

Lemma markSynced_assignment memberId (ms : gmap string memberMetadata) k :
  assignment <$> markSynced memberId ms !! k = assignment <$> ms !! k.
Proof.
  unfold markSynced. destruct (decide (memberId = k)) as [<-|Hne].
  - rewrite lookup_alter_eq. by destruct (ms !! memberId).
  - by rewrite lookup_alter_ne.
Qed.

Lemma allSynced_markSynced memberId groupAssignments
    (ms : gmap string memberMetadata) :
  allSynced (markSynced memberId (stored groupAssignments ms)) = true ↔
  ∀ k m, k ≠ memberId → ms !! k = Some m →
         syncGenerationId m = joinGenerationId m.
Proof.
  unfold allSynced. rewrite bool_decide_eq_true. unfold markSynced. split.
  - intros Hall k m Hne Hm.
    specialize (Hall k (with_assignment
                          (assignedTo k groupAssignments (assignment m)) m)).
    rewrite lookup_alter_ne, stored_lookup, Hm in Hall by done.
    by apply Hall.
  - intros Hall k m'. destruct (decide (memberId = k)) as [<-|Hne].
    + rewrite lookup_alter_eq. destruct (stored _ _ !! memberId); [|done].
      by intros [= <-].
    + rewrite lookup_alter_ne, stored_lookup by done.
      destruct (ms !! k) as [m|] eqn:Hm; [|done]. intros [= <-]. cbn.
      by eapply Hall.
Qed.

Lemma HandleSyncGroup_stable env c username groupId memberId generation
    groupAssignments g cur :
  groupId ≠ "" → memberId ≠ "" →
  groupManager c !! (username +:+ groupId) = Some g →
  members g !! memberId = Some cur →
  groupStatus g = Stable →
  HandleSyncGroup env c username groupId memberId generation groupAssignments
  = Ret (syncResp NONE (assignment cur), c).
Proof.
  intros Hgid Hmid Hg Hcur Hs.
  unfold HandleSyncGroup, syncGroupParamsCheck.
  rewrite !bool_decide_eq_false_2 by done. cbn [fst snd]. rewrite Hg.
  unfold onGroup, syncGroup, bind, gets, getGroupStatus, curMemberField,
    bind, gets, ret.
  rewrite Hcur, Hs. repeat (case_bool_decide; try done). cbn [orb].
  rewrite Hcur. by rewrite write_back_same.
Qed.

(** The group the leader's SyncGroup leaves behind. *)
Definition leaderSynced (memberId : string)
    (groupAssignments : list GroupAssignment) (g : Group) : Group :=
  with_groupStatus Stable
    (with_members (markSynced memberId (stored groupAssignments (members g)))
       g).

Lemma HandleSyncGroup_leader env c username groupId memberId generation
    groupAssignments g cur :
  groupId ≠ "" → memberId ≠ "" →
  groupManager c !! (username +:+ groupId) = Some g →
  members g !! memberId = Some cur →
  groupStatus g = CompletingRebalance →
  leader g = memberId →
  assignable groupAssignments g →
  HandleSyncGroup env c username groupId memberId generation groupAssignments
  = Ret (syncAnswer memberId (members (leaderSynced memberId groupAssignments
                                         g)),
         with_groupManager
           (<[username +:+ groupId :=
                leaderSynced memberId groupAssignments g]> (groupManager c))
           c).
Proof.
  intros Hgid Hmid Hg Hcur Hs Hl Hall.
  rewrite (HandleSyncGroup_completing _ _ _ _ _ _ _ g) by done.
  unfold onGroup. rewrite syncCompletingRebalance_eq by done.
  by rewrite !bool_decide_eq_true_2 by done.
Qed.

(** X14.  The leader's SyncGroup on a group in CompletingRebalance, with
    every assignee a member: the call returns, the group is Stable
    afterwards whether the answer is NONE or REBALANCE_IN_PROGRESS, every
    member's assignment is the last one the request lists for it (its old
    one when none is listed), and the response carries the leader's own.
    When every other member has synced its generation before the call, the
    barrier is complete with the leader's own mark and the answer is
    NONE. *)
Theorem X14_leader_sync env c username groupId memberId generation
    groupAssignments g cur :
  groupId ≠ "" → memberId ≠ "" →
  groupManager c !! (username +:+ groupId) = Some g →
  members g !! memberId = Some cur →
  groupStatus g = CompletingRebalance →
  leader g = memberId →
  Forall (λ a, is_Some (members g !! ga_MemberId a)) groupAssignments →
  ∃ resp g',
    HandleSyncGroup env c username groupId memberId generation
      groupAssignments
    = Ret (resp,
           with_groupManager
             (<[username +:+ groupId := g']> (groupManager c)) c) ∧
    groupStatus g' = Stable ∧
    generationId g' = generationId g ∧ leader g' = leader g ∧
    (∀ k, assignment <$> members g' !! k
          = (λ m, assignedTo k groupAssignments (assignment m))
              <$> members g !! k) ∧
    sg_MemberAssignment resp
    = assignedTo memberId groupAssignments (assignment cur) ∧
    (sg_ErrorCode resp = NONE ∨ sg_ErrorCode resp = REBALANCE_IN_PROGRESS) ∧
    ((∀ k m, k ≠ memberId → members g !! k = Some m →
             syncGenerationId m = joinGenerationId m) →
     sg_ErrorCode resp = NONE).
Proof.
  intros Hgid Hmid Hg Hcur Hs Hl Hall.
  eexists _, _. split; [by eapply HandleSyncGroup_leader|].
  assert (∀ k, assignment <$> members (leaderSynced memberId groupAssignments
                                         g) !! k
               = (λ m, assignedTo k groupAssignments (assignment m))
                   <$> members g !! k) as Hassign.
  { intros k. cbn. rewrite markSynced_assignment, stored_lookup.
    by destruct (members g !! k). }
  split_and!; try done.
  - unfold syncAnswer. cbn [sg_MemberAssignment syncResp].
    by rewrite Hassign, Hcur.
  - unfold syncAnswer. cbn [sg_ErrorCode syncResp].
    destruct (allSynced _); by auto.
  - intros Hothers.
    apply (allSynced_markSynced memberId groupAssignments) in Hothers.
    unfold syncAnswer.
    cbn [sg_ErrorCode syncResp leaderSynced members with_members
         with_groupStatus].
    by rewrite Hothers.
Qed.

Lemma X14_witness :
  ∃ resp g',
    HandleSyncGroup (env0 "") joined "alice" "g" "c-u1" 1
      [{| ga_MemberId := "c-u1"; MemberAssignment := [Byte.x07] |}]
    = Ret (resp,
           with_groupManager
             (<["alice" +:+ "g" := g']> (groupManager joined)) joined) ∧
    groupStatus g' = Stable ∧
    generationId g' = generationId (groupOfAlice joined) ∧
    leader g' = leader (groupOfAlice joined) ∧
    (∀ k, assignment <$> members g' !! k
          = (λ m, assignedTo k
                    [{| ga_MemberId := "c-u1";
                        MemberAssignment := [Byte.x07] |}] (assignment m))
              <$> members (groupOfAlice joined) !! k) ∧
    sg_MemberAssignment resp
    = assignedTo "c-u1"
        [{| ga_MemberId := "c-u1"; MemberAssignment := [Byte.x07] |}]
        (assignment (memberOfAlice joined)) ∧
    (sg_ErrorCode resp = NONE ∨ sg_ErrorCode resp = REBALANCE_IN_PROGRESS) ∧
    ((∀ k m, k ≠ "c-u1" → members (groupOfAlice joined) !! k = Some m →
             syncGenerationId m = joinGenerationId m) →
     sg_ErrorCode resp = NONE).
Proof.
  apply (X14_leader_sync (env0 "") joined "alice" "g" "c-u1" 1
           [{| ga_MemberId := "c-u1"; MemberAssignment := [Byte.x07] |}]
           (groupOfAlice joined) (memberOfAlice joined)).
  - done.
  - done.
  - vm_compute. reflexivity.
  - vm_compute. reflexivity.
  - vm_compute. reflexivity.
  - vm_compute. reflexivity.
  - apply Forall_cons. split; [|apply Forall_nil_2].
    vm_compute. eexists. reflexivity.
Defined.

(** X15.  What the leader assigns is what the members read back: after the
    leader's SyncGroup of X14, a SyncGroup from any member of the group,
    whatever generation and assignments it sends, is answered with NONE and
    the assignment the leader's request listed last for that member (the
    member's old one when none was listed), and changes nothing. *)
Theorem X15_sync_round_trip env c username groupId memberId generation
    groupAssignments g resp c' env' k m generation' groupAssignments' :
  groupId ≠ "" → memberId ≠ "" →
  groupManager c !! (username +:+ groupId) = Some g →
  is_Some (members g !! memberId) →
  groupStatus g = CompletingRebalance →
  leader g = memberId →
  Forall (λ a, is_Some (members g !! ga_MemberId a)) groupAssignments →
  HandleSyncGroup env c username groupId memberId generation
    groupAssignments = Ret (resp, c') →
  k ≠ "" →
  members g !! k = Some m →
  HandleSyncGroup env' c' username groupId k generation' groupAssignments'
  = Ret (syncResp NONE (assignedTo k groupAssignments (assignment m)), c').
Proof.
  intros Hgid Hmid Hg [cur Hcur] Hs Hl Hall Hsync Hk Hm.
  rewrite (HandleSyncGroup_leader _ _ _ _ _ _ _ g cur) in Hsync by done.
  injection Hsync as _ <-.
  assert (∃ m', members (leaderSynced memberId groupAssignments g) !! k
                = Some m' ∧
                assignment m'
                = assignedTo k groupAssignments (assignment m))
    as (m' & Hm' & Ha).
  { pose proof (markSynced_assignment memberId
                  (stored groupAssignments (members g)) k) as Heq.
    rewrite stored_lookup, Hm in Heq. cbn in Heq. cbn.
    destruct (markSynced _ _ !! k) as [m'|]; [|done].
    exists m'. split; [done|]. by injection Heq. }
  rewrite (HandleSyncGroup_stable _ _ _ _ _ _ _
             (leaderSynced memberId groupAssignments g) m');
    [by rewrite Ha|done|done| |done|done].
  cbn. by rewrite lookup_insert_eq.
Qed.

(** The leader of [joined] assigns itself one byte. *)
Definition assignSeven : list GroupAssignment :=
  [{| ga_MemberId := "c-u1"; MemberAssignment := [Byte.x07] |}].

Definition assigned : GroupCoordinatorStandalone :=
  after (HandleSyncGroup (env0 "") joined "alice" "g" "c-u1" 1 assignSeven).

Lemma X15_witness :
  HandleSyncGroup (env0 "") assigned "alice" "g" "c-u1" 2 []
  = Ret (syncResp NONE
           (assignedTo "c-u1" assignSeven (assignment (memberOfAlice joined))),
         assigned).
Proof.
  apply (X15_sync_round_trip (env0 "") joined "alice" "g" "c-u1" 1
           assignSeven (groupOfAlice joined) (syncResp NONE [Byte.x07])
           assigned (env0 "") "c-u1" (memberOfAlice joined) 2 []).
  - done.
  - done.
  - vm_compute. reflexivity.
  - vm_compute. eexists. reflexivity.
  - vm_compute. reflexivity.
  - vm_compute. reflexivity.
  - apply Forall_cons. split; [|apply Forall_nil_2].
    vm_compute. eexists. reflexivity.
  - vm_compute. reflexivity.
  - done.
  - vm_compute. reflexivity.
Defined.

Lemma HandleSyncGroup_follower env c username groupId memberId generation
    groupAssignments g :
  groupId ≠ "" → memberId ≠ "" →
  groupManager c !! (username +:+ groupId) = Some g →
  is_Some (members g !! memberId) →
  groupStatus g = CompletingRebalance →
  leader g ≠ memberId →
  HandleSyncGroup env c username groupId memberId generation groupAssignments
  = Ret (syncAnswer memberId (markSynced memberId (members g)),
         with_groupManager
           (<[username +:+ groupId :=
                with_members (markSynced memberId (members g)) g]>
              (groupManager c)) c).
Proof.
  intros Hgid Hmid Hg Hcur Hs Hl.
  rewrite (HandleSyncGroup_completing _ _ _ _ _ _ _ g) by done.
  unfold onGroup. rewrite syncCompletingRebalance_eq by done.
  by rewrite bool_decide_eq_false_2 by done.
Qed.

(** X16.  A SyncGroup from a member that is not the leader and that
    completes the sync barrier: the group is in CompletingRebalance and
    every other member has synced its generation.  The call returns at once
    with NONE and the assignment stored for the caller; the assignments it
    sends are ignored; the caller is marked as synced and nothing else
    changes: the group stays in CompletingRebalance, which only a SyncGroup
    from the leader ends. *)
Theorem X16_follower_sync env c username groupId memberId generation
    groupAssignments g cur :
  groupId ≠ "" → memberId ≠ "" →
  groupManager c !! (username +:+ groupId) = Some g →
  members g !! memberId = Some cur →
  groupStatus g = CompletingRebalance →
  leader g ≠ memberId →
  (∀ k m, k ≠ memberId → members g !! k = Some m →
          syncGenerationId m = joinGenerationId m) →
  ∃ g',
    HandleSyncGroup env c username groupId memberId generation
      groupAssignments
    = Ret (syncResp NONE (assignment cur),
           with_groupManager
             (<[username +:+ groupId := g']> (groupManager c)) c) ∧
    groupStatus g' = CompletingRebalance ∧
    generationId g' = generationId g ∧ leader g' = leader g ∧
    members g' !! memberId
    = Some (with_syncGenerationId (joinGenerationId cur) cur) ∧
    (∀ k, k ≠ memberId → members g' !! k = members g !! k).
Proof.
  intros Hgid Hmid Hg Hcur Hs Hl Hothers.
  eexists. rewrite (HandleSyncGroup_follower _ _ _ _ _ _ _ g) by done.
  apply (allSynced_markSynced memberId []) in Hothers.
  cbn [stored fold_left] in Hothers.
  unfold syncAnswer. rewrite Hothers. unfold markSynced at 1.
  rewrite lookup_alter_eq, Hcur. cbn [fmap option_fmap option_map default
    with_syncGenerationId assignment].
  split; [done|]. cbn [groupStatus generationId leader members with_members].
  split_and!; try done.
  - unfold markSynced. by rewrite lookup_alter_eq, Hcur.
  - intros k Hne. unfold markSynced. by rewrite lookup_alter_ne.
Qed.

Lemma X16_witness :
  ∃ g',
    HandleSyncGroup (env0 "") rejoined "alice" "g" "ghost" 2 assignSeven
    = Ret (syncResp NONE (assignment (ghostOfAlice rejoined)),
           with_groupManager
             (<["alice" +:+ "g" := g']> (groupManager rejoined)) rejoined) ∧
    groupStatus g' = CompletingRebalance ∧
    generationId g' = generationId (groupOfAlice rejoined) ∧
    leader g' = leader (groupOfAlice rejoined) ∧
    members g' !! "ghost"
    = Some (with_syncGenerationId (joinGenerationId (ghostOfAlice rejoined))
              (ghostOfAlice rejoined)) ∧
    (∀ k, k ≠ "ghost" →
          members g' !! k = members (groupOfAlice rejoined) !! k).
Proof.
  apply (X16_follower_sync (env0 "") rejoined "alice" "g" "ghost" 2
           assignSeven (groupOfAlice rejoined) (ghostOfAlice rejoined)).
  - done.
  - done.
  - vm_compute. reflexivity.
  - vm_compute. reflexivity.
  - vm_compute. reflexivity.
  - vm_compute. discriminate.
  - intros k m Hne.
    assert (members (groupOfAlice rejoined)
            = <["ghost" := ghostOfAlice rejoined]>
                {["c-u1" := memberOfAlice rejoined]}) as ->
      by (vm_compute; reflexivity).
    rewrite lookup_insert_ne by done.
    intros [<- <-]%lookup_singleton_Some. vm_compute. reflexivity.
Defined.

End CoordinatorMore.

(** ** More about the data plane: edge answers, round trips, producers *)

Module BrokerMore.

Import Broker BrokerSpec BrokerFacts.
Local Open Scope list_scope.

Section more.
Context `{backend : Backend} `{!OffsetManager} `{server : Server}.

(** *** Requests that find no user, no topic or no reader *)

(** X17.  OffsetCommit without a user for the address, or for a topic the
    server does not resolve, answers UNKNOWN_SERVER_ERROR for the requested
    partition; without a reader for (partitioned topic, client id) it
    answers REBALANCE_IN_PROGRESS with partition id 0, whatever partition
    was asked for and whatever the group of the topic is doing.  In all
    three cases nothing is committed and the broker is unchanged. *)
Theorem X17_offset_commit_without_reader (b : Broker) addr kafkaTopic
    clientID req :
  (userInfoManager b !! addr = None →
   OffsetCommitPartition b addr kafkaTopic clientID req
   = (offsetCommitResp (ocr_PartitionId req) UNKNOWN_SERVER_ERROR, b)) ∧
  (∀ user e,
     userInfoManager b !! addr = Some user →
     PulsarTopic (username user) kafkaTopic = inr e →
     OffsetCommitPartition b addr kafkaTopic clientID req
     = (offsetCommitResp (ocr_PartitionId req) UNKNOWN_SERVER_ERROR, b)) ∧
  (∀ user topic,
     userInfoManager b !! addr = Some user →
     partitionedTopic user kafkaTopic (ocr_PartitionId req) = inl topic →
     readerManager b !! (topic +:+ clientID) = None →
     OffsetCommitPartition b addr kafkaTopic clientID req
     = (offsetCommitResp 0 REBALANCE_IN_PROGRESS, b)).
Proof.
  unfold OffsetCommitPartition. split_and!.
  - by intros ->.
  - intros user e -> He. unfold partitionedTopic. by rewrite He.
  - intros user topic -> -> ->.
    destruct (topicGroupManager b !! topic) as [groupId|]; [|done].
    destruct (GroupCoordinator.GetGroup _ _ _) as [group|]; [|done].
    by destruct (negb _).
Qed.

(** X18.  FetchPartition without a user for the address, or for a topic the
    server does not resolve, answers UNKNOWN_SERVER_ERROR; without a reader
    for (partitioned topic, client id) it answers NONE.  In all three cases
    the batch is empty with offset 0, no observation of the clock or the
    backend is consumed, and the broker is unchanged. *)
Theorem X18_fetch_without_reader ticks (b : Broker) addr kafkaTopic clientID
    req maxBytes minBytes maxWaitMs :
  let fetch := FetchPartition ticks b addr kafkaTopic clientID req maxBytes
                 minBytes maxWaitMs in
  (userInfoManager b !! addr = None →
   fetch = Some (fetchResp (fpr_PartitionId req) UNKNOWN_SERVER_ERROR 0 [],
                 b)) ∧
  (∀ user e,
     userInfoManager b !! addr = Some user →
     PulsarTopic (username user) kafkaTopic = inr e →
     fetch = Some (fetchResp (fpr_PartitionId req) UNKNOWN_SERVER_ERROR 0 [],
                   b)) ∧
  (∀ user topic,
     userInfoManager b !! addr = Some user →
     partitionedTopic user kafkaTopic (fpr_PartitionId req) = inl topic →
     readerManager b !! (topic +:+ clientID) = None →
     fetch = Some (fetchResp (fpr_PartitionId req) NONE 0 [], b)).
Proof.
  cbn zeta. unfold FetchPartition. split_and!.
  - by intros ->.
  - intros user e -> He. unfold partitionedTopic. by rewrite He.
  - intros user topic -> -> ->.
    destruct (topicGroupManager b !! topic) as [groupId|]; [|done].
    destruct (GroupCoordinator.GetGroup _ _ _) as [group|]; [|done].
    by destruct (negb _).
Qed.

(** *** OffsetCommit on a FIFO with increasing offsets *)

(** The handler on a reader, by the walk [commitUpTo]. *)
Lemma OffsetCommitPartition_reader (b : Broker) addr kafkaTopic clientID req
    user topic reader :
  userInfoManager b !! addr = Some user →
  partitionedTopic user kafkaTopic (ocr_PartitionId req) = inl topic →
  readerManager b !! (topic +:+ clientID) = Some reader →
  OffsetCommitPartition b addr kafkaTopic clientID req
  = match commitUpTo (ocr_Offset req) (messageIds reader) with
    | (Some p, rest) =>
        let r := CommitOffset (offsetManager b) (username user) kafkaTopic
                   (rm_groupId reader) (ocr_PartitionId req) p in
        match r.1 with
        | None =>
            (offsetCommitResp (ocr_PartitionId req) NONE,
             afterCommit b (topic +:+ clientID) reader r.2 rest)
        | Some _ =>
            (offsetCommitResp (ocr_PartitionId req) UNKNOWN_SERVER_ERROR,
             afterCommit b (topic +:+ clientID) reader r.2 (p :: rest))
        end
    | (None, rest) =>
        (offsetCommitResp (ocr_PartitionId req) NONE,
         afterCommit b (topic +:+ clientID) reader (offsetManager b) rest)
    end.
Proof.
  intros Huser Htopic Hreader. unfold OffsetCommitPartition.
  rewrite Huser, Htopic, Hreader.
  pose proof (commitWalk_commitUpTo (messageIds reader) 0 user kafkaTopic
                (rm_groupId reader) (ocr_PartitionId req) (ocr_Offset req)
                (offsetManager b)) as Hwalk.
  rewrite Z.add_0_l in Hwalk. rewrite Hwalk.
  destruct (commitUpTo _ _) as [[p|] rest]; [|done].
  cbn zeta. by destruct (CommitOffset _ _ _ _ _ _) as [[e|] om].
Qed.

(** The offsets of a FIFO increase strictly from the head. *)
Fixpoint increasing (ids : list MessageIdPair) : Prop :=
  match ids with
  | [] => True
  | p :: rest => Forall (λ q, Offset p < Offset q) rest ∧ increasing rest
  end.

Lemma filter_all {A} (P : A → Prop) `{!∀ x, Decision (P x)} (l : list A) :
  Forall P l → filter P l = l.
Proof.
  induction 1 as [|x l Hx Hl IH]; [done|].
  by rewrite filter_cons_True, IH.
Qed.

Lemma commitUpTo_above O ids :
  Forall (λ p, O < Offset p) ids → commitUpTo O ids = (None, ids).
Proof.
  destruct ids as [|p rest]; [done|]. intros Hall.
  apply Forall_cons in Hall as [Hp _]. cbn.
  replace (Offset p =? O) with false by (symmetry; apply Z.eqb_neq; lia).
  by replace (Offset p <? O) with false by (symmetry; apply Z.ltb_ge; lia).
Qed.

Lemma commitUpTo_increasing O ids :
  increasing ids →
  (commitUpTo O ids).2 = filter (λ p, O < Offset p) ids.
Proof.
  induction ids as [|p rest IH]; [done|]. intros Hs.
  destruct Hs as [Hall Hs]. cbn [commitUpTo].
  destruct (Offset p =? O) eqn:Heq; [|destruct (Offset p <? O) eqn:Hlt].
  - apply Z.eqb_eq in Heq. cbn [snd].
    rewrite filter_cons_False by lia. symmetry. apply filter_all.
    eapply Forall_impl; [done|]. intros q. cbn beta. lia.
  - apply Z.ltb_lt in Hlt. rewrite filter_cons_False by lia.
    destruct rest as [|q rest]; [done|]. by apply IH.
  - apply Z.eqb_neq in Heq. apply Z.ltb_ge in Hlt. cbn [snd].
    symmetry. apply filter_all. apply Forall_cons. split; [lia|].
    eapply Forall_impl; [done|]. intros q. cbn beta. lia.
Qed.

Lemma afterCommit_same (b : Broker) key reader :
  readerManager b !! key = Some reader →
  afterCommit b key reader (offsetManager b) (messageIds reader) = b.
Proof.
  intros Hreader. unfold afterCommit, with_offsetManager, with_readerManager.
  cbn. replace (with_messageIds (messageIds reader) reader) with reader
    by (by destruct reader).
  rewrite insert_id by done. by destruct b.
Qed.

(** X19.  On a reader whose FIFO has strictly increasing offsets, an
    OffsetCommit for the offset [O] that is answered with NONE leaves
    exactly the entries with an offset above [O] in the FIFO, in their
    order; the same OffsetCommit sent again is answered with NONE as well,
    persists nothing and leaves the broker as it is. *)
Theorem X19_commit_on_increasing_offsets (b : Broker) addr kafkaTopic
    clientID req user topic reader resp b' :
  userInfoManager b !! addr = Some user →
  partitionedTopic user kafkaTopic (ocr_PartitionId req) = inl topic →
  readerManager b !! (topic +:+ clientID) = Some reader →
  increasing (messageIds reader) →
  OffsetCommitPartition b addr kafkaTopic clientID req = (resp, b') →
  oc_ErrorCode resp = NONE →
  messageIds <$> readerManager b' !! (topic +:+ clientID)
  = Some (filter (λ p, ocr_Offset req < Offset p) (messageIds reader)) ∧
  OffsetCommitPartition b' addr kafkaTopic clientID req = (resp, b').
Proof.
  intros Huser Htopic Hreader Hinc Hcommit Hnone.
  rewrite (OffsetCommitPartition_reader _ _ _ _ _ _ _ _ Huser Htopic Hreader)
    in Hcommit.
  pose proof (commitUpTo_increasing (ocr_Offset req) _ Hinc) as Hrest.
  assert (∃ om,
            resp = offsetCommitResp (ocr_PartitionId req) NONE ∧
            b' = afterCommit b (topic +:+ clientID) reader om
                   (filter (λ p, ocr_Offset req < Offset p)
                      (messageIds reader))) as (om & -> & ->).
  { destruct (commitUpTo _ _) as [[p|] rest]; cbn [snd] in Hrest; subst rest.
    - cbn zeta in Hcommit.
      destruct (CommitOffset _ _ _ _ _ _).1; injection Hcommit as <- <-;
        [done|by eexists].
    - injection Hcommit as <- <-. by eexists. }
  split; [cbn; by rewrite lookup_insert_eq|].
  set (b1 := afterCommit _ _ _ _ _).
  set (reader1 := with_messageIds
                    (filter (λ p, ocr_Offset req < Offset p)
                       (messageIds reader)) reader).
  assert (readerManager b1 !! (topic +:+ clientID) = Some reader1) as Hr1
    by (cbn; by rewrite lookup_insert_eq).
  rewrite (OffsetCommitPartition_reader b1 _ _ _ _ user topic reader1)
    by done.
  rewrite commitUpTo_above.
  - f_equal. by apply afterCommit_same.
  - cbn. apply Forall_forall. intros q Hq.
    by apply list_elem_of_filter in Hq as [? _].
Qed.

(** *** What a fetch returns and what it leaves in the FIFO *)

(** The base offset of a batch that starts in [st] and accepts [msgs]. *)
Definition baseOf (cfg : KafsarConfig) (st : FetchState)
    (msgs : list Message) : Z :=
  if fistMessage st then
    match msgs with
    | [] => baseOffset st
    | message :: _ => convOffset message (ContinuousOffset cfg)
    end
  else baseOffset st.

(** The messages a run of the read loop accepts, in order: the batch grows
    by their records, the FIFO by their (message id, offset) pairs. *)
Lemma fetchLoop_accepts cfg maxBytes minBytes maxWaitMs ticks st e st' :
  fetchLoop cfg maxBytes minBytes maxWaitMs ticks st = Some (e, st') →
  ∃ msgs,
    pending st' = pending st ++ (pairOf cfg <$> msgs) ∧
    records st' = records st ++ (recordOf cfg (baseOf cfg st msgs) <$> msgs) ∧
    baseOffset st' = baseOf cfg st msgs.
Proof.
  revert st. induction ticks as [|t ticks IH]; intros st; [done|].
  cbn [fetchLoop].
  assert (∃ msgs : list Message,
            pending st = pending st ++ (pairOf cfg <$> msgs) ∧
            records st
            = records st ++ (recordOf cfg (baseOf cfg st msgs) <$> msgs) ∧
            baseOffset st = baseOf cfg st msgs) as Hnone.
  { exists []. unfold baseOf. cbn. rewrite !app_nil_r.
    by destruct (fistMessage st). }
  assert (∀ message,
            pending (accept cfg message st)
            = pending st ++ (pairOf cfg <$> [message]) ∧
            records (accept cfg message st)
            = records st
              ++ (recordOf cfg (baseOf cfg st [message]) <$> [message]) ∧
            baseOffset (accept cfg message st) = baseOf cfg st [message])
    as Hone.
  { intros message. unfold baseOf, accept, pairOf, recordOf. cbn.
    by destruct (fistMessage st). }
  destruct (elapsedAtGuard t >=? maxWaitMs); [by intros [= <- <-]|].
  destruct (_ >=? MaxFetchRecord cfg); [by intros [= <- <-]|].
  destruct (negb (flowControl t)); [by intros [= <- <-]|].
  destruct (next t) as [message| |]; [|by intros [= <- <-]|by apply IH].
  destruct (_ && _); [intros [= <- <-]; by eexists|].
  destruct (_ >? maxBytes); [intros [= <- <-]; by eexists|].
  intros Hloop. destruct (IH _ Hloop) as (msgs & Hp & Hr & Hb).
  exists (message :: msgs).
  destruct (Hone message) as (Hp1 & Hr1 & Hb1).
  assert (baseOf cfg (accept cfg message st) msgs
          = baseOf cfg st (message :: msgs)) as Hbase.
  { unfold baseOf at 1. cbn [fistMessage accept]. rewrite Hb1.
    unfold baseOf. by destruct (fistMessage st). }
  rewrite Hbase in *. rewrite Hp, Hr, Hb, Hp1, Hr1.
  assert (baseOf cfg st [message] = baseOf cfg st (message :: msgs)) as ->
    by (unfold baseOf; by destruct (fistMessage st)).
  rewrite !fmap_cons, <- !app_assoc. done.
Qed.

Lemma FetchPartition_reader ticks (b : Broker) addr kafkaTopic clientID req
    maxBytes minBytes maxWaitMs user topic reader :
  userInfoManager b !! addr = Some user →
  partitionedTopic user kafkaTopic (fpr_PartitionId req) = inl topic →
  readerManager b !! (topic +:+ clientID) = Some reader →
  FetchPartition ticks b addr kafkaTopic clientID req maxBytes minBytes
    maxWaitMs
  = match fetchLoop (kafsarConfig b) maxBytes minBytes maxWaitMs ticks
            (fetchStart reader) with
    | None => None
    | Some (_, st) =>
        Some (fetchResp (fpr_PartitionId req) NONE (baseOffset st)
                (records st),
              afterFetch b (topic +:+ clientID) reader (pending st))
    end.
Proof.
  intros Huser Htopic Hreader. unfold FetchPartition.
  by rewrite Huser, Htopic, Hreader.
Qed.

(** X20.  A fetch on a reader answers NONE, and what it returns matches
    what it leaves behind: the FIFO grows at its end by one entry per
    returned record, in order, and the offset of each new entry is the
    offset of the batch plus the relative offset of its record.  The first
    record of a batch has relative offset 0, and an empty batch has
    offset 0. *)
Theorem X20_fetch_offsets ticks (b : Broker) addr kafkaTopic clientID req
    maxBytes minBytes maxWaitMs user topic reader resp b' :
  userInfoManager b !! addr = Some user →
  partitionedTopic user kafkaTopic (fpr_PartitionId req) = inl topic →
  readerManager b !! (topic +:+ clientID) = Some reader →
  FetchPartition ticks b addr kafkaTopic clientID req maxBytes minBytes
    maxWaitMs = Some (resp, b') →
  fp_ErrorCode resp = NONE ∧
  (∃ added,
     messageIds <$> readerManager b' !! (topic +:+ clientID)
     = Some (messageIds reader ++ added) ∧
     Offset <$> added
     = (λ r, rb_Offset (fp_RecordBatch resp) + RelativeOffset r)
         <$> Records (fp_RecordBatch resp)) ∧
  (∀ r, head (Records (fp_RecordBatch resp)) = Some r →
        RelativeOffset r = 0) ∧
  (Records (fp_RecordBatch resp) = [] → rb_Offset (fp_RecordBatch resp) = 0).
Proof.
  intros Huser Htopic Hreader.
  rewrite (FetchPartition_reader _ _ _ _ _ _ _ _ _ _ _ _ Huser Htopic
             Hreader).
  destruct (fetchLoop _ _ _ _ _ _) as [[e st]|] eqn:Hloop; [|done].
  intros [= <- <-].
  destruct (fetchLoop_accepts _ _ _ _ _ _ _ _ Hloop) as (msgs & Hp & Hr & Hb).
  cbn [fetchStart pending records app] in Hp, Hr.
  cbn [fp_ErrorCode fp_RecordBatch fetchResp rb_Offset Records].
  rewrite Hr, Hb. split; [done|]. split; [|split].
  - exists (pairOf (kafsarConfig b) <$> msgs). split.
    + cbn. by rewrite lookup_insert_eq, Hp.
    + rewrite <- !list_fmap_compose. apply list_fmap_ext.
      intros i message _. cbn. lia.
  - unfold baseOf. cbn [fetchStart fistMessage].
    destruct msgs as [|message msgs]; [done|].
    cbn. intros r [= <-]. cbn. lia.
  - unfold baseOf. cbn [fetchStart fistMessage baseOffset].
    by destruct msgs.
Qed.

(** *** From a fetch to the commit of what it returned *)

Lemma commitUpTo_last ids p :
  increasing ids → last ids = Some p →
  commitUpTo (Offset p) ids = (Some p, []).
Proof.
  induction ids as [|q rest IH]; [done|]. intros [Hall Hinc] Hlast.
  destruct rest as [|q' rest].
  - injection Hlast as <-. cbn. by rewrite Z.eqb_refl.
  - assert (Offset q < Offset p) as Hlt.
    { rewrite Forall_forall in Hall. apply Hall.
      change (last (q :: q' :: rest)) with (last (q' :: rest)) in Hlast.
      by apply last_Some_elem_of. }
    cbn [commitUpTo].
    replace (Offset q =? Offset p) with false
      by (symmetry; apply Z.eqb_neq; lia).
    replace (Offset q <? Offset p) with true
      by (symmetry; apply Z.ltb_lt; lia).
    by apply IH.
Qed.

(** X21.  From a fetch to its commit.  When a fetch has returned records
    and the offsets in the reader's FIFO increase strictly, the offset of
    the last returned record (batch offset plus relative offset) is the
    offset of the last FIFO entry, and an OffsetCommit for it, if the offset
    manager accepts the commit, persists that entry, empties the FIFO and
    answers NONE. *)
Theorem X21_fetch_then_commit ticks (b : Broker) addr kafkaTopic clientID
    partitionId maxBytes minBytes maxWaitMs user topic reader resp b' r
    reader' :
  userInfoManager b !! addr = Some user →
  partitionedTopic user kafkaTopic partitionId = inl topic →
  readerManager b !! (topic +:+ clientID) = Some reader →
  FetchPartition ticks b addr kafkaTopic clientID
    {| fpr_PartitionId := partitionId |} maxBytes minBytes maxWaitMs
  = Some (resp, b') →
  last (Records (fp_RecordBatch resp)) = Some r →
  readerManager b' !! (topic +:+ clientID) = Some reader' →
  increasing (messageIds reader') →
  ∃ p,
    last (messageIds reader') = Some p ∧
    Offset p = rb_Offset (fp_RecordBatch resp) + RelativeOffset r ∧
    let commit := CommitOffset (offsetManager b') (username user) kafkaTopic
                    (rm_groupId reader') partitionId p in
    (commit.1 = None →
     OffsetCommitPartition b' addr kafkaTopic clientID
       {| ocr_PartitionId := partitionId; ocr_Offset := Offset p |}
     = (offsetCommitResp partitionId NONE,
        afterCommit b' (topic +:+ clientID) reader' commit.2 [])).
Proof.
  intros Huser Htopic Hreader Hfetch Hlast Hreader' Hinc.
  rewrite (FetchPartition_reader _ _ _ _ _
             {| fpr_PartitionId := partitionId |} _ _ _ _ _ _ Huser Htopic
             Hreader) in Hfetch.
  destruct (fetchLoop _ _ _ _ _ _) as [[e st]|] eqn:Hloop; [|done].
  injection Hfetch as <- <-.
  destruct (fetchLoop_accepts _ _ _ _ _ _ _ _ Hloop) as (msgs & Hp & Hr & Hb).
  cbn [fetchStart pending records app] in Hp, Hr.
  cbn [fp_RecordBatch fetchResp rb_Offset Records] in *.
  cbn in Hreader'. rewrite lookup_insert_eq in Hreader'.
  injection Hreader' as <-. cbn [messageIds with_messageIds] in *.
  rewrite Hr in Hlast. rewrite Hp in *. rewrite Hb.
  destruct (last msgs) as [message|] eqn:Hmsg;
    [|by rewrite fmap_last, Hmsg in Hlast].
  rewrite fmap_last, Hmsg in Hlast. injection Hlast as <-.
  exists (pairOf (kafsarConfig b) message).
  assert (last (messageIds reader ++ (pairOf (kafsarConfig b) <$> msgs))
          = Some (pairOf (kafsarConfig b) message)) as Hlast.
  { destruct msgs as [|m0 msgs] using rev_ind; [done|].
    rewrite fmap_app, app_assoc. cbn. rewrite last_snoc.
    rewrite last_snoc in Hmsg. by injection Hmsg as ->. }
  split; [done|]. split; [cbn; lia|].
  cbn zeta. intros Hok.
  erewrite OffsetCommitPartition_reader; [|done|done|].
  2:{ cbn. by rewrite lookup_insert_eq. }
  cbn [ocr_Offset ocr_PartitionId messageIds with_messageIds rm_groupId].
  rewrite (commitUpTo_last _ _ Hinc Hlast). cbn zeta.
  cbn [rm_groupId with_messageIds] in Hok. by rewrite Hok.
Qed.

(** *** The clock ends every fetch *)

Lemma fetchLoop_deadline cfg maxBytes minBytes maxWaitMs ticks st :
  Exists (λ t, maxWaitMs ≤ elapsedAtGuard t) ticks →
  is_Some (fetchLoop cfg maxBytes minBytes maxWaitMs ticks st).
Proof.
  intros Hex. revert st.
  induction Hex as [t ticks Ht|t ticks Hex IH]; intros st; cbn [fetchLoop].
  - by replace (elapsedAtGuard t >=? maxWaitMs) with true by lia.
  - destruct (elapsedAtGuard t >=? maxWaitMs); [done|].
    destruct (_ >=? MaxFetchRecord cfg); [done|].
    destruct (negb (flowControl t)); [done|].
    destruct (next t) as [message| |]; [|done|by apply IH].
    destruct (_ && _); [done|]. destruct (_ >? maxBytes); [done|].
    by apply IH.
Qed.

Lemma fetchLoop_more cfg maxBytes minBytes maxWaitMs ticks more st r :
  fetchLoop cfg maxBytes minBytes maxWaitMs ticks st = Some r →
  fetchLoop cfg maxBytes minBytes maxWaitMs (ticks ++ more) st = Some r.
Proof.
  revert st. induction ticks as [|t ticks IH]; intros st; [done|].
  cbn [fetchLoop app].
  destruct (elapsedAtGuard t >=? maxWaitMs); [done|].
  destruct (_ >=? MaxFetchRecord cfg); [done|].
  destruct (negb (flowControl t)); [done|].
  destruct (next t) as [message| |]; [|done|by apply IH].
  destruct (_ && _); [done|]. destruct (_ >? maxBytes); [done|].
  by apply IH.
Qed.

(** X22.  The clock ends every fetch: once one of the loop guard's readings
    of the elapsed time has reached [maxWaitMs], FetchPartition has
    returned, whatever the reader and the flow control do; and what it
    returns does not depend on anything observed after the iteration it
    left the loop in. *)
Theorem X22_fetch_returns_by_deadline ticks more (b : Broker) addr
    kafkaTopic clientID req maxBytes minBytes maxWaitMs :
  Exists (λ t, maxWaitMs ≤ elapsedAtGuard t) ticks →
  ∃ r,
    FetchPartition ticks b addr kafkaTopic clientID req maxBytes minBytes
      maxWaitMs = Some r ∧
    FetchPartition (ticks ++ more) b addr kafkaTopic clientID req maxBytes
      minBytes maxWaitMs = Some r.
Proof.
  intros Hex. unfold FetchPartition.
  destruct (userInfoManager b !! addr) as [user|]; [|by eauto].
  destruct (partitionedTopic _ _ _) as [topic|]; [|by eauto].
  destruct (readerManager b !! _) as [reader|].
  - destruct (fetchLoop_deadline (kafsarConfig b) maxBytes minBytes
                maxWaitMs ticks
                {| byteLength := 0; baseOffset := 0; fistMessage := true;
                   records := []; pending := messageIds reader |} Hex)
      as [[e st] Hloop].
    rewrite (fetchLoop_more _ _ _ _ _ more _ _ Hloop), Hloop. by eauto.
  - destruct (topicGroupManager b !! topic) as [groupId|]; [|by eauto].
    destruct (GroupCoordinator.GetGroup _ _ _) as [group|]; [|by eauto].
    destruct (negb _); by eauto.
Qed.

(** *** Produce *)

Lemma awaitSends_acked (batch : list ProduceRecord) (acks : list MessageID)
    id :
  batch ≠ [] →
  acks !! (length batch - 1)%nat = Some id →
  awaitSends batch acks = Ret (ConvertMsgId id).
Proof.
  intros Hne Hid. unfold awaitSends.
  destruct batch as [|record batch]; [done|].
  assert (length (record :: batch) ≤ length acks)%nat as Hlen.
  { apply lookup_lt_Some in Hid. cbn [length] in *. lia. }
  assert (last (take (length (record :: batch)) acks) = Some id) as ->.
  { rewrite last_lookup, length_take, Nat.min_l by done.
    rewrite lookup_take_lt by (cbn [length]; lia).
    by replace (Nat.pred (length (record :: batch)))
      with (length (record :: batch) - 1)%nat by lia. }
  by rewrite bool_decide_eq_true_2.
Qed.

Lemma awaitSends_blocked (batch : list ProduceRecord)
    (acks : list MessageID) :
  batch = [] ∨ (length acks < length batch)%nat →
  awaitSends batch acks = Hang.
Proof.
  intros [->|Hlt]; [done|]. unfold awaitSends.
  destruct batch as [|record batch]; [done|].
  destruct (last _); [|done].
  by rewrite bool_decide_eq_false_2 by lia.
Qed.

(** X23.  Produce for an authenticated connection.  When no producer can
    be had (the server does not resolve the topic, or the connection has no
    producer yet and creating one fails) the answer is
    TOPIC_AUTHORIZATION_FAILED and the broker is unchanged.  Otherwise the
    handler waits for the send callback that brings the count to the size
    of the batch: with an empty batch, or fewer callbacks than records, it
    blocks for ever; else it answers NONE with the requested partition,
    time -1 and the offset converted from the message id that callback was
    run with. *)
Theorem X23_produce_outcomes env (b : Broker) addr kafkaTopic partition req
    user :
  userInfoManager b !! addr = Some user →
  let produce := Produce env b addr kafkaTopic partition req in
  (∀ e b',
     getProducer env b addr (username user) kafkaTopic = (inr e, b') →
     b' = b ∧
     produce = Ret (produceErrorResp TOPIC_AUTHORIZATION_FAILED, b)) ∧
  (∀ producer b',
     getProducer env b addr (username user) kafkaTopic = (inl producer, b') →
     (pr_Records req = [] ∨
      (length (acks env) < length (pr_Records req))%nat →
      produce = Hang) ∧
     (∀ id,
        pr_Records req ≠ [] →
        acks env !! (length (pr_Records req) - 1)%nat = Some id →
        produce
        = Ret ({| pp_ErrorCode := NONE; pp_PartitionId := partition;
                  pp_Offset := ConvertMsgId id; pp_Time := -1;
                  pp_LogStartOffset := 0 |}, b'))).
Proof.
  intros Huser. cbn zeta. unfold Produce. rewrite Huser.
  rewrite bool_decide_eq_true_2 by (by eexists). cbn [negb deref]. split.
  - intros e b' Hget. rewrite Hget.
    assert (b' = b) as ->; [|done].
    unfold getProducer in Hget.
    destruct (PulsarTopic _ _); [|by injection Hget].
    destruct (producerManager b !! addr); [done|].
    destruct (createProducer env); [by injection Hget|done].
  - intros producer b' Hget. rewrite Hget. split.
    + intros Hblocked. by rewrite awaitSends_blocked.
    + intros id Hne Hid. by rewrite (awaitSends_acked _ _ id).
Qed.

(** X24.  A connection keeps the producer it was given first.  After a
    Produce that created the producer of a connection, every later Produce
    on that connection, to whatever topic, leaves the broker as it is: the
    producer registered for the connection is still the one created for the
    first topic. *)
Theorem X24_producer_is_kept env (b : Broker) addr kafkaTopic partition req
    user pulsarTopic resp b' :
  userInfoManager b !! addr = Some user →
  producerManager b !! addr = None →
  PulsarTopic (username user) kafkaTopic = inl pulsarTopic →
  Produce env b addr kafkaTopic partition req = Ret (resp, b') →
  pp_ErrorCode resp = NONE →
  producerManager b' !! addr = Some pulsarTopic ∧
  ∀ env2 kafkaTopic2 partition2 req2 resp2 b'',
    Produce env2 b' addr kafkaTopic2 partition2 req2 = Ret (resp2, b'') →
    b'' = b'.
Proof.
  intros Huser Hnone Htopic. unfold Produce at 1. rewrite Huser.
  rewrite bool_decide_eq_true_2 by (by eexists). cbn [negb deref].
  unfold getProducer. rewrite Htopic, Hnone.
  destruct (createProducer env); [by intros [= <- <-]|].
  destruct (awaitSends _ _); [|done..]. intros [= <- <-] _.
  split; [cbn; by rewrite lookup_insert_eq|].
  intros env2 kafkaTopic2 partition2 req2 resp2 b''. unfold Produce.
  cbn [userInfoManager with_producerManager]. rewrite Huser.
  rewrite bool_decide_eq_true_2 by (by eexists). cbn [negb deref].
  unfold getProducer.
  destruct (PulsarTopic _ kafkaTopic2); [|by intros [= _ <-]].
  cbn [producerManager with_producerManager]. rewrite lookup_insert_eq.
  destruct (awaitSends _ _); [|done..]. by intros [= _ <-].
Qed.

End more.

Lemma X17_witness :
  OffsetCommitPartition (server := ItKafsaImpl)
    (brokerWith (om := recording) []) "10.0.0.9:1" "t" "c" (commitReq 7)
  = (offsetCommitResp 0 UNKNOWN_SERVER_ERROR, brokerWith (om := recording) [])
  ∧
  OffsetCommitPartition (server := ItKafsaImpl)
    (brokerWith (om := recording) []) "10.0.0.1:4242" "t" "other"
    (commitReq 7)
  = (offsetCommitResp 0 REBALANCE_IN_PROGRESS, brokerWith (om := recording) []).
Proof.
  pose proof (X17_offset_commit_without_reader (server := ItKafsaImpl)
                (brokerWith (om := recording) []) "10.0.0.9:1" "t" "c"
                (commitReq 7)) as (Huser & _ & _).
  pose proof (X17_offset_commit_without_reader (server := ItKafsaImpl)
                (brokerWith (om := recording) []) "10.0.0.1:4242" "t" "other"
                (commitReq 7)) as (_ & _ & Hreader).
  split.
  - apply Huser. vm_compute. reflexivity.
  - apply (Hreader {| username := "alice"; ui_clientId := "c" |}
             "persistent://public/default/t-partition-0");
      vm_compute; reflexivity.
Defined.

Lemma X18_witness :
  FetchPartition (server := ItKafsaImpl) [] (brokerWith (om := recording) [])
    "10.0.0.9:1" "t" "c" {| fpr_PartitionId := 0 |} 100 1 500
  = Some (fetchResp 0 UNKNOWN_SERVER_ERROR 0 [],
          brokerWith (om := recording) [])
  ∧
  FetchPartition (server := ItKafsaImpl) [] (brokerWith (om := recording) [])
    "10.0.0.1:4242" "t" "other" {| fpr_PartitionId := 0 |} 100 1 500
  = Some (fetchResp 0 NONE 0 [], brokerWith (om := recording) []).
Proof.
  pose proof (X18_fetch_without_reader (server := ItKafsaImpl) []
                (brokerWith (om := recording) []) "10.0.0.9:1" "t" "c"
                {| fpr_PartitionId := 0 |} 100 1 500) as (Huser & _ & _).
  pose proof (X18_fetch_without_reader (server := ItKafsaImpl) []
                (brokerWith (om := recording) []) "10.0.0.1:4242" "t" "other"
                {| fpr_PartitionId := 0 |} 100 1 500) as (_ & _ & Hreader).
  split.
  - apply Huser. vm_compute. reflexivity.
  - apply (Hreader {| username := "alice"; ui_clientId := "c" |}
             "persistent://public/default/t-partition-0");
      vm_compute; reflexivity.
Defined.

(** *** Examples on the broker of [brokerWith] *)

Definition aliceAddr : string := "10.0.0.1:4242".

Definition aliceTopic : string := "persistent://public/default/t-partition-0".

Definition alice : userInfo := {| username := "alice"; ui_clientId := "c" |}.

Definition aliceReader : @ReaderMetadata numbered :=
  {| rm_groupId := "g"; messageIds := [pair 5; pair 7; pair 9] |}.

Definition broker0 : @Broker.Broker numbered recording :=
  brokerWith (om := recording) [].

(** The broker after the commit of offset 7. *)
Definition committed : @Broker.Broker numbered recording :=
  (OffsetCommitPartition (server := ItKafsaImpl) broker0 aliceAddr "t" "c"
     (commitReq 7)).2.

Lemma X19_witness :
  messageIds <$> readerManager committed !! (aliceTopic +:+ "c")
  = Some (filter (λ p, ocr_Offset (commitReq 7) < Offset p)
            (messageIds aliceReader)) ∧
  OffsetCommitPartition (server := ItKafsaImpl) committed aliceAddr "t" "c"
    (commitReq 7)
  = (offsetCommitResp 0 NONE, committed).
Proof.
  apply (X19_commit_on_increasing_offsets (server := ItKafsaImpl) broker0
           aliceAddr "t" "c" (commitReq 7) alice aliceTopic aliceReader).
  - vm_compute. reflexivity.
  - vm_compute. reflexivity.
  - vm_compute. reflexivity.
  - cbn. repeat (split || apply Forall_cons || apply Forall_nil_2);
      vm_compute; reflexivity.
  - vm_compute. reflexivity.
  - reflexivity.
Defined.

(** Two messages are read, then the record count ends the loop. *)
Definition twoReads : list (@FetchTick numbered) :=
  [tick 0 11; tick 1 12; tick 2 13].

Definition fetched
  : FetchPartitionResp * @Broker.Broker numbered recording :=
  default (fetchResp 0 NONE 0 [], broker0)
    (FetchPartition (server := ItKafsaImpl) twoReads broker0 aliceAddr "t"
       "c" {| fpr_PartitionId := 0 |} 100 1 500).

Lemma X20_witness :
  fp_ErrorCode fetched.1 = NONE ∧
  (∃ added,
     messageIds <$> readerManager fetched.2 !! (aliceTopic +:+ "c")
     = Some (messageIds aliceReader ++ added) ∧
     Offset <$> added
     = (λ r, rb_Offset (fp_RecordBatch fetched.1) + RelativeOffset r)
         <$> Records (fp_RecordBatch fetched.1)) ∧
  (∀ r, head (Records (fp_RecordBatch fetched.1)) = Some r →
        RelativeOffset r = 0) ∧
  (Records (fp_RecordBatch fetched.1) = [] →
   rb_Offset (fp_RecordBatch fetched.1) = 0).
Proof.
  apply (X20_fetch_offsets (server := ItKafsaImpl) twoReads broker0
           aliceAddr "t" "c" {| fpr_PartitionId := 0 |} 100 1 500 alice
           aliceTopic aliceReader fetched.1 fetched.2).
  - vm_compute. reflexivity.
  - vm_compute. reflexivity.
  - vm_compute. reflexivity.
  - vm_compute. reflexivity.
Defined.

Definition fetchedReader : @ReaderMetadata numbered :=
  {| rm_groupId := "g";
     messageIds := [pair 5; pair 7; pair 9; pair 11; pair 12] |}.

Lemma X21_witness :
  ∃ p,
    last (messageIds fetchedReader) = Some p ∧
    Offset p
    = rb_Offset (fp_RecordBatch fetched.1)
      + RelativeOffset
          {| Value := [Byte.x00; Byte.x01]; RelativeOffset := 1 |} ∧
    let commit := CommitOffset (offsetManager fetched.2) (username alice) "t"
                    (rm_groupId fetchedReader) 0 p in
    (commit.1 = None →
     OffsetCommitPartition (server := ItKafsaImpl) fetched.2 aliceAddr "t"
       "c" {| ocr_PartitionId := 0; ocr_Offset := Offset p |}
     = (offsetCommitResp 0 NONE,
        afterCommit fetched.2 (aliceTopic +:+ "c") fetchedReader commit.2
          [])).
Proof.
  apply (X21_fetch_then_commit (server := ItKafsaImpl) twoReads broker0
           aliceAddr "t" "c" 0 100 1 500 alice aliceTopic aliceReader
           fetched.1 fetched.2).
  - vm_compute. reflexivity.
  - vm_compute. reflexivity.
  - vm_compute. reflexivity.
  - vm_compute. reflexivity.
  - vm_compute. reflexivity.
  - vm_compute. reflexivity.
  - cbn. repeat (split || apply Forall_cons || apply Forall_nil_2);
      vm_compute; reflexivity.
Defined.

Lemma X22_witness :
  ∃ r,
    FetchPartition (server := ItKafsaImpl) [tick 0 11; tick 600 12] broker0
      aliceAddr "t" "c" {| fpr_PartitionId := 0 |} 100 1 500 = Some r ∧
    FetchPartition (server := ItKafsaImpl)
      ([tick 0 11; tick 600 12] ++ [tick 601 13]) broker0 aliceAddr "t" "c"
      {| fpr_PartitionId := 0 |} 100 1 500 = Some r.
Proof.
  apply (X22_fetch_returns_by_deadline (server := ItKafsaImpl)
           [tick 0 11; tick 600 12] [tick 601 13] broker0 aliceAddr "t" "c"
           {| fpr_PartitionId := 0 |} 100 1 500).
  apply Exists_cons_tl, Exists_cons_hd. vm_compute. discriminate.
Defined.

(** Two records are sent and both sends are acknowledged. *)
Definition twoAcks : @ProduceEnv numbered :=
  @Build_ProduceEnv numbered None ([41; 42] : list Z).

Definition twoRecords : ProducePartitionReq :=
  {| pr_Records := [{| pr_Key := None; pr_Value := [Byte.x00] |};
                    {| pr_Key := None; pr_Value := [Byte.x01] |}] |}.

Definition produced : @Broker.Broker numbered recording :=
  with_producerManager {[ aliceAddr := "persistent://public/default/t" ]}
    broker0.

Lemma X23_witness :
  let produce := Produce (server := ItKafsaImpl) twoAcks broker0 aliceAddr
                   "t" 0 twoRecords in
  (∀ e b',
     getProducer (server := ItKafsaImpl) twoAcks broker0 aliceAddr
       (username alice) "t" = (inr e, b') →
     b' = broker0 ∧
     produce = Ret (produceErrorResp TOPIC_AUTHORIZATION_FAILED, broker0)) ∧
  (∀ producer b',
     getProducer (server := ItKafsaImpl) twoAcks broker0 aliceAddr
       (username alice) "t" = (inl producer, b') →
     (pr_Records twoRecords = [] ∨
      (length (acks twoAcks) < length (pr_Records twoRecords))%nat →
      produce = Hang) ∧
     (∀ id,
        pr_Records twoRecords ≠ [] →
        acks twoAcks !! (length (pr_Records twoRecords) - 1)%nat = Some id →
        produce
        = Ret ({| pp_ErrorCode := NONE; pp_PartitionId := 0;
                  pp_Offset := ConvertMsgId id; pp_Time := -1;
                  pp_LogStartOffset := 0 |}, b'))).
Proof.
  apply (X23_produce_outcomes (server := ItKafsaImpl) twoAcks broker0
           aliceAddr "t" 0 twoRecords alice).
  vm_compute. reflexivity.
Defined.

Lemma X24_witness :
  producerManager produced !! aliceAddr
  = Some "persistent://public/default/t" ∧
  ∀ env2 kafkaTopic2 partition2 req2 resp2 b'',
    Produce (server := ItKafsaImpl) env2 produced aliceAddr kafkaTopic2
      partition2 req2 = Ret (resp2, b'') →
    b'' = produced.
Proof.
  apply (X24_producer_is_kept (server := ItKafsaImpl) twoAcks broker0
           aliceAddr "t" 0 twoRecords alice "persistent://public/default/t"
           {| pp_ErrorCode := NONE; pp_PartitionId := 0; pp_Offset := 42;
              pp_Time := -1; pp_LogStartOffset := 0 |} produced).
  - vm_compute. reflexivity.
  - vm_compute. reflexivity.
  - vm_compute. reflexivity.
  - vm_compute. reflexivity.
  - reflexivity.
Defined.

End BrokerMore.

(** ** Connections and group sessions *)

Module SessionMore.

(** The field of [Group] that shares its name with a method of the broker. *)
Local Abbreviation fieldPartitionedTopic := partitionedTopic.

Import codec GroupCoordinator CoordinatorSpec CoordinatorFacts CoordinatorMore.
Import Broker BrokerSpec Session.

Section sessions.
Context `{backend : Backend} `{!OffsetManager} `{!OffsetLookup}
  `{server : Server} `{auth : ServerAuth} `{library : Library}.

(** *** SaslAuth *)

(** X25.  The user of a connection is fixed by its first successful
    authentication.  After a SaslAuth that succeeded on an address, the
    address has a user, and every further SaslAuth on it, passing or
    failing and with whatever user name, leaves the broker as it is: it
    answers NONE when the server accepts the credentials and
    SASL_AUTHENTICATION_FAILED when it rejects them or fails. *)
Theorem X25_first_authentication_wins (k : Kafsar) addr req k1 req2 :
  SaslAuth k addr req = (true, NONE, k1) →
  is_Some (userInfoManager (broker k1) !! addr) ∧
  SaslAuth k1 addr req2
  = if bool_decide
         (Auth (sa_Username req2) (sa_Password req2) (sa_ClientId req2)
          = (true, None))
    then (true, NONE, k1)
    else (false, SASL_AUTHENTICATION_FAILED, k1).
Proof.
  unfold SaslAuth at 1.
  destruct (_ || _); [done|].
  assert (is_Some (userInfoManager (broker k1) !! addr) →
          SaslAuth k1 addr req2
          = if bool_decide
                 (Auth (sa_Username req2) (sa_Password req2)
                    (sa_ClientId req2) = (true, None))
            then (true, NONE, k1)
            else (false, SASL_AUTHENTICATION_FAILED, k1)) as Hagain.
  { intros [user Huser]. unfold SaslAuth.
    destruct (Auth _ _ _) as [[|] [e|]]; cbn [fst snd negb].
    all: repeat (case_bool_decide; simplify_eq; cbn [orb]; try done).
    all: by rewrite ?Huser. }
  destruct (userInfoManager (broker k) !! addr) as [user|] eqn:Huser.
  - intros [= <-]. split; [by rewrite Huser|]. apply Hagain.
    by rewrite Huser.
  - intros [= <-].
    assert (is_Some (userInfoManager
              (broker (with_broker
                 (with_userInfoManager
                    (<[addr := {| username := sa_Username req;
                                  ui_clientId := sa_ClientId req |}]>
                       (userInfoManager (broker k))) (broker k)) k))
              !! addr)) as Hsome
      by (cbn; by rewrite lookup_insert_eq).
    split; [done|]. by apply Hagain.
Qed.

(** *** GroupJoin *)

(** X26.  GroupJoin always returns.  Without a user for the address it
    answers UNKNOWN_SERVER_ERROR with generation -1 and the member id of the
    request, and changes nothing.  With a user it passes the coordinator's
    answer on and binds the connection to the member id of that answer, the
    group id, the group instance id and the client id of the request, also
    when the answer carries an error code; users, readers, producers and
    backend clients are as before. *)
Theorem X26_group_join_binds_connection env (k : Kafsar) addr req :
  (userInfoManager (broker k) !! addr = None →
   GroupJoin env k addr req
   = Ret ({| jg_ErrorCode := UNKNOWN_SERVER_ERROR; jg_GenerationId := -1;
             jg_ProtocolType := None; jg_ProtocolName := "";
             jg_LeaderId := ""; jg_MemberId := jr_MemberId req;
             jg_Members := [] |}, k)) ∧
  (∀ user,
     userInfoManager (broker k) !! addr = Some user →
     ∃ resp c,
       HandleJoinGroup env (groupCoordinator (broker k)) (username user)
         (jr_GroupId req) (jr_MemberId req) (jr_ClientId req)
         (jr_ProtocolType req) (jr_SessionTimeout req)
         (jr_GroupProtocols req) = Ret (resp, c) ∧
       GroupJoin env k addr req
       = Ret (resp,
              with_memberManager
                (<[addr := {| mi_memberId := jg_MemberId resp;
                              mi_groupId := jr_GroupId req;
                              groupInstanceId := jr_GroupInstanceId req;
                              mi_clientId := jr_ClientId req |}]>
                   (memberManager k))
                (with_broker (with_groupCoordinator c (broker k)) k))).
Proof.
  unfold GroupJoin. split; [by intros ->|]. intros user ->.
  destruct (HandleJoinGroup_returns env (groupCoordinator (broker k))
              (username user) (jr_GroupId req) (jr_MemberId req)
              (jr_ClientId req) (jr_ProtocolType req)
              (jr_SessionTimeout req) (jr_GroupProtocols req))
    as (resp & c & Hjoin).
  exists resp, c. by rewrite Hjoin.
Qed.

(** *** GroupLeave *)

Lemma with_coordinator_same (k : Kafsar) :
  with_broker (with_groupCoordinator (groupCoordinator (broker k)) (broker k))
    k = k.
Proof. destruct k as [[] ? ?]. done. Qed.

Lemma HandleLeaveGroup_returns c username groupId ms :
  ∃ resp c', HandleLeaveGroup c username groupId ms = Ret (resp, c').
Proof.
  unfold HandleLeaveGroup. case_bool_decide; [by eauto|].
  destruct (groupManager c !! _) as [g|]; [|by eauto].
  unfold onGroup. destruct (leaveGroup_returns ms g) as [[resp g'] ->].
  by eauto.
Qed.

(** What the loops over [group.partitionedTopic] leave of the broker. *)
Definition readersClosed (clientId : string) (topics : list string)
    (k k' : Kafsar) : Prop :=
  (∀ key, readerManager (broker k') !! key
          = if bool_decide (key ∈ (λ topic, topic +:+ clientId) <$> topics)
            then None else readerManager (broker k) !! key) ∧
  (∀ key, key ∈ pulsarClientManage k' ↔
          key ∈ pulsarClientManage k ∧
          key ∉ (λ topic, topic +:+ clientId) <$> topics) ∧
  userInfoManager (broker k') = userInfoManager (broker k) ∧
  producerManager (broker k') = producerManager (broker k) ∧
  groupCoordinator (broker k') = groupCoordinator (broker k) ∧
  offsetManager (broker k') = offsetManager (broker k) ∧
  memberManager k' = memberManager k.

Lemma readersClosed_nil clientId k : readersClosed clientId [] k k.
Proof.
  unfold readersClosed. split_and!; try done.
  intros key. cbn. split; [intros ?; split; [done|]|by intros [? _]].
  by intros ?%elem_of_nil.
Qed.

Lemma readersClosed_cons clientId topic topics k k1 k' :
  readerManager (broker k1)
  = delete (topic +:+ clientId) (readerManager (broker k)) →
  pulsarClientManage k1 = pulsarClientManage k ∖ {[topic +:+ clientId]} →
  userInfoManager (broker k1) = userInfoManager (broker k) →
  producerManager (broker k1) = producerManager (broker k) →
  groupCoordinator (broker k1) = groupCoordinator (broker k) →
  offsetManager (broker k1) = offsetManager (broker k) →
  memberManager k1 = memberManager k →
  readersClosed clientId topics k1 k' →
  readersClosed clientId (topic :: topics) k k'.
Proof.
  intros Hr Hc Hu Hp Hg Ho Hm (Hr' & Hc' & Hu' & Hp' & Hg' & Ho' & Hm').
  unfold readersClosed. split_and!; try congruence.
  - intros key. rewrite Hr', Hr, fmap_cons.
    destruct (decide (key = topic +:+ clientId)) as [->|Hne].
    + rewrite lookup_delete_eq.
      rewrite (bool_decide_eq_true_2 (_ ∈ _ :: _)) by (apply elem_of_cons; by left).
      by case_bool_decide.
    + rewrite lookup_delete_ne by done.
      apply (f_equal (λ b : bool, if b then _ else _)).
      apply bool_decide_ext. rewrite elem_of_cons. naive_solver.
  - intros key. rewrite Hc', Hc, fmap_cons, elem_of_cons.
    rewrite elem_of_difference, elem_of_singleton. naive_solver.
Qed.

Lemma closeReaders_closed clientId topics k :
  readersClosed clientId topics k
    (fold_left (closeReader clientId) topics k).
Proof.
  revert k. induction topics as [|topic topics IH]; intros k;
    [apply readersClosed_nil|].
  cbn [fold_left]. by eapply readersClosed_cons; [..|apply IH].
Qed.

Lemma leaveTopics_closed clientId topics k :
  let k' := fold_left (leaveTopic clientId) topics k in
  readersClosed clientId topics k k' ∧
  ∀ topic, topicGroupManager (broker k') !! topic
           = if bool_decide (topic ∈ topics) then None
             else topicGroupManager (broker k) !! topic.
Proof.
  cbn zeta. revert k. induction topics as [|topic topics IH]; intros k.
  - split; [apply readersClosed_nil|]. intros topic.
    by rewrite bool_decide_eq_false_2 by (by intros ?%elem_of_nil).
  - cbn [fold_left]. destruct (IH (leaveTopic clientId k topic)) as [Hc Ht].
    split; [by eapply readersClosed_cons; [..|apply Hc]|].
    intros t. rewrite Ht. cbn.
    destruct (decide (t = topic)) as [->|Hne].
    + rewrite lookup_delete_eq.
      rewrite (bool_decide_eq_true_2 (_ ∈ _ :: _)) by (apply elem_of_cons; by left).
      by case_bool_decide.
    + rewrite lookup_delete_ne by done.
      apply (f_equal (λ b : bool, if b then _ else _)).
      apply bool_decide_ext. rewrite elem_of_cons. naive_solver.
Qed.

(** X27.  GroupLeave for an authenticated connection.  For a group the
    coordinator does not know it answers UNKNOWN_SERVER_ERROR (the
    coordinator's INVALID_GROUP_ID is not passed on) and changes nothing.
    For a known group it answers NONE with the members of the request; the
    members are gone from the group; and for every topic of the group the
    reader and the backend client of (topic, client id of the request) and
    the topic's group entry are gone, while readers under other keys, users,
    producers and member bindings are as before. *)
Theorem X27_group_leave (k : Kafsar) addr req user :
  userInfoManager (broker k) !! addr = Some user →
  let c := groupCoordinator (broker k) in
  let key := username user +:+ lr_GroupId req in
  (groupManager c !! key = None →
   GroupLeave k addr req
   = Ret ({| lg_ErrorCode := UNKNOWN_SERVER_ERROR; lg_Members := [] |}, k)) ∧
  (∀ g,
     lr_GroupId req ≠ "" →
     groupManager c !! key = Some g →
     ∃ k' g',
       GroupLeave k addr req
       = Ret ({| lg_ErrorCode := NONE; lg_Members := lr_Members req |}, k') ∧
       groupManager (groupCoordinator (broker k')) !! key = Some g' ∧
       (∀ id, id ∈ leaving (lr_Members req) → members g' !! id = None) ∧
       (groupStatus g' = Empty ∨ groupStatus g' = PreparingRebalance) ∧
       (∀ topic, topic ∈ fieldPartitionedTopic g →
          readerManager (broker k') !! (topic +:+ lr_ClientId req) = None ∧
          ((topic +:+ lr_ClientId req) ∉ pulsarClientManage k') ∧
          topicGroupManager (broker k') !! topic = None) ∧
       (∀ rkey, rkey ∉ ((λ topic, topic +:+ lr_ClientId req)
                          <$> fieldPartitionedTopic g) →
                readerManager (broker k') !! rkey
                = readerManager (broker k) !! rkey) ∧
       userInfoManager (broker k') = userInfoManager (broker k) ∧
       producerManager (broker k') = producerManager (broker k) ∧
       memberManager k' = memberManager k).
Proof.
  intros Huser. cbn zeta. unfold GroupLeave. rewrite Huser. split.
  - intros Hnone. unfold HandleLeaveGroup.
    assert ((if bool_decide (lr_GroupId req = "")
             then Ret ({| lg_ErrorCode := INVALID_GROUP_ID;
                          lg_Members := [] |}, groupCoordinator (broker k))
             else
               match groupManager (groupCoordinator (broker k))
                       !! (username user +:+ lr_GroupId req) with
               | Some group =>
                   onGroup (username user +:+ lr_GroupId req) group
                     (leaveGroup (lr_Members req))
                     (groupCoordinator (broker k))
               | None =>
                   Ret ({| lg_ErrorCode := INVALID_GROUP_ID;
                           lg_Members := [] |},
                        groupCoordinator (broker k))
               end)
            = Ret ({| lg_ErrorCode := INVALID_GROUP_ID; lg_Members := [] |},
                   groupCoordinator (broker k))) as ->.
    { case_bool_decide; [done|]. by rewrite Hnone. }
    unfold GetGroup. rewrite Hnone. by rewrite with_coordinator_same.
  - intros g Hgid Hg. unfold HandleLeaveGroup.
    rewrite bool_decide_eq_false_2 by done. rewrite Hg.
    destruct (onGroup _ _ _ _) as [[resp c']| |] eqn:Hon.
    2,3: unfold onGroup in Hon;
         destruct (leaveGroup_returns (lr_Members req) g) as [[? ?] Hret];
         by rewrite Hret in Hon.
    apply onGroup_ret in Hon as (g' & Hbody & ->).
    destruct (post_ret_inv _ _ _ _ _ (leaveGroup_post _ _) Hbody)
      as (-> & Hm & _ & _ & Hs).
    pose proof (post_ret_inv _ _ _ _ _ (leaveGroup_static _ _) Hbody) as Hst.
    unfold statics in Hst. injection Hst as _ _ _ _ Htopics.
    unfold GetGroup. cbn [groupManager with_groupManager].
    rewrite lookup_insert_eq.
    match goal with
    | |- context [fold_left ?f ?l ?k0] =>
        destruct (leaveTopics_closed (lr_ClientId req) l k0)
          as [(Hr & Hc & Hu & Hp & Hgc & Ho & Hmm) Ht]
    end.
    eexists _, g'. split; [done|]. rewrite Htopics in *.
    split_and!.
    + rewrite Hgc. cbn. by rewrite lookup_insert_eq.
    + intros id Hid. rewrite Hm, lookup_foldr_delete.
      by rewrite bool_decide_eq_true_2.
    + rewrite Hs. case_bool_decide; by auto.
    + intros topic Hin. split_and!.
      * rewrite Hr, bool_decide_eq_true_2; [done|].
        by apply (list_elem_of_fmap_2 (λ t, t +:+ lr_ClientId req)).
      * rewrite Hc. intros [_ Hnot]. apply Hnot.
        by apply (list_elem_of_fmap_2 (λ t, t +:+ lr_ClientId req)).
      * by rewrite Ht, bool_decide_eq_true_2.
    + intros rkey Hnot. by rewrite Hr, bool_decide_eq_false_2.
    + by rewrite Hu.
    + by rewrite Hp.
    + by rewrite Hmm.
Qed.

(** *** Disconnect *)

Lemma GroupLeave_frame (k : Kafsar) addr req :
  ∃ resp k',
    GroupLeave k addr req = Ret (resp, k') ∧
    userInfoManager (broker k') = userInfoManager (broker k) ∧
    producerManager (broker k') = producerManager (broker k) ∧
    memberManager k' = memberManager k ∧
    (∀ user, userInfoManager (broker k) !! addr = Some user →
       ∃ resp0,
         HandleLeaveGroup (groupCoordinator (broker k)) (username user)
           (lr_GroupId req) (lr_Members req)
         = Ret (resp0, groupCoordinator (broker k'))).
Proof.
  unfold GroupLeave.
  destruct (userInfoManager (broker k) !! addr) as [user|] eqn:Huser.
  2:{ eexists _, _. split; [done|]. split_and!; try done. }
  destruct (HandleLeaveGroup_returns (groupCoordinator (broker k))
              (username user) (lr_GroupId req) (lr_Members req))
    as (resp & c & Hleave).
  rewrite Hleave. destruct (GetGroup _ _ _) as [group|e].
  - match goal with
    | |- context [fold_left ?f ?l ?k0] =>
        destruct (leaveTopics_closed (lr_ClientId req) l k0)
          as [(Hr & Hc & Hu & Hp & Hgc & Ho & Hmm) Ht]
    end.
    eexists _, _. split; [done|]. rewrite Hu, Hp, Hmm, Hgc.
    split_and!; try done. intros ? [= <-]. by eexists.
  - eexists _, _. split; [done|]. split_and!; try done.
    intros ? [= <-]. by eexists.
Qed.

(** X28.  Disconnect of a connection always returns.  Afterwards the
    address has neither a user nor a producer, while other addresses keep
    theirs, and the binding of the address to the member it had joined as is
    still there.  If the connection had a user and was bound to a member of
    a group the coordinator knows, that member is gone from the group, which
    is then Empty or in PreparingRebalance. *)
Theorem X28_disconnect (k : Kafsar) addr :
  ∃ k',
    Disconnect k (Some addr) = Ret k' ∧
    userInfoManager (broker k') !! addr = None ∧
    producerManager (broker k') !! addr = None ∧
    (∀ other, other ≠ addr →
       userInfoManager (broker k') !! other
       = userInfoManager (broker k) !! other ∧
       producerManager (broker k') !! other
       = producerManager (broker k) !! other) ∧
    memberManager k' = memberManager k ∧
    (∀ user info g,
       userInfoManager (broker k) !! addr = Some user →
       memberManager k !! addr = Some info →
       mi_groupId info ≠ "" →
       groupManager (groupCoordinator (broker k))
         !! (username user +:+ mi_groupId info) = Some g →
       ∃ g',
         groupManager (groupCoordinator (broker k'))
           !! (username user +:+ mi_groupId info) = Some g' ∧
         members g' !! mi_memberId info = None ∧
         (groupStatus g' = Empty ∨ groupStatus g' = PreparingRebalance)).
Proof.
  unfold Disconnect.
  set (k0 := match producerManager (broker k) !! addr with
             | Some _ =>
                 with_broker
                   (with_producerManager
                      (delete addr (producerManager (broker k))) (broker k))
                   k
             | None => k
             end).
  assert (producerManager (broker k0) !! addr = None ∧
          (∀ other, other ≠ addr →
             producerManager (broker k0) !! other
             = producerManager (broker k) !! other) ∧
          userInfoManager (broker k0) = userInfoManager (broker k) ∧
          memberManager k0 = memberManager k ∧
          groupCoordinator (broker k0) = groupCoordinator (broker k))
    as (Hp0 & Hpo & Hu0 & Hm0 & Hc0).
  { subst k0.
    destruct (producerManager (broker k) !! addr) eqn:Hp; cbn.
    - rewrite lookup_delete_eq. split_and!; try done.
      intros other Hne. by rewrite lookup_delete_ne.
    - by split_and!. }
  clearbody k0.
  destruct (memberManager k !! addr) as [info|] eqn:Hinfo.
  - destruct (GroupLeave_frame k0 addr
                {| lr_ClientId := mi_clientId info;
                   lr_GroupId := mi_groupId info;
                   lr_Members :=
                     [{| lgm_MemberId := mi_memberId info;
                         lgm_GroupInstanceId := groupInstanceId info |}] |})
      as (resp & k1 & Hleave & Hu1 & Hp1 & Hm1 & Hc1).
    rewrite Hleave. eexists. split; [done|]. cbn.
    rewrite lookup_delete_eq, Hp1, Hu1, Hu0. split_and!; try done.
    + intros other Hne. rewrite lookup_delete_ne by done. by split; [|auto].
    + congruence.
    + intros user ? g Huser [= <-] Hgid Hg.
      rewrite Hu0 in Hc1. destruct (Hc1 user Huser) as [resp0 Hhandle].
      cbn [lr_GroupId lr_Members] in Hhandle. rewrite Hc0 in Hhandle.
      unfold HandleLeaveGroup in Hhandle.
      rewrite bool_decide_eq_false_2, Hg in Hhandle by done.
      apply onGroup_ret in Hhandle as (g' & Hbody & ->).
      destruct (post_ret_inv _ _ _ _ _ (leaveGroup_post _ _) Hbody)
        as (_ & Hm & _ & _ & Hs).
      exists g'. cbn. rewrite lookup_insert_eq. split_and!; [done| |].
      * rewrite Hm, lookup_foldr_delete.
        rewrite bool_decide_eq_true_2; [done|].
        cbn. apply elem_of_cons. by left.
      * rewrite Hs. case_bool_decide; by auto.
  - eexists. split; [done|]. cbn. rewrite lookup_delete_eq, Hu0.
    split_and!; try done.
    intros other Hne. rewrite lookup_delete_ne by done. by split; [|auto].
Qed.

(** *** HeartBeat *)

Lemma closeReaders_topicGroup clientId topics (k : Kafsar) :
  topicGroupManager (broker (fold_left (closeReader clientId) topics k))
  = topicGroupManager (broker k).
Proof.
  revert k. induction topics as [|t topics IH]; intros k; [done|].
  cbn [fold_left]. by rewrite IH.
Qed.

(** X29.  HeartBeat for an authenticated connection answers what the
    coordinator's HandleHeartBeat answers and leaves the coordinator, the
    users and the topics' group entries alone.  When that answer is not
    REBALANCE_IN_PROGRESS, or the group is unknown, the broker is unchanged.
    When it is REBALANCE_IN_PROGRESS for a known group, the reader and the
    backend client of (topic, client id of the request) are gone for every
    topic of the group, and no other reader is touched. *)
Theorem X29_heartbeat_closes_readers (k : Kafsar) addr req user :
  userInfoManager (broker k) !! addr = Some user →
  let c := groupCoordinator (broker k) in
  let resp := HandleHeartBeat c (username user) (hr_GroupId req)
                (hr_MemberId req) in
  ∃ k',
    HeartBeat k addr req = (resp, k') ∧
    groupCoordinator (broker k') = c ∧
    userInfoManager (broker k') = userInfoManager (broker k) ∧
    topicGroupManager (broker k') = topicGroupManager (broker k) ∧
    (hb_ErrorCode resp ≠ REBALANCE_IN_PROGRESS ∨
     groupManager c !! (username user +:+ hr_GroupId req) = None →
     k' = k) ∧
    (∀ g,
       hb_ErrorCode resp = REBALANCE_IN_PROGRESS →
       groupManager c !! (username user +:+ hr_GroupId req) = Some g →
       (∀ topic, topic ∈ fieldPartitionedTopic g →
          readerManager (broker k') !! (topic +:+ hr_ClientId req) = None ∧
          (topic +:+ hr_ClientId req) ∉ pulsarClientManage k') ∧
       (∀ rkey, rkey ∉ ((λ topic, topic +:+ hr_ClientId req)
                          <$> fieldPartitionedTopic g) →
                readerManager (broker k') !! rkey
                = readerManager (broker k) !! rkey)).
Proof.
  intros Huser. cbn zeta. unfold HeartBeat. rewrite Huser.
  case_bool_decide as Hcode.
  - unfold GetGroup.
    destruct (groupManager _ !! _) as [g|] eqn:Hg.
    + destruct (closeReaders_closed (hr_ClientId req)
                  (fieldPartitionedTopic g) k)
        as (Hr & Hc & Hu & Hp & Hgc & Ho & Hmm).
      pose proof (closeReaders_topicGroup (hr_ClientId req)
                    (fieldPartitionedTopic g) k) as Htg.
      eexists. split; [done|]. split_and!; try done.
      * intros [Hne|Hnone]; done.
      * intros g0 _ [= <-]. split.
        -- intros topic Hin. split.
           ++ rewrite Hr, bool_decide_eq_true_2; [done|].
              by apply (list_elem_of_fmap_2 (λ t, t +:+ hr_ClientId req)).
           ++ rewrite Hc. intros [_ Hnot]. apply Hnot.
              by apply (list_elem_of_fmap_2 (λ t, t +:+ hr_ClientId req)).
        -- intros rkey Hnot. by rewrite Hr, bool_decide_eq_false_2.
    + eexists. split; [done|]. split_and!; try done.
  - eexists. split; [done|]. split_and!; try done.
Qed.

End sessions.

End SessionMore.
